(** * Browsint: fetch layer, robots rules, contact filters, Shodan batch
      lookup and the OSINT profile store

    A shallow embedding of the Python sources
      - [src/scraper/utils/extractors.py]      ([extract_emails], [filter_phone_numbers])
      - [src/scraper/utils/robots_parser.py]   ([RobotsParser.is_allowed])
      - [src/scraper/utils/clients.py]         ([fetch_shodan])
      - [src/scraper/fetcher.py]               ([WebFetcher])
      - [src/scraper/extractors/osint_extractor.py]
                                               ([_get_or_create_entity], [_save_osint_profile])

    Conventions.  A Python [str] is a [list ascii]; the embedding covers
    ASCII text, where [str.isdigit], [\d] and [str.lower] act on the
    characters '0'..'9' and 'A'..'Z' only.  A Python [set] of strings is a
    [gset], a [dict] keyed by strings a [gmap].  Functions that may raise
    return a [result]. *)

From Stdlib Require Import ZArith QArith Ascii String List Bool Lia.
From stdpp Require Import base gmap sets list strings sorting.

Close Scope Q_scope.
Open Scope list_scope.

Abbreviation str := (list ascii).

(** String literals of the sources, as character lists. *)
Definition lit (s : string) : str := list_ascii_of_string s.

(** What a Python call produces: a value, or a raised exception. *)
Inductive result (E A : Type) : Type :=
| Return (a : A)
| Raise (e : E).
Arguments Return {E A} a.
Arguments Raise {E A} e.

(** ** A backtracking matcher for the regular expressions of the sources

    Python's [re] explores alternatives in priority order: the left branch
    of [|] first, as many iterations of a greedy quantifier as possible
    first.  [run r p k] is that search written with a success continuation:
    it answers with the first end position, in priority order, at which
    [k] succeeds. *)
Module Re.

(** [r{lo,hi}] is [Rep r lo (Some hi)]; [r{lo,}] is [Rep r lo None]. *)
Inductive regex : Type :=
| Empty
| Class (c : ascii -> bool)
| Cat (r1 r2 : regex)
| Alt (r1 r2 : regex)
| Rep (r : regex) (lo : nat) (hi : option nat)
| Bos                       (* ^ *)
| Eos                       (* $ *)
| WordB                     (* \b *)
| Ahead (r : regex).        (* (?=r) *)

(** A position in the subject string: the characters already passed
    (nearest first) and the characters still ahead. *)
Record pos : Type := Pos { before : str; after : str }.

Definition start (s : str) : pos := Pos [] s.

Definition shift (a : ascii) (rest : str) (p : pos) : pos :=
  Pos (a :: before p) rest.

Definition in_range (lo hi : string) (a : ascii) : bool :=
  match lo, hi with
  | String l EmptyString, String h EmptyString =>
      (nat_of_ascii l <=? nat_of_ascii a) && (nat_of_ascii a <=? nat_of_ascii h)
  | _, _ => false
  end.

Definition is_char (c : string) (a : ascii) : bool :=
  match c with
  | String x EmptyString => bool_decide (a = x)
  | _ => false
  end.

Definition one_of (cs : string) (a : ascii) : bool :=
  bool_decide (a ∈ lit cs).

(** [\d], [\w] on ASCII text. *)
Definition digit (a : ascii) : bool := in_range "0" "9" a.
Definition word (a : ascii) : bool :=
  in_range "a" "z" a || in_range "A" "Z" a || digit a || is_char "_" a.

Definition word_at (o : option ascii) : bool :=
  match o with Some a => word a | None => false end.

Definition below (n : nat) (hi : option nat) : bool :=
  match hi with Some h => n <? h | None => true end.

(** The iterations of a greedy quantifier around a body matcher: one more
    iteration is tried first, as long as the upper bound allows it and
    the iteration consumed input; stopping is allowed from [lo]
    iterations on. *)
Fixpoint rep_loop (body : pos -> (pos -> option pos) -> option pos)
    (lo : nat) (hi : option nat) (k : pos -> option pos)
    (fuel n : nat) (p : pos) {struct fuel} : option pos :=
  let stop := if lo <=? n then k p else None in
  match fuel with
  | O => stop
  | S fuel' =>
      if below n hi then
        match body p (fun q =>
                if length (after q) <? length (after p)
                then rep_loop body lo hi k fuel' (S n) q else None) with
        | Some e => Some e
        | None => stop
        end
      else stop
  end.

Definition newline : ascii := "010"%char.

Fixpoint run (r : regex) (p : pos) (k : pos -> option pos) {struct r}
  : option pos :=
  match r with
  | Empty => k p
  | Class c =>
      match after p with
      | a :: rest => if c a then k (shift a rest p) else None
      | [] => None
      end
  | Cat r1 r2 => run r1 p (fun q => run r2 q k)
  | Alt r1 r2 =>
      match run r1 p k with
      | Some e => Some e
      | None => run r2 p k
      end
  | Rep r lo hi => rep_loop (run r) lo hi k (length (after p)) O p
  | Bos => match before p with [] => k p | _ => None end
  | Eos =>
      match after p with
      | [] => k p
      | [a] => if bool_decide (a = newline) then k p else None
      | _ => None
      end
  | WordB =>
      if xorb (word_at (head (before p))) (word_at (head (after p)))
      then k p else None
  | Ahead r =>
      match run r p Some with
      | Some _ => k p
      | None => None
      end
  end.

(** [re.match(r, s)]: a match anchored at the start of [s]. *)
Definition re_match (r : regex) (s : str) : bool :=
  match run r (start s) Some with Some _ => true | None => false end.

(** The text between two positions of one subject string. *)
Definition between (p e : pos) : str :=
  take (length (after p) - length (after e)) (after p).

(** [re.findall(r, s)] for a pattern without capture groups: the leftmost
    match, then the search resumes where that match ended (one character
    further after an empty match). *)
Fixpoint scan (r : regex) (fuel : nat) (p : pos) {struct fuel} : list str :=
  match fuel with
  | O => []
  | S fuel' =>
      match run r p Some with
      | Some e =>
          between p e ::
            (if length (after e) <? length (after p) then scan r fuel' e
             else match after p with
                  | a :: rest => scan r fuel' (shift a rest p)
                  | [] => []
                  end)
      | None =>
          match after p with
          | a :: rest => scan r fuel' (shift a rest p)
          | [] => []
          end
      end
  end.

Definition findall (r : regex) (s : str) : list str :=
  scan r (S (length s)) (start s).


(** *** What a match is, declaratively

    [sem r p q]: the pattern [r] matches the text between the positions
    [p] and [q].  An iteration of a quantifier consumes input, as in
    [rep_loop]. *)
Inductive sem : regex -> pos -> pos -> Prop :=
| sem_Empty p : sem Empty p p
| sem_Class c a rest p :
    after p = a :: rest -> c a = true -> sem (Class c) p (shift a rest p)
| sem_Cat r1 r2 p q e : sem r1 p q -> sem r2 q e -> sem (Cat r1 r2) p e
| sem_Alt_l r1 r2 p q : sem r1 p q -> sem (Alt r1 r2) p q
| sem_Alt_r r1 r2 p q : sem r2 p q -> sem (Alt r1 r2) p q
| sem_Rep r lo hi n p q :
    lo <= n -> (forall h, hi = Some h -> n <= h) ->
    sem_n r n p q -> sem (Rep r lo hi) p q
| sem_Bos p : before p = [] -> sem Bos p p
| sem_Eos p : after p = [] \/ after p = [newline] -> sem Eos p p
| sem_WordB p :
    word_at (head (before p)) <> word_at (head (after p)) -> sem WordB p p
| sem_Ahead r p q : sem r p q -> sem (Ahead r) p p
with sem_n : regex -> nat -> pos -> pos -> Prop :=
| sem_n_O r p : sem_n r O p p
| sem_n_S r n p q e :
    sem r p q -> length (after q) < length (after p) ->
    sem_n r n q e -> sem_n r (S n) p e.

Scheme sem_mut := Minimality for sem Sort Prop
  with sem_n_mut := Minimality for sem_n Sort Prop.
Combined Scheme sem_sem_n_ind from sem_mut, sem_n_mut.

End Re.

(** ** Python string helpers used by the sources *)
Module Py.
Import Re.

Definition lower_char (a : ascii) : ascii :=
  if in_range "A" "Z" a then ascii_of_nat (nat_of_ascii a + 32) else a.

(** [s.lower()] *)
Definition lower (s : str) : str := map lower_char s.

(** [s.startswith(pre)] *)
Definition startswith (pre s : str) : bool := bool_decide (pre `prefix_of` s).

(** [sub in s] *)
Fixpoint contains (sub s : str) : bool :=
  startswith sub s ||
  match s with
  | [] => false
  | _ :: s' => contains sub s'
  end.

(** [s.split(sep)] for a one-character separator. *)
Fixpoint split (sep : ascii) (s : str) : list str :=
  match s with
  | [] => [[]]
  | a :: s' =>
      if bool_decide (a = sep) then [] :: split sep s'
      else match split sep s' with
           | w :: ws => (a :: w) :: ws
           | [] => [[a]]
           end
  end.

(** [s.replace(c, '')] for a one-character [c]. *)
Definition remove_char (c : ascii) (s : str) : str :=
  List.filter (fun a => negb (bool_decide (a = c))) s.

(** [''.join(filter(str.isdigit, s))] *)
Definition digits_of (s : str) : str := List.filter digit s.

(** [len(set(s))] *)
Definition distinct (s : str) : nat := length (remove_dups s).

Fixpoint decimal (acc : Z) (s : str) : Z :=
  match s with
  | [] => acc
  | a :: s' => decimal (10 * acc + (Z.of_nat (nat_of_ascii a) - 48)) s'
  end.

(** [int(s)] on a run of decimal digits; [None] stands for [ValueError].
    The callers only pass strings made of digits. *)
Definition int (s : str) : option Z :=
  match s with
  | [] => None
  | _ => if forallb digit s then Some (decimal 0 s) else None
  end.

End Py.

(** ** [src/scraper/utils/extractors.py] *)
Module Extractors.
Import Re Py.

Definition seq (rs : list regex) : regex := foldr Cat Empty rs.

Fixpoint alt (rs : list regex) : regex :=
  match rs with
  | [] => Class (fun _ => false)
  | [r] => r
  | r :: rs' => Alt r (alt rs')
  end.

Definition ch (c : string) : regex := Class (is_char c).
Definition exactly (n : nat) (r : regex) : regex := Rep r n (Some n).

Definition alnum (a : ascii) : bool :=
  in_range "A" "Z" a || in_range "a" "z" a || in_range "0" "9" a.
Definition alpha (a : ascii) : bool :=
  in_range "A" "Z" a || in_range "a" "z" a.
Definition hex (a : ascii) : bool :=
  in_range "0" "9" a || in_range "a" "f" a.

(** [\b[A-Za-z0-9][A-Za-z0-9._%+-]{1,64}@(?:[A-Za-z0-9-]{1,63}\.){1,8}[A-Za-z]{2,63}\b] *)
Definition email_pattern : regex :=
  seq [ WordB;
        Class alnum;
        Rep (Class (fun a => alnum a || one_of "._%+-" a)) 1 (Some 64);
        ch "@";
        Rep (seq [Rep (Class (fun a => alnum a || is_char "-" a)) 1 (Some 63);
                  ch "."]) 1 (Some 8);
        Rep (Class alpha) 2 (Some 63);
        WordB ].

Definition excluded_domains : list str :=
  map lit [ "example.com"; "domain.com"; "yoursite.com"; "yourdomain.com";
            "example.org"; "email.com"; "test.com"; "sample.com" ]%string.

(** [^[0-9a-f]{32}@] and
    [^[0-9a-f]{8}[0-9a-f]{4}[0-9a-f]{4}[0-9a-f]{4}[0-9a-f]{12}@] *)
Definition excluded_patterns : list regex :=
  [ seq [Bos; exactly 32 (Class hex); ch "@"];
    seq [Bos; exactly 8 (Class hex); exactly 4 (Class hex);
         exactly 4 (Class hex); exactly 4 (Class hex);
         exactly 12 (Class hex); ch "@"] ].

Definition excluded_extensions : list str :=
  map lit [ ".png"; ".jpg"; ".jpeg"; ".gif"; ".webp"; ".svg"; ".css";
            ".js"; ".pdf"; ".doc"; ".mp3"; ".mp4" ]%string.

Inductive exn : Type := IndexError.

(** The body of the [for e in re.findall(...)] loop: [Return None] is a
    [continue], [Return (Some x)] is [emails.add(x)]. *)
Definition email_step (e : str) : result exn (option str) :=
  let e_lower := lower e in
  if existsb (fun ext => contains ext e_lower) excluded_extensions
  then Return None
  else if existsb (fun pattern => re_match pattern e_lower) excluded_patterns
  then Return None
  else
    match split "@" e_lower !! 1%nat with
    | None => Raise IndexError
    | Some domain_part =>
        if existsb (fun excl_domain => bool_decide (domain_part = excl_domain))
             excluded_domains
        then Return None
        else
          match split "@" e_lower !! 0%nat with
          | None => Raise IndexError
          | Some local_part =>
              if (distinct local_part <=? 2) && (4 <? length local_part)
              then Return None
              else Return (Some e_lower)
          end
    end.

Fixpoint emails_loop (cands : list str) (emails : gset str)
  : result exn (gset str) :=
  match cands with
  | [] => Return emails
  | e :: rest =>
      match email_step e with
      | Raise x => Raise x
      | Return None => emails_loop rest emails
      | Return (Some x) => emails_loop rest ({[x]} ∪ emails)
      end
  end.

Definition extract_emails (text : str) : result exn (gset str) :=
  emails_loop (findall email_pattern text) ∅.

(** *** [filter_phone_numbers] *)

Definition d01_09 : regex := seq [ch "0"; Class (in_range "1" "9")].
Definition month : regex := alt [d01_09; seq [ch "1"; Class (in_range "0" "2")]].
Definition day : regex :=
  alt [ d01_09;
        seq [Class (one_of "12"); Class (in_range "0" "9")];
        seq [ch "3"; Class (one_of "01")] ].

Definition date_patterns : list regex :=
  [ (* ^20\d{6}$ *)
    seq [Bos; ch "2"; ch "0"; exactly 6 (Class digit); Eos];
    (* ^\d{8}$ *)
    seq [Bos; exactly 8 (Class digit); Eos];
    (* ^\d{6}$ *)
    seq [Bos; exactly 6 (Class digit); Eos];
    (* ^20\d{2}(0[1-9]|1[0-2])(0[1-9]|[12][0-9]|3[01])$ *)
    seq [Bos; ch "2"; ch "0"; exactly 2 (Class digit); month; day; Eos];
    (* ^(0[1-9]|1[0-2])(0[1-9]|[12][0-9]|3[01])20\d{2}$ *)
    seq [Bos; month; day; ch "2"; ch "0"; exactly 2 (Class digit); Eos];
    (* ^(19|20)\d{2}\d{4}$ *)
    seq [Bos; alt [seq [ch "1"; ch "9"]; seq [ch "2"; ch "0"]];
         exactly 2 (Class digit); exactly 4 (Class digit); Eos] ].

(** [^\d{1,3}(\.\d{1,3}){3}$] *)
Definition ip_pattern : regex :=
  seq [Bos; Rep (Class digit) 1 (Some 3);
       exactly 3 (seq [ch "."; Rep (Class digit) 1 (Some 3)]); Eos].

(** [0(?=1)|1(?=2)|2(?=3)|3(?=4)|4(?=5)|5(?=6)|6(?=7)|7(?=8)|8(?=9)] *)
Definition counting_step : regex :=
  alt [ seq [ch "0"; Ahead (ch "1")]; seq [ch "1"; Ahead (ch "2")];
        seq [ch "2"; Ahead (ch "3")]; seq [ch "3"; Ahead (ch "4")];
        seq [ch "4"; Ahead (ch "5")]; seq [ch "5"; Ahead (ch "6")];
        seq [ch "6"; Ahead (ch "7")]; seq [ch "7"; Ahead (ch "8")];
        seq [ch "8"; Ahead (ch "9")] ].

(** [^(?:0(?=1)|1(?=2)|2(?=3)|3(?=4)|4(?=5)|5(?=6)|6(?=7)|7(?=8)|8(?=9)){5,}\d$] *)
Definition sequential_pattern : regex :=
  seq [Bos; Rep counting_step 5 None; Class digit; Eos].

(** The three-way normalisation at the head of the loop body. *)
Definition clean (phone : str) : str :=
  if startswith (lit "++") phone then "+"%char :: digits_of (drop 2 phone)
  else if startswith (lit "+") phone then "+"%char :: digits_of (drop 1 phone)
  else digits_of phone.

(** The [len(cleaned) == 10] test on plausible Unix timestamps. *)
Definition timestamp_like (cleaned : str) : bool :=
  (length cleaned =? 10) &&
  (startswith (lit "1") cleaned || startswith (lit "2") cleaned) &&
  match int cleaned with
  | Some timestamp => (1000000000 <=? timestamp)%Z && (timestamp <=? 9999999999)%Z
  | None => false
  end.

(** The body of the [for phone in phone_numbers] loop: [None] is a
    [continue] or a failed length test, [Some c] is [filtered_phones.add(c)]. *)
Definition phone_step (phone : str) : option str :=
  let cleaned := clean phone in
  if existsb (fun pattern => re_match pattern cleaned) date_patterns then None
  else if re_match ip_pattern phone then None
  else if re_match sequential_pattern cleaned then None
  else if timestamp_like cleaned then None
  else
    let digits := remove_char "+" cleaned in
    if (8 <=? length digits) && (length digits <=? 15) then Some cleaned
    else None.

Definition filter_phone_numbers (phone_numbers : gset str) : gset str :=
  set_fold (fun phone filtered_phones =>
              match phone_step phone with
              | Some cleaned => {[cleaned]} ∪ filtered_phones
              | None => filtered_phones
              end) ∅ phone_numbers.

(** *** The shapes the filters are meant for

    Written from the wording of the specification, to be compared with the
    patterns above. *)

Definition is_digit (a : ascii) : Prop := digit a = true.
Definition is_hex (a : ascii) : Prop := hex a = true.

(** The 32 hexadecimal digits of an MD5 digest. *)
Definition md5_shaped (l : str) : Prop := length l = 32 /\ Forall is_hex l.

(** The hexadecimal digits of a UUID, in its groups of 8, 4, 4, 4 and 12. *)
Definition uuid_shaped (l : str) : Prop :=
  exists a b c d e,
    l = a ++ b ++ c ++ d ++ e /\
    length a = 8 /\ length b = 4 /\ length c = 4 /\ length d = 4 /\
    length e = 12 /\ Forall is_hex l.

(** At most two distinct characters in more than four. *)
Definition keyboard_smash (l : str) : Prop := distinct l <= 2 /\ 4 < length l.

Definition ends_with_asset_extension (e : str) : Prop :=
  exists ext, ext ∈ excluded_extensions /\ ext `suffix_of` e.








(** Every character is followed by its successor. *)
Fixpoint ascending (s : str) : Prop :=
  match s with
  | a :: (b :: _) as t => nat_of_ascii b = S (nat_of_ascii a) /\ ascending t
  | _ => True
  end.

(** Digits that count up one by one: 012345678, 3456789, ... *)
Definition ascending_run (s : str) : Prop :=
  s <> [] /\ Forall is_digit s /\ ascending s.




End Extractors.


(** ** [src/scraper/utils/robots_parser.py] *)
Module Robots.
Import Py.

Record RobotsRule : Type := { path : str; allow : bool; is_sensitive : bool }.




Section is_allowed.
(** [urlparse(url).path], from the standard library. *)
Variable urlparse_path : str -> str.



End is_allowed.






End Robots.

(** ** [src/scraper/utils/clients.py]: the Shodan batch lookup *)
Module Shodan.

(** The fields of a Shodan host record that [fetch_shodan] reads, and the
    rest of the record. *)
Record host_info : Type := {
  ip_str : str;
  ports : list Z;
  hostnames : list str;
  org : option str;
  isp : option str;
  vulns : list str;
  extra : list (str * str)
}.

(** What [api.host(ip)] does: it returns a record, raises [shodan.APIError]
    or raises something else. *)
Inductive host_outcome : Type :=
| Host (h : host_info)
| APIError (value : str)
| OtherError (msg : str).

(** An entry of [results["data_by_ip"]]: the record, or
    [{"error": ..., "status_code": ...}] ([status_code] is absent after an
    unexpected error). *)
Inductive ip_entry : Type :=
| HostData (h : host_info)
| ErrorEntry (error : str) (status_code : option str).

(** [results["summary"]] while the loop runs: five Python sets. *)
Record summary_sets : Type := {
  set_ports : gset Z;
  set_hostnames : gset str;
  set_organizations : gset str;
  set_isps : gset str;
  set_vulnerabilities : gset str
}.

(** [results["summary"]] as returned: five sorted lists. *)
Record summary : Type := {
  sum_ports : list Z;
  sum_hostnames : list str;
  sum_organizations : list str;
  sum_isps : list str;
  sum_vulnerabilities : list str
}.

Inductive payload : Type :=
| Error (error : str)
| NoAddresses (info : str)
| Results (ips_queried : list str) (data_by_ip : gmap str ip_entry)
    (summ : summary).

(** The order of Python on ASCII strings. *)
Definition str_le (a b : str) : Prop :=
  String.le (string_of_list_ascii a) (string_of_list_ascii b).

#[global] Instance str_le_dec : RelDecision str_le.
Proof. intros a b. unfold str_le. apply _. Defined.

(** [sorted(list(s))] *)
Definition sorted_Z (s : gset Z) : list Z := merge_sort Z.le (elements s).
Definition sorted_str (s : gset str) : list str := merge_sort str_le (elements s).

(** Truth value of [d.get(key)] for a string field. *)
Definition truthy (o : option str) : bool :=
  match o with
  | Some (_ :: _) => true
  | _ => false
  end.

Definition add_if_truthy (o : option str) (s : gset str) : gset str :=
  match o with
  | Some v => if truthy o then {[v]} ∪ s else s
  | None => s
  end.

Definition update_if_nonempty `{Countable A} (l : list A) (s : gset A) : gset A :=
  match l with
  | [] => s
  | _ => list_to_set l ∪ s
  end.

Definition empty_sets : summary_sets :=
  {| set_ports := ∅; set_hostnames := ∅; set_organizations := ∅;
     set_isps := ∅; set_vulnerabilities := ∅ |}.

Definition update_summary (h : host_info) (s : summary_sets) : summary_sets :=
  {| set_ports := update_if_nonempty (ports h) (set_ports s);
     set_hostnames := update_if_nonempty (hostnames h) (set_hostnames s);
     set_organizations := add_if_truthy (org h) (set_organizations s);
     set_isps := add_if_truthy (isp h) (set_isps s);
     set_vulnerabilities := update_if_nonempty (vulns h) (set_vulnerabilities s) |}.

Definition finish (s : summary_sets) : summary :=
  {| sum_ports := sorted_Z (set_ports s);
     sum_hostnames := sorted_str (set_hostnames s);
     sum_organizations := sorted_str (set_organizations s);
     sum_isps := sorted_str (set_isps s);
     sum_vulnerabilities := sorted_str (set_vulnerabilities s) |}.

Section fetch_shodan.
(** [api.host], the query of one address. *)
Variable host : str -> host_outcome.

(** The body of [for ip in ip_addresses], with its two handlers. *)
Definition lookup_ip (st : gmap str ip_entry * summary_sets) (ip : str)
  : gmap str ip_entry * summary_sets :=
  match host ip with
  | Host host_info =>
      (<[ip := HostData host_info]> (fst st), update_summary host_info (snd st))
  | APIError value =>
      (<[ip := ErrorEntry value (Some value)]> (fst st), snd st)
  | OtherError msg =>
      (<[ip := ErrorEntry (lit "Unexpected error: " ++ msg) None]> (fst st), snd st)
  end.

Definition fetch_shodan (ip_addresses : list str) (api_key : option str)
  : payload :=
  if negb (truthy api_key) then Error (lit "API key for Shodan not provided")
  else
    match ip_addresses with
    | [] => NoAddresses (lit "No IP addresses provided")
    | _ =>
        let st := foldl lookup_ip (∅, empty_sets) ip_addresses in
        Results ip_addresses (fst st) (finish (snd st))
    end.

End fetch_shodan.

(** The entry [data_by_ip] holds for an address after its query. *)
Definition entry_of (o : host_outcome) : ip_entry :=
  match o with
  | Host h => HostData h
  | APIError value => ErrorEntry value (Some value)
  | OtherError msg => ErrorEntry (lit "Unexpected error: " ++ msg) None
  end.

(** What a host record adds to the summary. *)
Definition contributes (h : host_info) (s : summary) : Prop :=
  (forall p, p ∈ ports h -> p ∈ sum_ports s) /\
  (forall n, n ∈ hostnames h -> n ∈ sum_hostnames s) /\
  (forall o, org h = Some o -> o <> [] -> o ∈ sum_organizations s) /\
  (forall i, isp h = Some i -> i <> [] -> i ∈ sum_isps s) /\
  (forall v, v ∈ vulns h -> v ∈ sum_vulnerabilities s).

(** The summary sets only grow. *)
Definition sets_le (a b : summary_sets) : Prop :=
  set_ports a ⊆ set_ports b /\ set_hostnames a ⊆ set_hostnames b /\
  set_organizations a ⊆ set_organizations b /\ set_isps a ⊆ set_isps b /\
  set_vulnerabilities a ⊆ set_vulnerabilities b.

(** The batch of the specification's example: one address known to
    Shodan, one refused. *)
Definition sample_host_info : host_info :=
  {| ip_str := lit "1.2.3.4"; ports := [80; 22]%Z;
     hostnames := [lit "b.example"; lit "a.example"];
     org := Some (lit "Example Org"); isp := None; vulns := []; extra := [] |}.

Definition sample_host (ip : str) : host_outcome :=
  if bool_decide (ip = lit "1.2.3.4") then Host sample_host_info
  else APIError (lit "Invalid IP").

End Shodan.


(** ** [src/scraper/fetcher.py] *)
Module Fetcher.

Abbreviation bytes := (list ascii).

Record FetchResponse : Type := {
  status_code : Z;
  content : bytes;
  headers : list (str * str);
  url : str;
  encoding : option str
}.

(** The exceptions a request can end with: the [requests.RequestException]
    family (connection errors, timeouts, ...) and everything else. *)
Inductive exn : Type :=
| RequestException (msg : str)
| OtherException (msg : str).

(** What the fetcher does to the outside world, in order. *)
Inductive event : Type :=
| Request (url : str) (timeout : Z)
| Sleep (seconds : Q).

(** The constructor arguments of [WebFetcher]. *)
Record config : Type := {
  user_agent : str;
  delay_range : Q * Q;
  cache_enabled : bool;
  cache_dir : str
}.

(** [WebFetcher(cache_dir=".osint_cache")] with the default politeness window. *)
Definition default_config (dir : option str) : config :=
  {| user_agent := lit "Browsint/1.0 Research Bot";
     delay_range := (1, 3)%Q;
     cache_enabled := match dir with Some _ => true | None => false end;
     cache_dir := match dir with Some d => d | None => [] end |}.

(** The mutable part: the attribute [last_request_time], the files of the
    cache directory, how many values were taken from the clock, from the
    random generator and from the network, and the events so far. *)
Record state : Type := {
  last_request_time : Q;
  files : gmap str str;
  clock_reads : nat;
  draws : nat;
  requests : nat;
  trace : list event
}.

Definition initial (fs : gmap str str) : state :=
  {| last_request_time := 0; files := fs; clock_reads := 0; draws := 0;
     requests := 0; trace := [] |}.

Section WebFetcher.
(** The environment: successive values of [time.time()], successive values
    of [random.uniform(2, 5)], the outcome of the n-th call of [_safe_get],
    [hashlib.md5(...).hexdigest()] and [bytes.decode(enc, errors='replace')]
    ([None] when it raises). *)
Variable time_time : nat -> Q.
Variable random_uniform_2_5 : nat -> Q.
Variable _safe_get : nat -> str -> Z -> result exn FetchResponse.
Variable md5_hexdigest : str -> str.
Variable decode : bytes -> str -> option str.

Variable self : config.

Definition time_sleep (seconds : Q) (st : state) : state :=
  {| last_request_time := last_request_time st; files := files st;
     clock_reads := clock_reads st; draws := draws st;
     requests := requests st; trace := trace st ++ [Sleep seconds] |}.

Definition _get_cache_path (url : str) : str :=
  cache_dir self ++ lit "/" ++ md5_hexdigest url ++ lit ".html".

Definition _check_cache (url : str) (st : state) : option str :=
  if negb (cache_enabled self) then None
  else files st !! _get_cache_path url.

Definition _save_to_cache (url content : str) (st : state) : bool * state :=
  if negb (cache_enabled self) then (false, st)
  else (true,
        {| last_request_time := last_request_time st;
           files := <[_get_cache_path url := content]> (files st);
           clock_reads := clock_reads st; draws := draws st;
           requests := requests st; trace := trace st |}).

Definition _respect_politeness (st : state) : state :=
  let current_time := time_time (clock_reads st) in
  let elapsed := (current_time - last_request_time st)%Q in
  let min_delay := fst (delay_range self) in
  let st1 :=
    if Qlt_le_dec elapsed min_delay
    then time_sleep (min_delay - elapsed)%Q st
    else st in
  {| last_request_time := time_time (S (clock_reads st));
     files := files st1; clock_reads := S (S (clock_reads st));
     draws := draws st1; requests := requests st1; trace := trace st1 |}.

(** One call of [_safe_get]: the request is logged and the outcome taken. *)
Definition get (url : str) (timeout : Z) (st : state)
  : result exn FetchResponse * state :=
  (_safe_get (requests st) url timeout,
   {| last_request_time := last_request_time st; files := files st;
      clock_reads := clock_reads st; draws := draws st;
      requests := S (requests st);
      trace := trace st ++ [Request url timeout] |}).

(** The backoff [time.sleep(random.uniform(2, 5) * attempt)]. *)
Definition backoff (attempt : Z) (st : state) : state :=
  let sleep_time := (random_uniform_2_5 (draws st) * inject_Z attempt)%Q in
  time_sleep sleep_time
    {| last_request_time := last_request_time st; files := files st;
       clock_reads := clock_reads st; draws := S (draws st);
       requests := requests st; trace := trace st |}.

(** The loop [while attempt < retries]; [fuel] counts the iterations that
    are left, [Z.to_nat (retries - attempt)]. *)
Fixpoint retry_loop (fuel : nat) (url : str) (timeout attempt retries : Z)
    (st : state) {struct fuel} : result exn (option FetchResponse) * state :=
  match fuel with
  | O => (Return None, st)
  | S fuel' =>
      if (attempt <? retries)%Z then
        match get url timeout st with
        | (Return response, st1) => (Return (Some response), st1)
        | (Raise (RequestException _), st1) =>
            let attempt := (attempt + 1)%Z in
            let st2 := if (attempt <? retries)%Z then backoff attempt st1 else st1 in
            retry_loop fuel' url timeout attempt retries st2
        | (Raise e, st1) => (Raise e, st1)
        end
      else (Return None, st)
  end.

Definition fetch_full_response (url : str) (force_download : bool)
    (timeout retries : Z) (st : state)
  : result exn (option FetchResponse) * state :=
  let st := _respect_politeness st in
  retry_loop (Z.to_nat retries) url timeout 0 retries st.

Definition fetch (url : str) (force_download : bool) (timeout retries : Z)
    (st : state) : result exn (option str) * state :=
  match fetch_full_response url force_download timeout retries st with
  | (Raise e, st1) => (Raise e, st1)
  | (Return None, st1) => (Return None, st1)
  | (Return (Some response_obj), st1) =>
      match content response_obj with
      | [] => (Return None, st1)
      | _ =>
          let enc := match encoding response_obj with
                     | Some (c :: e) => c :: e
                     | _ => lit "utf-8"
                     end in
          (Return (decode (content response_obj) enc), st1)
      end
  end.

End WebFetcher.

(** The requests of a trace, and its sleeps. *)
Definition requests_of (t : list event) : list str :=
  omap (fun e => match e with Request u _ => Some u | Sleep _ => None end) t.

Definition sleeps_of (t : list event) : list Q :=
  omap (fun e => match e with Sleep s => Some s | Request _ _ => None end) t.

(** The events of [n] attempts that all fail, the first of them numbered
    [attempt + 1]: a request each and, between two requests, a sleep of the
    next random value times the number of the attempt that just failed. *)
Fixpoint failed_attempts (uniform : nat -> Q) (url : str) (timeout : Z)
    (n : nat) (attempt : Z) (draw : nat) {struct n} : list event :=
  match n with
  | O => []
  | S n' =>
      Request url timeout ::
        match n' with
        | O => []
        | S _ =>
            Sleep (uniform draw * inject_Z (attempt + 1))%Q ::
              failed_attempts uniform url timeout n' (attempt + 1)%Z (S draw)
        end
  end.

(** A page as the network serves it, and a fetcher whose cache directory
    already holds a copy of the page. *)
Definition sample_url : str := lit "https://site.org/".

Definition sample_response : FetchResponse :=
  {| status_code := 200; content := lit "fresh page"; headers := [];
     url := sample_url; encoding := None |}.

Definition sample_config : config := default_config (Some (lit ".osint_cache")).

Definition utf8 (b : bytes) (enc : str) : option str := Some b.

End Fetcher.

(** ** [src/scraper/extractors/osint_extractor.py]: the profile store *)
Module Osint.

(** A row of [entities] and a row of [osint_profiles]; [None] is SQL NULL. *)
Record entity : Type := {
  id : Z;
  type : str;
  name : str;
  domain : option str
}.

Record profile : Type := {
  entity_id : Z;
  source : str;
  raw_data : str;
  extracted_fields : str;
  updated_at : option Z
}.

(** The two tables, rows in rowid order. *)
Record db : Type := {
  entities : list entity;
  osint_profiles : list profile
}.

Definition empty_db : db := {| entities := []; osint_profiles := [] |}.

Inductive exn : Type := ValueError (msg : str).

(** Modelled from the spec: the schema module [db/schema.py] is not among
    the sources; the spec gives [entities] as unique on (name, kind, domain).
    Under a UNIQUE constraint SQLite takes two rows to collide when all the
    listed columns are equal and none of them is NULL: NULL is distinct from
    every value, NULL included. *)
Definition collides (a b : entity) : bool :=
  bool_decide (name a = name b) && bool_decide (type a = type b) &&
  match domain a, domain b with
  | Some x, Some y => bool_decide (x = y)
  | _, _ => false
  end.

(** The rowid SQLite gives to a new row: one more than the largest in use. *)
Definition next_id (t : list entity) : Z :=
  1 + foldr (fun r m => Z.max (id r) m) 0%Z t.

(** [INSERT OR IGNORE INTO entities (type, name, domain) VALUES (?, ?, ?)]:
    the new table, [cursor.rowcount] and [cursor.lastrowid]. *)
Definition insert_or_ignore (ty nm : str) (dom : option str) (t : list entity)
  : list entity * Z * option Z :=
  let row := {| id := next_id t; type := ty; name := nm; domain := dom |} in
  if existsb (collides row) t then (t, 0%Z, None)
  else (t ++ [row], 1%Z, Some (id row)).

(** [cursor.fetchone()] after a [SELECT id FROM entities WHERE ...]. *)
Definition select_id (cond : entity -> bool) (t : list entity) : option Z :=
  id <$> List.find cond t.

Definition nonempty (s : option str) : bool :=
  match s with
  | Some (_ :: _) => true
  | _ => false
  end.

(** A transaction commits the tables on return and restores them when the
    body raises. *)
Definition _get_or_create_entity (identifier entity_type : str) (d : db)
  : result exn Z * db :=
  let db_entity_type :=
    if bool_decide (entity_type = lit "domain") then lit "company" else lit "person" in
  let domain_value :=
    if bool_decide (entity_type = lit "domain") then Some identifier else None in
  let '(t, rowcount, lastrowid) :=
    insert_or_ignore db_entity_type identifier domain_value (entities d) in
  let committed := {| entities := t; osint_profiles := osint_profiles d |} in
  if (0 <? rowcount)%Z then
    match lastrowid with
    | None => (Raise (ValueError (lit "Failed to get lastrowid for new entity")), d)
    | Some entity_id => (Return entity_id, committed)
    end
  else
    let result :=
      if bool_decide (db_entity_type = lit "company") && nonempty domain_value then
        select_id (fun r => bool_decide (name r = identifier) &&
                            bool_decide (type r = db_entity_type) &&
                            bool_decide (domain r = domain_value)) t
      else if bool_decide (db_entity_type = lit "person") &&
              bool_decide (domain_value = None) then
        select_id (fun r => bool_decide (name r = identifier) &&
                            bool_decide (type r = db_entity_type) &&
                            bool_decide (domain r = None)) t
      else
        select_id (fun r => bool_decide (name r = identifier) &&
                            bool_decide (type r = db_entity_type)) t in
    match result with
    | None => (Raise (ValueError (lit "Entity exists (was ignored) but its ID could not be retrieved.")), d)
    | Some entity_id => (Return entity_id, committed)
    end.

Section _save_osint_profile.
(** The collected data: a JSON-serialisable [dict].  [not data],
    [json.dumps(standardize_for_json(data))] and
    [json.dumps(extract_structured_fields(data, source))]. *)
Variable data_t : Type.
Variable is_empty : data_t -> bool.
Variable dumps_standardized : data_t -> str.
Variable dumps_structured : data_t -> str -> str.

(** Modelled from the spec: the column default of [updated_at] belongs to
    the absent schema module; it is a function of the statement's
    CURRENT_TIMESTAMP. *)
Variable updated_at_default : Z -> option Z.

Definition same_key (eid : Z) (src : str) (r : profile) : bool :=
  bool_decide (entity_id r = eid) && bool_decide (source r = src).

(** [INSERT INTO osint_profiles ... ON CONFLICT(entity_id, source) DO UPDATE
    SET raw_data=excluded.raw_data, extracted_fields=excluded.extracted_fields,
    updated_at=CURRENT_TIMESTAMP], run at time [now]. *)
Definition upsert (eid : Z) (src raw fields : str) (now : Z) (t : list profile)
  : list profile :=
  if existsb (same_key eid src) t then
    map (fun r =>
           if same_key eid src r then
             {| entity_id := entity_id r; source := source r; raw_data := raw;
                extracted_fields := fields; updated_at := Some now |}
           else r) t
  else
    t ++ [ {| entity_id := eid; source := src; raw_data := raw;
              extracted_fields := fields;
              updated_at := updated_at_default now |} ].

Definition _save_osint_profile (entity_id0 : Z) (source0 : str) (data : data_t)
    (now : Z) (d : db) : db :=
  if is_empty data then d
  else
    let data_standardized := dumps_standardized data in
    let structured_fields := dumps_structured data source0 in
    {| entities := entities d;
       osint_profiles :=
         upsert entity_id0 source0 data_standardized structured_fields now
           (osint_profiles d) |}.

(** A history of calls of [_save_osint_profile]. *)
Record save : Type := {
  save_entity : Z;
  save_source : str;
  save_data : data_t;
  save_time : Z
}.

Definition run_saves (history : list save) (d : db) : db :=
  foldl (fun d s =>
           _save_osint_profile (save_entity s) (save_source s)
             (save_data s) (save_time s) d) d history.

(** The rows of [osint_profiles] kept for one (entity, source) pair. *)
Definition rows_for (eid : Z) (src : str) (d : db) : list profile :=
  List.filter (same_key eid src) (osint_profiles d).

End _save_osint_profile.


(** The lookup key of a company row, as the SELECT after an ignored insert
    spells it. *)
Definition company_row (identifier : str) (r : entity) : bool :=
  bool_decide (name r = identifier) && bool_decide (type r = lit "company") &&
  bool_decide (domain r = Some identifier).

(** Collected data as a list of fields, with a flat rendering in place of
    JSON. *)
Definition sample_is_empty (data : list (str * str)) : bool :=
  match data with
  | [] => true
  | _ => false
  end.

Definition sample_dumps (data : list (str * str)) : str :=
  concat (map (fun kv => fst kv ++ lit "=" ++ snd kv ++ lit ";") data).

Definition sample_structured (data : list (str * str)) (source0 : str) : str :=
  source0 ++ lit ":" ++ concat (map fst data).

Definition sample_save (data : list (str * str)) (now : Z) : save (list (str * str)) :=
  {| save_entity := 1; save_source := lit "domain"; save_data := data;
     save_time := now |}.

End Osint.


(** ** Inputs and shapes used to state further properties *)
Module FetcherSamples.
Import Fetcher.

(** A network that times out twice and then answers. *)
Definition answers_third (n : nat) (u : str) (t : Z)
  : result exn FetchResponse :=
  if n <? 2 then Raise (RequestException (lit "timed out"))
  else Return sample_response.

(** A stand-in for the digest of a URL. *)
Definition sample_digest (url : str) : str := take 4 (reverse url).

End FetcherSamples.

Module ShodanSpec.
Import Shodan.

(** Every member of the summary was reported for an address of [ips]
    that Shodan answered. *)
Definition only_from (host : str -> host_outcome) (ips : list str)
    (s : summary) : Prop :=
  (forall p, p ∈ sum_ports s ->
     exists ip h, ip ∈ ips /\ host ip = Host h /\ p ∈ ports h) /\
  (forall n, n ∈ sum_hostnames s ->
     exists ip h, ip ∈ ips /\ host ip = Host h /\ n ∈ hostnames h) /\
  (forall o, o ∈ sum_organizations s ->
     exists ip h, ip ∈ ips /\ host ip = Host h /\ org h = Some o) /\
  (forall i, i ∈ sum_isps s ->
     exists ip h, ip ∈ ips /\ host ip = Host h /\ isp h = Some i) /\
  (forall v, v ∈ sum_vulnerabilities s ->
     exists ip h, ip ∈ ips /\ host ip = Host h /\ v ∈ vulns h).

(** The same on the sets of the running summary. *)
Definition from_hosts (host : str -> host_outcome) (ips : list str)
    (s : summary_sets) : Prop :=
  (forall p, p ∈ set_ports s ->
     exists ip h, ip ∈ ips /\ host ip = Host h /\ p ∈ ports h) /\
  (forall n, n ∈ set_hostnames s ->
     exists ip h, ip ∈ ips /\ host ip = Host h /\ n ∈ hostnames h) /\
  (forall o, o ∈ set_organizations s ->
     exists ip h, ip ∈ ips /\ host ip = Host h /\ org h = Some o) /\
  (forall i, i ∈ set_isps s ->
     exists ip h, ip ∈ ips /\ host ip = Host h /\ isp h = Some i) /\
  (forall v, v ∈ set_vulnerabilities s ->
     exists ip h, ip ∈ ips /\ host ip = Host h /\ v ∈ vulns h).

(** A list in ascending order that names nothing twice. *)
Definition increasing `(R : relation A) (l : list A) : Prop :=
  StronglySorted R l /\ NoDup l.

End ShodanSpec.

Module OsintSpec.
Import Osint.

(** The [type] column [_get_or_create_entity] stores for an [entity_type]. *)
Definition db_entity_type (entity_type : str) : str :=
  if bool_decide (entity_type = lit "domain") then lit "company" else lit "person".

(** A store that already knows two domains. *)
Definition sample_db : db :=
  {| entities :=
       [ {| id := 1; type := lit "company"; name := lit "example.com";
            domain := Some (lit "example.com") |};
         {| id := 4; type := lit "company"; name := lit "acme.test";
            domain := Some (lit "acme.test") |} ];
     osint_profiles :=
       [ {| entity_id := 1; source := lit "domain"; raw_data := lit "{}";
            extracted_fields := lit "{}"; updated_at := Some 5%Z |} ] |}.

End OsintSpec.


(** ** More Python string methods *)
Module Str.
Import Re Py.

(** [s.endswith(suf)] *)
Definition endswith (suf s : str) : bool := bool_decide (suf `suffix_of` s).

(** The text before and after the first occurrence of [sep] in [s]. *)
Fixpoint cut (sep s : str) : option (str * str) :=
  if startswith sep s then Some ([], drop (length sep) s)
  else
    match s with
    | [] => None
    | a :: s' =>
        match cut sep s' with
        | Some (l, r) => Some (a :: l, r)
        | None => None
        end
    end.

(** [s.split(sep, 1)] for a non-empty [sep]. *)
Definition split1 (sep s : str) : list str :=
  match cut sep s with
  | Some (l, r) => [l; r]
  | None => [s]
  end.

(** [s.replace(old, new)] for a non-empty [old]: the occurrences are taken
    from left to right and do not overlap; [skip] counts the characters of
    an occurrence that are still to be passed. *)
Fixpoint replace_from (old new : str) (skip : nat) (s : str) : str :=
  match s with
  | [] => []
  | a :: rest =>
      match skip with
      | S k => replace_from old new k rest
      | O =>
          if startswith old s
          then new ++ replace_from old new (length old - 1) rest
          else a :: replace_from old new 0 rest
      end
  end.

Definition replace (old new s : str) : str := replace_from old new 0 s.

(** [str.isspace] on an ASCII character: tab, line feed, vertical tab, form
    feed, carriage return, the four separators 0x1c to 0x1f and the space. *)
Definition isspace (a : ascii) : bool :=
  let n := nat_of_ascii a in
  ((9 <=? n) && (n <=? 13)) || ((28 <=? n) && (n <=? 32)).

(** [s.lstrip()], [s.rstrip()], [s.strip()] *)
Fixpoint lstrip (s : str) : str :=
  match s with
  | a :: s' => if isspace a then lstrip s' else s
  | [] => []
  end.

Definition rstrip (s : str) : str := reverse (lstrip (reverse s)).

Definition strip (s : str) : str := rstrip (lstrip s).

(** The line boundaries of [str.splitlines] on ASCII text: line feed,
    vertical tab, form feed, carriage return and the separators 0x1c to
    0x1e; a carriage return and the line feed after it are one boundary. *)
Definition linebreak (a : ascii) : bool :=
  let n := nat_of_ascii a in
  ((10 <=? n) && (n <=? 13)) || ((28 <=? n) && (n <=? 30)).

Definition carriage_return : ascii := "013"%char.

(** [s.splitlines()]: [cur] is the line read so far, [after_cr] says that
    the last character was a carriage return. *)
Fixpoint lines_from (cur : str) (after_cr : bool) (s : str) : list str :=
  match s with
  | [] => match cur with [] => [] | _ => [cur] end
  | a :: rest =>
      if after_cr && bool_decide (a = newline) then lines_from cur false rest
      else if linebreak a
      then cur :: lines_from [] (bool_decide (a = carriage_return)) rest
      else lines_from (cur ++ [a]) false rest
  end.

Definition splitlines (s : str) : list str := lines_from [] false s.

End Str.


(** ** [src/scraper/utils/extractors.py]: [filter_emails] *)
Module FilterEmails.
Import Re Py Extractors Str.

Definition service_domains : list str :=
  map lit [ "sentry.io"; "sentry.wixpress.com"; "sentry-next.wixpress.com";
            "contactprivacy.com"; "whois.tucows.com"; "domainsbyproxy.com";
            "secureserver.net"; "hostmaster.sk"; "nic.it" ]%string.

(** [[0-9a-f]] under [re.IGNORECASE]. *)
Definition hex_i (a : ascii) : bool := hex a || in_range "A" "F" a.

(** [-?] *)
Definition opt_hyphen : regex := Rep (ch "-") 0 (Some 1).

(** [^[0-9a-f]{8}-?[0-9a-f]{4}-?[0-9a-f]{4}-?[0-9a-f]{4}-?[0-9a-f]{12}$] *)
Definition uuid_pattern : regex :=
  seq [ Bos; exactly 8 (Class hex_i); opt_hyphen; exactly 4 (Class hex_i);
        opt_hyphen; exactly 4 (Class hex_i); opt_hyphen;
        exactly 4 (Class hex_i); opt_hyphen; exactly 12 (Class hex_i); Eos ].

(** [^[0-9a-f]{12,64}$] *)
Definition long_hex_pattern : regex :=
  seq [Bos; Rep (Class hex_i) 12 (Some 64); Eos].

Definition meaningful_terms : list str :=
  map lit [ "info"; "contact"; "support"; "hello"; "sales"; "admin";
            "contatti"; "assistenza"; "ufficio"; "office"; "segreteria";
            "privacy"; "legal"; "team"; "staff"; "help"; "customer";
            "clienti"; "richieste"; "richiesta"; "richieste generali";
            "partnerships"; "marketing" ]%string.

(** The body of [for email in emails]: [true] when the loop reaches one of
    its two [filtered_emails.add(email)].  An unpacking that fails raises
    inside the [try] and the address is skipped. *)
Definition email_kept (normalized_domain normalized_mail_domain
    normalized_domain_no_www : str) (keep_service_emails : bool)
    (email : str) : bool :=
  if negb (contains (lit "@") email) then false
  else
    match split1 (lit "@") email with
    | [local_part; email_domain] =>
        let local_part := lower local_part in
        let email_domain := lower email_domain in
        if bool_decide (email_domain ∈ service_domains) &&
           negb keep_service_emails
        then false
        else if re_match uuid_pattern local_part ||
                re_match long_hex_pattern local_part
        then false
        else if bool_decide (email_domain = normalized_domain) ||
                bool_decide (email_domain = normalized_mail_domain) ||
                bool_decide (email_domain = normalized_domain_no_www)
        then true
        else if existsb (fun term => contains term local_part) meaningful_terms
        then true
        else false
    | _ => false
    end.

Definition filter_emails (emails : gset str) (domain : str)
    (keep_service_emails : bool) : gset str :=
  let normalized_domain := lower domain in
  let normalized_mail_domain := lit "mail." ++ normalized_domain in
  let normalized_domain_no_www := replace (lit "www.") [] normalized_domain in
  set_fold (fun email filtered_emails =>
              if email_kept normalized_domain normalized_mail_domain
                   normalized_domain_no_www keep_service_emails email
              then {[email]} ∪ filtered_emails
              else filtered_emails) ∅ emails.

(** *** The shapes and rules the filter is meant for *)

(** [sub] occurs in [s]. *)
Definition substring (sub s : str) : Prop := exists pre post, s = pre ++ sub ++ post.

(** The three domains taken for the target's own. *)
Definition target_domains (domain : str) : list str :=
  [ lower domain; lit "mail." ++ lower domain;
    replace (lit "www.") [] (lower domain) ].

(** The inclusion rule: the address is at a domain of the target, or its
    local part holds a meaningful term. *)
Definition included (domain local_part email_domain : str) : Prop :=
  lower email_domain ∈ target_domains domain \/
  exists term, term ∈ meaningful_terms /\ substring term (lower local_part).

(** 12 to 64 hexadecimal digits of either case. *)
Definition long_hex (l : str) : Prop :=
  Forall (fun a => hex_i a = true) l /\ 12 <= length l <= 64.

(** Nothing or one hyphen. *)
Definition hyphen_or_nothing (h : str) : Prop := h = [] \/ h = lit "-".

(** A UUID in hexadecimal digits of either case, each of its four hyphens
    present or left out. *)
Definition uuid_like (l : str) : Prop :=
  exists a h1 b h2 c h3 d h4 e,
    l = a ++ h1 ++ b ++ h2 ++ c ++ h3 ++ d ++ h4 ++ e /\
    length a = 8 /\ length b = 4 /\ length c = 4 /\ length d = 4 /\
    length e = 12 /\
    Forall (fun x => hex_i x = true) (a ++ b ++ c ++ d ++ e) /\
    hyphen_or_nothing h1 /\ hyphen_or_nothing h2 /\
    hyphen_or_nothing h3 /\ hyphen_or_nothing h4.

(** The characters a pattern can consume all satisfy [ok]. *)
Fixpoint consumes_only (ok : ascii -> bool) (r : regex) : Prop :=
  match r with
  | Class c => forall a, c a = true -> ok a = true
  | Cat r1 r2 | Alt r1 r2 => consumes_only ok r1 /\ consumes_only ok r2
  | Rep r _ _ => consumes_only ok r
  | Empty | Bos | Eos | WordB | Ahead _ => True
  end.

End FilterEmails.


(** ** [src/scraper/utils/robots_parser.py]: [RobotsParser.parse] *)
Module RobotsParser.
Import Re Py Extractors Str Robots.

(** [pattern.search(s)]: the match is tried at every position, from the
    left. *)
Fixpoint search_at (r : regex) (bef aft : str) : bool :=
  match run r (Pos bef aft) Some with
  | Some _ => true
  | None =>
      match aft with
      | [] => false
      | a :: rest => search_at r (a :: bef) rest
      end
  end.

Definition re_search (r : regex) (s : str) : bool := search_at r [] s.

(** A character of a pattern compiled with [re.IGNORECASE]. *)
Definition ci (c : ascii) : regex :=
  Class (fun a => bool_decide (lower_char a = lower_char c)).

(** A literal fragment under [re.IGNORECASE]. *)
Definition word_i (w : string) : regex := seq (map ci (lit w)).

(** [.]: any character but a line feed. *)
Definition dot : regex := Class (fun a => negb (bool_decide (a = newline))).

Definition SENSITIVE_PATTERNS : list regex :=
  [ word_i "admin"; word_i "backup"; word_i "staging"; word_i "dev";
    word_i "test"; word_i "beta"; word_i "wp-admin"; word_i "administrator";
    word_i "login"; word_i "user"; word_i "console"; word_i "dashboard";
    word_i "private"; word_i "secret"; word_i "internal"; word_i "config";
    word_i "setup"; word_i "install"; word_i "phpmy"; word_i "sql";
    word_i "database"; word_i "db"; word_i "temp"; word_i "tmp";
    word_i "old"; word_i "bak";
    Cat dot (word_i "git"); Cat dot (word_i "svn"); Cat dot (word_i "env");
    word_i "api/internal"; word_i "api/private";
    (* api/v\d+/admin *)
    Cat (word_i "api/v") (Cat (Rep (Class digit) 1 None) (word_i "/admin")) ].

Definition _is_sensitive_path (path0 : str) : bool :=
  existsb (fun pattern => re_search pattern path0) SENSITIVE_PATTERNS.

Inductive exn : Type := IndexError | ValueError.

Section parse.
(** The floating-point numbers with [float(s)] ([None] is its ValueError)
    and the default [0.0]; [urljoin(base, url)] of the standard library
    ([None] when it raises ValueError, as on a network location with an
    unmatched bracket). *)
Variable float_t : Type.
Variable float : str -> option float_t.
Variable zero : float_t.
Variable urljoin : str -> str -> option str.

Record RobotsData : Type := {
  rules : list RobotsRule;
  sitemaps : list str;
  sensitive_paths : gset str;
  crawl_delay : float_t
}.

(** The local variables of [parse]. *)
Record state : Type := {
  data : RobotsData;
  current_agent : str;
  in_relevant_agent : bool
}.

Definition initial : state :=
  {| data := {| rules := []; sitemaps := []; sensitive_paths := ∅;
                crawl_delay := zero |};
     current_agent := lit "*"; in_relevant_agent := false |}.

(** [line.split(':', 1)[1].strip()] *)
Definition field (line : str) : result exn str :=
  match split1 (lit ":") line !! 1%nat with
  | Some v => Return (strip v)
  | None => Raise IndexError
  end.

(** The two branches that append a rule. *)
Definition add_rule (allow0 : bool) (base_url line : str) (st : state)
  : result exn state :=
  match field line with
  | Raise e => Raise e
  | Return path0 =>
      match urljoin base_url path0 with
      | None => Raise ValueError
      | Some full_path =>
          let rule := {| path := path0; allow := allow0;
                         is_sensitive := _is_sensitive_path path0 |} in
          Return
            {| data :=
                 {| rules := rules (data st) ++ [rule];
                    sitemaps := sitemaps (data st);
                    sensitive_paths :=
                      if is_sensitive rule
                      then {[path0]} ∪ sensitive_paths (data st)
                      else sensitive_paths (data st);
                    crawl_delay := crawl_delay (data st) |};
               current_agent := current_agent st;
               in_relevant_agent := in_relevant_agent st |}
      end
  end.

(** The body of [for line in robots_content.splitlines()]. *)
Definition step (base_url : str) (st : state) (line0 : str)
  : result exn state :=
  let line := lower (strip line0) in
  if bool_decide (line = []) || startswith (lit "#") line then Return st
  else if startswith (lit "user-agent:") line then
    match field line with
    | Raise e => Raise e
    | Return agent =>
        Return {| data := data st; current_agent := agent;
                  in_relevant_agent := bool_decide (agent = lit "*") |}
    end
  else if negb (bool_decide (current_agent st = lit "*")) &&
          negb (in_relevant_agent st)
  then Return st
  else if startswith (lit "allow:") line then add_rule true base_url line st
  else if startswith (lit "disallow:") line then add_rule false base_url line st
  else if startswith (lit "sitemap:") line then
    match field line with
    | Raise e => Raise e
    | Return sitemap =>
        Return
          {| data :=
               {| rules := rules (data st);
                  sitemaps := sitemaps (data st) ++ [sitemap];
                  sensitive_paths := sensitive_paths (data st);
                  crawl_delay := crawl_delay (data st) |};
             current_agent := current_agent st;
             in_relevant_agent := in_relevant_agent st |}
    end
  else if startswith (lit "crawl-delay:") line then
    match field line with
    | Raise e => Raise e
    | Return v =>
        match float v with
        | Some f =>
            Return
              {| data :=
                   {| rules := rules (data st);
                      sitemaps := sitemaps (data st);
                      sensitive_paths := sensitive_paths (data st);
                      crawl_delay := f |};
                 current_agent := current_agent st;
                 in_relevant_agent := in_relevant_agent st |}
        | None => Return st
        end
    end
  else Return st.

Fixpoint loop (base_url : str) (st : state) (lines : list str)
  : result exn state :=
  match lines with
  | [] => Return st
  | line :: rest =>
      match step base_url st line with
      | Raise e => Raise e
      | Return st' => loop base_url st' rest
      end
  end.

(** [parse] on the lines of the file. *)
Definition parse_lines (lines : list str) (base_url : str)
  : result exn RobotsData :=
  match loop base_url initial lines with
  | Raise e => Raise e
  | Return st => Return (data st)
  end.

Definition parse (robots_content base_url : str) : result exn RobotsData :=
  parse_lines (splitlines robots_content) base_url.

End parse.

Arguments rules {float_t} _.
Arguments sitemaps {float_t} _.
Arguments sensitive_paths {float_t} _.
Arguments crawl_delay {float_t} _.
Arguments data {float_t} _.
Arguments current_agent {float_t} _.
Arguments in_relevant_agent {float_t} _.

(** *** Shapes for the properties of the parser *)

(** The fragments of [SENSITIVE_PATTERNS] that are plain text, and those
    written after an unescaped dot. *)
Definition plain_fragments : list str :=
  map lit [ "admin"; "backup"; "staging"; "dev"; "test"; "beta"; "wp-admin";
            "administrator"; "login"; "user"; "console"; "dashboard";
            "private"; "secret"; "internal"; "config"; "setup"; "install";
            "phpmy"; "sql"; "database"; "db"; "temp"; "tmp"; "old"; "bak";
            "api/internal"; "api/private" ]%string.

Definition dotted_fragments : list str := map lit ["git"; "svn"; "env"]%string.

(** The line opens a [User-agent] block. *)
Definition user_agent_line (line0 : str) : bool :=
  startswith (lit "user-agent:") (lower (strip line0)).

(** The agent a [User-agent] line names. *)
Definition agent_of (line0 : str) : option str :=
  match field (lower (strip line0)) with
  | Return agent => Some agent
  | Raise _ => None
  end.

(** What the fields of a parsed file have to do with each other: the flag
    of a rule is the verdict of [_is_sensitive_path] on its path, the set of
    sensitive paths holds the paths of the flagged rules, and paths and
    sitemap URLs are in lower case. *)
Definition consistent {float_t : Type} (d : RobotsData float_t) : Prop :=
  (forall r, r ∈ rules d ->
     is_sensitive r = _is_sensitive_path (path r) /\ lower (path r) = path r) /\
  (forall p, p ∈ sensitive_paths d <->
     exists r, r ∈ rules d /\ path r = p /\ is_sensitive r = true) /\
  (forall s, s ∈ sitemaps d -> lower s = s).

(** A file with the given lines. *)
Definition unlines (ls : list string) : str :=
  foldr (fun l acc => lit l ++ newline :: acc) [] ls.

(** A stand-in for [urljoin] that never raises, and one for [float]. *)
Definition sample_urljoin (base url : str) : option str := Some (base ++ url).

Definition sample_float (s : str) : option Z := Py.int s.

End RobotsParser.


(** ** [src/scraper/extractors/osint_extractor.py]: contacts *)
Module Contacts.
Import Re Py Extractors Str.

(** The collected data: what [json.loads] and the source adapters build.
    Keys are strings; [VOther] stands for numbers, booleans and None. *)
#[warnings="-register-all"] Inductive value : Type :=
| VStr (s : str)
| VDict (items : list (str * value))
| VList (items : list value)
| VOther.

(** A row of [contacts]: the columns [_extract_and_save_contacts] writes;
    [None] is SQL NULL.  Modelled from the spec: the table is declared in
    the absent schema module, without a uniqueness constraint. *)
Record contact : Type := {
  contact_entity_id : Z;
  email : option str;
  phone : option str;
  contact_source : str
}.

Inductive contact_type : Type := Email | Phone.

Definition email_exclude_extensions : list str :=
  map lit [ ".png"; ".jpg"; ".gif"; ".jpeg"; ".webp"; ".svg"; ".css"; ".js" ]%string.

(** [emails_found.update(extract_emails(v))] inside its two nested
    [try] blocks: a second failure is passed over. *)
Definition emails_in (v : str) : gset str :=
  match extract_emails v with
  | Return s => s
  | Raise _ =>
      match extract_emails v with
      | Return s => s
      | Raise _ => ∅
      end
  end.

Section contacts.
(** [extract_phone_numbers], which wraps the phonenumbers library and
    returns a set for every text. *)
Variable extract_phone_numbers : str -> gset str.

(** What the visitor does with a string: [key] is the key it sits under
    when it is a value of a dictionary. *)
Definition visit (key : option str) (v : str) (found : gset str * gset str)
  : gset str * gset str :=
  let emails_found :=
    match key with
    | Some k =>
        if contains (lit "email") (lower k) && contains (lit "@") v
        then {[lower v]} ∪ fst found
        else fst found
    | None => fst found
    end in
  (emails_in v ∪ emails_found, extract_phone_numbers v ∪ snd found).

(** [find_contacts_recursive], with the two sets it fills passed along. *)
Fixpoint find_contacts_recursive (item : value)
    (found : gset str * gset str) {struct item} : gset str * gset str :=
  match item with
  | VDict items =>
      (fix items_loop (items : list (str * value)) found :=
         match items with
         | [] => found
         | (k, v) :: rest =>
             items_loop rest
               match v with
               | VStr s => visit (Some k) s found
               | _ => find_contacts_recursive v found
               end
         end) items found
  | VList items =>
      (fix list_loop (items : list value) found :=
         match items with
         | [] => found
         | i :: rest => list_loop rest (find_contacts_recursive i found)
         end) items found
  | VStr s => visit None s found
  | VOther => found
  end.

(** [contacts_to_save], the sets read in the order of their elements. *)
Definition contacts_to_save (emails_found cleaned_phones : gset str)
    (source : str) : list (contact_type * str * str) :=
  map (fun e => (Email, lower e, source))
    (List.filter
       (fun e => negb (existsb (fun ext => endswith ext (lower e))
                         email_exclude_extensions))
       (elements emails_found))
  ++ map (fun p => (Phone, p, source)) (elements cleaned_phones).

(** [SELECT id FROM contacts WHERE entity_id=? AND email IS NOT NULL AND
    email=?], and the same for [phone]. *)
Definition has_email (entity_id : Z) (value0 : str) (r : contact) : bool :=
  bool_decide (contact_entity_id r = entity_id) &&
  bool_decide (email r = Some value0).

Definition has_phone (entity_id : Z) (value0 : str) (r : contact) : bool :=
  bool_decide (contact_entity_id r = entity_id) &&
  bool_decide (phone r = Some value0).

(** The body of the loop inside the transaction. *)
Definition save_contact (entity_id : Z) (t : list contact)
    (c : contact_type * str * str) : list contact :=
  let '(ty, value0, src) := c in
  match value0 with
  | [] => t
  | _ =>
      match ty with
      | Email =>
          if existsb (has_email entity_id value0) t then t
          else t ++ [ {| contact_entity_id := entity_id; email := Some value0;
                         phone := None; contact_source := src |} ]
      | Phone =>
          if existsb (has_phone entity_id value0) t then t
          else t ++ [ {| contact_entity_id := entity_id; email := None;
                         phone := Some value0; contact_source := src |} ]
      end
  end.

Definition _extract_and_save_contacts (entity_id : Z)
    (data : list (str * value)) (source : str) (t : list contact)
  : list contact :=
  match data with
  | [] => t
  | _ =>
      let found := find_contacts_recursive (VDict data) (∅, ∅) in
      let cleaned_phones := filter_phone_numbers (snd found) in
      foldl (save_contact entity_id) t
        (contacts_to_save (fst found) cleaned_phones source)
  end.

End contacts.

(** *** Shapes for the properties of the contact store *)

(** The strings of a payload the visitor reads, each with the key it sits
    under when it is a value of a dictionary. *)
Fixpoint strings_of (item : value) : list (option str * str) :=
  match item with
  | VDict items =>
      flat_map (fun kv =>
                  match snd kv with
                  | VStr s => [(Some (fst kv), s)]
                  | _ => strings_of (snd kv)
                  end) items
  | VList items => flat_map strings_of items
  | VStr s => [(None, s)]
  | VOther => []
  end.

(** The explicit email-looking fields: the value of a key that holds
    "email", when it has an at sign. *)
Definition email_field (key : option str) (v : str) : bool :=
  match key with
  | Some k => contains (lit "email") (lower k) && contains (lit "@") v
  | None => false
  end.

(** An induction principle that reaches the values inside dictionaries and
    lists. *)
Section value_induction.
Variable P : value -> Prop.
Hypothesis HStr : forall s, P (VStr s).
Hypothesis HDict : forall items, Forall (fun kv => P (snd kv)) items -> P (VDict items).
Hypothesis HList : forall items, Forall P items -> P (VList items).
Hypothesis HOther : P VOther.

Fixpoint value_induction (v : value) : P v :=
  match v with
  | VStr s => HStr s
  | VDict items =>
      HDict items
        ((fix go (l : list (str * value)) : Forall (fun kv => P (snd kv)) l :=
            match l with
            | [] => List.Forall_nil _
            | kv :: l' => List.Forall_cons _ _ _ (value_induction (snd kv)) (go l')
            end) items)
  | VList items =>
      HList items
        ((fix go (l : list value) : Forall P l :=
            match l with
            | [] => List.Forall_nil _
            | x :: l' => List.Forall_cons _ _ _ (value_induction x) (go l')
            end) items)
  | VOther => HOther
  end.

End value_induction.

(** The email values and the phone values the table holds for an entity. *)
Definition emails_for (entity_id : Z) (t : list contact) : list str :=
  omap (fun r => if bool_decide (contact_entity_id r = entity_id)
                 then email r else None) t.

Definition phones_for (entity_id : Z) (t : list contact) : list str :=
  omap (fun r => if bool_decide (contact_entity_id r = entity_id)
                 then phone r else None) t.

(** No email and no phone number twice for one entity. *)
Definition deduplicated (t : list contact) : Prop :=
  forall entity_id, NoDup (emails_for entity_id t) /\ NoDup (phones_for entity_id t).

(** The address ends in one of the excluded extensions. *)
Definition asset_like (e : str) : Prop :=
  Exists (fun ext => ext `suffix_of` e) email_exclude_extensions.

(** The string [s] of the payload gives the address [e]: the central
    extractor finds it there, or [s] is an explicit email field and [e] is
    [s] in lower case. *)
Definition gives_email (data : list (str * value)) (e : str) : Prop :=
  exists key s, (key, s) ∈ strings_of (VDict data) /\
    (e ∈ emails_in s \/ (email_field key s = true /\ e = lower s)).




(** The value of a contact is in the table for the entity, or is empty. *)
Definition present (entity_id : Z) (t : list contact)
    (c : contact_type * str * str) : Prop :=
  let '(ty, v, _) := c in
  match v with
  | [] => True
  | _ =>
      match ty with
      | Email => existsb (has_email entity_id v) t = true
      | Phone => existsb (has_phone entity_id v) t = true
      end
  end.

(** A payload with a contact page and a stand-in for the phone extractor. *)
Definition sample_data : list (str * value) :=
  [ (lit "page", VStr (lit "Write to Sales@Acme.io or call +1 (415) 555-2671"));
    (lit "whois", VDict [ (lit "registrant_email", VStr (lit "Hostmaster@Acme.io"));
                          (lit "status", VOther) ]);
    (lit "links", VList [ VStr (lit "logo@2x.png"); VOther ]) ].

Definition sample_phones (v : str) : gset str :=
  if contains (lit "+1 (415) 555-2671") v then {[ lit "+1 (415) 555-2671" ]} else ∅.

End Contacts.


(** ** [src/scraper/utils/clients.py]: the DNS lookup *)
Module Dns.
Import Py Str Shodan.

(** What [resolver.resolve(domain, rtype)] and the rendering of its answer
    end with: the records of the answer, one of the four exceptions of
    dnspython that have a handler of their own, or any other exception
    (also one raised while a record is rendered). *)
Inductive outcome (rdata : Type) : Type :=
| Answers (records : list rdata)
| NoAnswer
| NXDOMAIN
| Timeout
| NoNameservers
| OtherException (msg : str).
Arguments Answers {rdata} records.
Arguments NoAnswer {rdata}.
Arguments NXDOMAIN {rdata}.
Arguments Timeout {rdata}.
Arguments NoNameservers {rdata}.
Arguments OtherException {rdata} msg.

(** The three shapes of the result: [{"error": ..., "details": records}],
    [{"info": ...}] and the records by type. *)
Inductive payload : Type :=
| Failed (error : str) (details : gmap str (list str))
| NoRecords (info : str)
| Records (records : gmap str (list str)).

Definition record_types : list str :=
  map lit [ "A"; "AAAA"; "MX"; "NS"; "TXT"; "SOA"; "CNAME"; "SRV"; "CAA";
            "PTR" ]%string.

Section fetch_dns_records.
(** The records of dnspython, the resolver, and the text the f-string of
    each branch makes of a record. *)
Variable rdata : Type.
Variable resolve : str -> str -> outcome rdata.
Variable render : str -> rdata -> str.

(** [current_rtype_records] after the chain of branches on [rtype]. *)
Definition current_rtype_records (domain rtype : str) (answers : list rdata)
  : list str :=
  if bool_decide (rtype = lit "MX")
  then merge_sort str_le (map (render rtype) answers)
  else if bool_decide (rtype = lit "SOA") then
    match answers with
    | r :: _ => [render rtype r]
    | [] => []
    end
  else if bool_decide (rtype = lit "TXT") then map (render rtype) answers
  else if bool_decide (rtype = lit "SRV")
  then merge_sort str_le (map (render rtype) answers)
  else if bool_decide (rtype = lit "CAA") then map (render rtype) answers
  else if bool_decide (rtype = lit "PTR") &&
          endswith (lit ".in-addr.arpa") domain
  then merge_sort str_le (map (render rtype) answers)
  else if negb (bool_decide (rtype = lit "PTR"))
  then merge_sort str_le (map (render rtype) answers)
  else [].

(** The body of [for rtype in record_types]: the records so far, or the
    payload of an early [return]. *)
Definition query (domain : str) (records : gmap str (list str)) (rtype : str)
  : payload + gmap str (list str) :=
  match resolve domain rtype with
  | Answers answers =>
      match current_rtype_records domain rtype answers with
      | [] => inr records
      | found => inr (<[rtype := found]> records)
      end
  | NoAnswer => inr (<[rtype := []]> records)
  | NXDOMAIN =>
      inl (Failed (lit "NXDOMAIN - Domain " ++ domain ++ lit " does not exist")
             records)
  | Timeout =>
      inr (<[rtype := [lit "Error: DNS query timed out for " ++ rtype]]> records)
  | NoNameservers =>
      inl (Failed (lit "No nameservers available for " ++ domain) records)
  | OtherException msg =>
      inr (<[rtype := [lit "Error fetching " ++ rtype ++ lit ": " ++ msg]]> records)
  end.

Fixpoint query_loop (domain : str) (rtypes : list str)
    (records : gmap str (list str)) : payload + gmap str (list str) :=
  match rtypes with
  | [] => inr records
  | rtype :: rest =>
      match query domain records rtype with
      | inl early => inl early
      | inr records' => query_loop domain rest records'
      end
  end.

Definition fetch_dns_records (domain : str) : payload :=
  match query_loop domain record_types ∅ with
  | inl early => early
  | inr records =>
      if bool_decide (records = ∅)
      then NoRecords (lit "No DNS records found for domain " ++ domain ++
                      lit " across all queried types.")
      else Records records
  end.

End fetch_dns_records.

(** *** Shapes for the properties of the lookup *)

(** The outcomes that end the lookup. *)
Definition aborts {rdata : Type} (o : outcome rdata) : bool :=
  match o with
  | NXDOMAIN | NoNameservers => true
  | _ => false
  end.

(** What the result holds for a type whose query did not end the lookup:
    nothing, or a list under the type. *)
Definition entry_for {rdata : Type} (render : str -> rdata -> str)
    (domain rtype : str) (o : outcome rdata) : option (list str) :=
  match o with
  | Answers answers =>
      match current_rtype_records rdata render domain rtype answers with
      | [] => None
      | found => Some found
      end
  | NoAnswer => Some []
  | Timeout => Some [lit "Error: DNS query timed out for " ++ rtype]
  | OtherException msg =>
      Some [lit "Error fetching " ++ rtype ++ lit ": " ++ msg]
  | NXDOMAIN | NoNameservers => None
  end.

(** A resolver for a name with an address and a mail exchanger, whose TXT
    query times out; and one for a name that does not exist. *)
Definition sample_resolve (domain rtype : str) : outcome str :=
  if bool_decide (rtype = lit "A") then Answers [lit "93.184.216.34"]
  else if bool_decide (rtype = lit "MX")
  then Answers [lit "20 mx2.example.org"; lit "10 mx1.example.org"]
  else if bool_decide (rtype = lit "TXT") then Timeout
  else NoAnswer.

Definition sample_nxdomain (domain rtype : str) : outcome str :=
  if bool_decide (rtype = lit "A") then Timeout else NXDOMAIN.

Definition sample_render (rtype : str) (r : str) : str := r.

End Dns.


(** ** Patterns with negative look-around

    [validate_domain] uses [(?!-)] and [(?<!-)].  The matcher below is the
    backtracking search of [Re.run] for patterns whose zero-width
    assertions are tests of the position: what lies before it and what lies
    ahead. *)
Module Look.
Import Re.

Inductive regex : Type :=
| Empty
| Class (c : ascii -> bool)
| Cat (r1 r2 : regex)
| Alt (r1 r2 : regex)
| Rep (r : regex) (lo : nat) (hi : option nat)
| Test (t : pos -> bool).

Fixpoint run (r : regex) (p : pos) (k : pos -> option pos) {struct r}
  : option pos :=
  match r with
  | Empty => k p
  | Class c =>
      match after p with
      | a :: rest => if c a then k (shift a rest p) else None
      | [] => None
      end
  | Cat r1 r2 => run r1 p (fun q => run r2 q k)
  | Alt r1 r2 =>
      match run r1 p k with
      | Some e => Some e
      | None => run r2 p k
      end
  | Rep r lo hi => rep_loop (run r) lo hi k (length (after p)) O p
  | Test t => if t p then k p else None
  end.

(** [re.match(r, s)] *)
Definition re_match (r : regex) (s : str) : bool :=
  match run r (start s) Some with Some _ => true | None => false end.

(** [^] and [$] (without [re.MULTILINE]), [(?!c)] and [(?<!c)] for a
    character class [c]. *)
Definition bos : regex :=
  Test (fun p => match before p with [] => true | _ => false end).

Definition eos : regex :=
  Test (fun p => match after p with
                 | [] => true
                 | [a] => bool_decide (a = newline)
                 | _ => false
                 end).

Definition not_ahead (c : ascii -> bool) : regex :=
  Test (fun p => match after p with a :: _ => negb (c a) | [] => true end).

Definition not_behind (c : ascii -> bool) : regex :=
  Test (fun p => match before p with a :: _ => negb (c a) | [] => true end).

Definition seq (rs : list regex) : regex := foldr Cat Empty rs.

(** What a match is, as for [Re.sem]. *)
Inductive sem : regex -> pos -> pos -> Prop :=
| sem_Empty p : sem Empty p p
| sem_Class c a rest p :
    after p = a :: rest -> c a = true -> sem (Class c) p (shift a rest p)
| sem_Cat r1 r2 p q e : sem r1 p q -> sem r2 q e -> sem (Cat r1 r2) p e
| sem_Alt_l r1 r2 p q : sem r1 p q -> sem (Alt r1 r2) p q
| sem_Alt_r r1 r2 p q : sem r2 p q -> sem (Alt r1 r2) p q
| sem_Rep r lo hi n p q :
    lo <= n -> (forall h, hi = Some h -> n <= h) ->
    sem_n r n p q -> sem (Rep r lo hi) p q
| sem_Test t p : t p = true -> sem (Test t) p p
with sem_n : regex -> nat -> pos -> pos -> Prop :=
| sem_n_O r p : sem_n r O p p
| sem_n_S r n p q e :
    sem r p q -> length (after q) < length (after p) ->
    sem_n r n q e -> sem_n r (S n) p e.

Scheme sem_mut := Minimality for sem Sort Prop
  with sem_n_mut := Minimality for sem_n Sort Prop.
Combined Scheme sem_sem_n_ind from sem_mut, sem_n_mut.

End Look.

(** ** [src/scraper/utils/validators.py] *)
Module Validators.
Import Re Py Str.

Definition label_char (a : ascii) : bool :=
  in_range "a" "z" a || in_range "0" "9" a || is_char "-" a.

Definition lower_alpha (a : ascii) : bool := in_range "a" "z" a.

(** [^((?!-)[a-z0-9-]{1,63}(?<!-)\.)+[a-z]{2,63}$] *)
Definition domain_pattern : Look.regex :=
  Look.seq
    [ Look.bos;
      Look.Rep
        (Look.seq [ Look.not_ahead (is_char "-");
                    Look.Rep (Look.Class label_char) 1 (Some 63);
                    Look.not_behind (is_char "-");
                    Look.Class (is_char ".") ])
        1 None;
      Look.Rep (Look.Class lower_alpha) 2 (Some 63);
      Look.eos ].

Inductive exn : Type := IndexError.

(** [l[i]] *)
Definition item (l : list str) (i : nat) : result exn str :=
  match l !! i with
  | Some x => Return x
  | None => Raise IndexError
  end.

Definition validate_domain (domain : str) : result exn (bool * option str) :=
  let domain := lower (strip domain) in
  match domain with
  | [] => Return (false, None)
  | _ =>
      match
        (if startswith (lit "http://") domain || startswith (lit "https://") domain
         then item (split1 (lit "://") domain) 1
         else Return domain)
      with
      | Raise e => Raise e
      | Return domain =>
          match item (split1 (lit "/") domain) 0 with
          | Raise e => Raise e
          | Return domain =>
              match item (split1 (lit "?") domain) 0 with
              | Raise e => Raise e
              | Return domain =>
                  match item (split1 (lit ":") domain) 0 with
                  | Raise e => Raise e
                  | Return domain =>
                      let domain :=
                        if startswith (lit "www.") domain then drop 4 domain
                        else domain in
                      if negb (Look.re_match domain_pattern domain)
                      then Return (false, None)
                      else Return (true, Some domain)
                  end
              end
          end
      end
  end.

(** *** The shape of a domain name *)

(** A label: 1 to 63 lower-case letters, digits and hyphens, with no hyphen
    at either end. *)
Definition label (l : str) : Prop :=
  1 <= length l <= 63 /\ Forall (fun a => label_char a = true) l /\
  head l <> Some "-"%char /\ last l <> Some "-"%char.

(** A top-level domain: 2 to 63 lower-case letters. *)
Definition tld (l : str) : Prop :=
  2 <= length l <= 63 /\ Forall (fun a => lower_alpha a = true) l.

(** One label or more, each followed by a dot, and a top-level domain. *)
Definition domain_name (d : str) : Prop :=
  exists labels t,
    labels <> [] /\ Forall label labels /\ tld t /\
    d = concat (map (fun l => l ++ lit ".") labels) ++ t.

(** What [validate_domain] accepts: a domain name, or one with a line feed
    after it ([$] also matches before a final line feed). *)
Definition accepted (d : str) : Prop :=
  domain_name d \/ exists d0, domain_name d0 /\ d = d0 ++ [newline].

(** The characters that end the host part of the input. *)
Definition ends_host (rest : str) : Prop :=
  rest = [] \/ exists c r, rest = c :: r /\ c ∈ lit "/?:".

End Validators.


(** ** [src/scraper/extractors/osint_extractor.py]: the profile builder and
       the coordinator *)
Module Profiles.
Import Py Osint.

(** A row of [contacts] as [_build_full_profile] reads it, with the column
    the table fills on its own, and a row of [domain_info], of which only
    the key matters here.  Modelled from the spec: both tables are declared
    in the absent schema module. *)
Record contact_row : Type := {
  written : Contacts.contact;
  created_at : option Z
}.

Inductive exn (E : Type) : Type :=
| LookupFailed (e : Osint.exn)
| TypeError (msg : str)
| FetchFailed (e : E).
Arguments LookupFailed {E} e.
Arguments TypeError {E} msg.
Arguments FetchFailed {E} e.

Section profiles.
(** The collected data and what [_save_osint_profile] does with it. *)
Variable data_t : Type.
Variable is_empty : data_t -> bool.
Variable dumps_standardized : data_t -> str.
Variable dumps_structured : data_t -> str -> str.
Variable updated_at_default : Z -> option Z.

(** [json.loads]: [None] is a [json.JSONDecodeError]; [empty_object] is
    [{}]. *)
Variable json : Type.
Variable loads : str -> option json.
Variable empty_object : json.

(** The rows of [domain_info]. *)
Variable info_row : Type.
Variable info_entity_id : info_row -> Z.

(** The two source adapters of [utils/osint_sources.py] that the
    coordinator reaches; they use the network and not the database. *)
Variable E : Type.
Variable fetch_domain_osint : str -> result E data_t.
Variable fetch_email_osint : str -> result E data_t.

(** An entry of [profiles_data]. *)
Inductive profile_entry : Type :=
| Decoded (extracted raw : json) (updated : option Z)
| Undecoded (updated : option Z) (raw : str).

(** An entry of [contacts_list]. *)
Record contact_entry : Type := {
  contact_type : Contacts.contact_type;
  value : str;
  contact_source : str;
  contact_created_at : option Z
}.

Inductive full_profile : Type :=
| Error (error : str)
| Profile (entity : Osint.entity) (domain_info : option info_row)
    (profiles : gmap str profile_entry) (contacts : list contact_entry).

(** [json.loads(x) if x else {}] *)
Definition loads_or_empty (x : str) : option json :=
  match x with
  | [] => Some empty_object
  | _ => loads x
  end.

(** The body of the loop over [profiles_rows], with its [try]. *)
Definition profile_of_row (p_row : profile) : profile_entry :=
  match loads_or_empty (extracted_fields p_row) with
  | None => Undecoded (updated_at p_row) (raw_data p_row)
  | Some extracted =>
      match loads_or_empty (raw_data p_row) with
      | None => Undecoded (updated_at p_row) (raw_data p_row)
      | Some raw => Decoded extracted raw (updated_at p_row)
      end
  end.

Definition profiles_data (profiles_rows : list profile) : gmap str profile_entry :=
  foldl (fun acc p_row => <[source p_row := profile_of_row p_row]> acc) ∅
    profiles_rows.

(** The body of the loop over [contacts_rows]: [row.get(...)] is true for a
    text that is neither NULL nor empty. *)
Definition contacts_of_row (row : contact_row) : list contact_entry :=
  (if nonempty (Contacts.email (written row))
   then [ {| contact_type := Contacts.Email;
             value := default [] (Contacts.email (written row));
             contact_source := Contacts.contact_source (written row);
             contact_created_at := created_at row |} ]
   else []) ++
  (if nonempty (Contacts.phone (written row))
   then [ {| contact_type := Contacts.Phone;
             value := default [] (Contacts.phone (written row));
             contact_source := Contacts.contact_source (written row);
             contact_created_at := created_at row |} ]
   else []).

Definition _build_full_profile (entity_id0 : Z) (d : db)
    (contacts : list contact_row) (domain_info : list info_row) : full_profile :=
  match List.find (fun r => bool_decide (id r = entity_id0)) (entities d) with
  | None => Error (lit "Entity not found")
  | Some entity =>
      let profiles_rows :=
        List.filter (fun r => bool_decide (entity_id r = entity_id0))
          (osint_profiles d) in
      let contacts_rows :=
        List.filter
          (fun r => bool_decide (Contacts.contact_entity_id (written r) = entity_id0))
          contacts in
      let domain_info_row :=
        if bool_decide (type entity = lit "company")
        then List.find (fun r => bool_decide (info_entity_id r = entity_id0))
               domain_info
        else None in
      Profile entity domain_info_row (profiles_data profiles_rows)
        (flat_map contacts_of_row contacts_rows)
  end.

(** The coordinator.  The entity row is committed before the data are
    fetched.  [fetch_social_osint] has three required parameters and is
    called here with two, which is a [TypeError]; what
    [_save_osint_profile] raises is caught and logged. *)
Definition entity (target entity_type : str) (now : Z) (d : db)
    (contacts : list contact_row) (domain_info : list info_row)
  : result (exn E) full_profile * db :=
  match _get_or_create_entity target entity_type d with
  | (Raise e, d) => (Raise (LookupFailed e), d)
  | (Return entity_id0, d) =>
      let fetched : result (exn E) (result str (data_t * str)) :=
        if bool_decide (entity_type = lit "domain") then
          match fetch_domain_osint target with
          | Raise e => Raise (FetchFailed e)
          | Return data_to_save => Return (Return (data_to_save, lit "domain"))
          end
        else if bool_decide (entity_type = lit "email") then
          match fetch_email_osint target with
          | Raise e => Raise (FetchFailed e)
          | Return data_to_save => Return (Return (data_to_save, lit "email"))
          end
        else if bool_decide (entity_type = lit "username") then
          Raise (TypeError
                   (lit "fetch_social_osint() missing 1 required positional argument: 'dirs'"))
        else Return (Raise (lit "Unknown entity type: " ++ entity_type)) in
      match fetched with
      | Raise e => (Raise e, d)
      | Return (Raise error) => (Return (Error error), d)
      | Return (Return (data_to_save, source_type_for_saving)) =>
          let d :=
            if is_empty data_to_save then d
            else
              _save_osint_profile data_t is_empty dumps_standardized
                dumps_structured updated_at_default entity_id0
                source_type_for_saving data_to_save now d in
          (Return (_build_full_profile entity_id0 d contacts domain_info), d)
      end
  end.

(** The row of [osint_profiles] that holds [data] for an entity and a
    source, last written at [updated]. *)
Definition saved_row (entity_id0 : Z) (source0 : str) (data : data_t)
    (updated : option Z) : profile :=
  {| entity_id := entity_id0; source := source0;
     raw_data := dumps_standardized data;
     extracted_fields := dumps_structured data source0;
     updated_at := updated |}.

(** What the adapter for an entity type returns for a target. *)
Definition fetched_for (entity_type target : str) (data : data_t) : Prop :=
  (entity_type = lit "domain" /\ fetch_domain_osint target = Return data) \/
  (entity_type = lit "email" /\ fetch_email_osint target = Return data).

End profiles.

Arguments Error {json info_row} error.
Arguments Profile {json info_row} entity domain_info profiles contacts.
Arguments Decoded {json} extracted raw updated.
Arguments Undecoded {json} updated raw.

(** The row a call of [entity] appends for a target that is not a domain. *)
Definition person_row (target : str) (d : db) : Osint.entity :=
  {| id := next_id (entities d); type := lit "person"; name := target;
     domain := None |}.

(** The key of [entities]: no two rows share an id. *)
Definition ids_distinct (d : db) : Prop := NoDup (map id (entities d)).

(** Sample adapters: one field of data for a domain, none for an address;
    [json.loads] as the identity on texts. *)
Definition sample_fetch_domain (target : str) : result unit (list (str * str)) :=
  Return [(lit "dns", target)].

Definition sample_fetch_email (target : str) : result unit (list (str * str)) :=
  Return [].

Definition sample_loads (x : str) : option str := Some x.

End Profiles.


(** ** [src/scraper/utils/data_processing.py] *)
Module DataProcessing.

Section standardize.
(** Dictionary keys, [datetime] objects with [isoformat], and every other
    object (numbers, None, tuples, sets, ...), which is passed through. *)
Variable key : Type.
Variable datetime : Type.
Variable other : Type.
Variable isoformat : datetime -> str.

#[warnings="-register-all"] Inductive item : Type :=
| Datetime (t : datetime)
| Str (s : str)
| Dict (items : list (key * item))
| List (items : list item)
| Other (o : other).

Fixpoint standardize_for_json (i : item) : item :=
  match i with
  | Datetime t => Str (isoformat t)
  | Dict items =>
      Dict (map (fun kv => (fst kv, standardize_for_json (snd kv))) items)
  | List items => List (map standardize_for_json items)
  | _ => i
  end.

(** No [datetime] is left at the top or inside the dictionaries and lists
    of the item. *)
Fixpoint serialisable (i : item) : Prop :=
  match i with
  | Datetime _ => False
  | Dict items =>
      (fix all (l : list (key * item)) : Prop :=
         match l with
         | [] => True
         | kv :: l => serialisable (snd kv) /\ all l
         end) items
  | List items =>
      (fix all (l : list item) : Prop :=
         match l with
         | [] => True
         | x :: l => serialisable x /\ all l
         end) items
  | _ => True
  end.

Section item_induction.
Variable P : item -> Prop.
Hypothesis Hdatetime : forall t, P (Datetime t).
Hypothesis Hstr : forall s, P (Str s).
Hypothesis Hdict : forall items, Forall (fun kv => P (snd kv)) items -> P (Dict items).
Hypothesis Hlist : forall items, Forall P items -> P (List items).
Hypothesis Hother : forall o, P (Other o).

Fixpoint item_induction (i : item) : P i :=
  match i with
  | Datetime t => Hdatetime t
  | Str s => Hstr s
  | Dict items =>
      Hdict items
        ((fix all (l : list (key * item)) : Forall (fun kv => P (snd kv)) l :=
            match l with
            | [] => List.Forall_nil _
            | kv :: l => List.Forall_cons _ _ _ (item_induction (snd kv)) (all l)
            end) items)
  | List items =>
      Hlist items
        ((fix all (l : list item) : Forall P l :=
            match l with
            | [] => List.Forall_nil _
            | x :: l => List.Forall_cons _ _ _ (item_induction x) (all l)
            end) items)
  | Other o => Hother o
  end.
End item_induction.

End standardize.

Arguments Datetime {key datetime other} t.
Arguments Str {key datetime other} s.
Arguments Dict {key datetime other} items.
Arguments List {key datetime other} items.
Arguments Other {key datetime other} o.

(** A sample item: a dictionary with a [datetime] under one key and inside
    a list under another; an [isoformat] that gives every instant the same
    text. *)
Definition sample_isoformat (t : Z) : str := lit "1970-01-01T00:00:00".

Definition sample_item : item str Z unit :=
  Dict [ (lit "updated_at", Datetime 0%Z);
         (lit "seen", List [Datetime 1%Z; Str (lit "never"); Other tt]) ].

End DataProcessing.


(** ** [src/scraper/utils/clients.py]: the Wayback Machine client *)
Module Wayback.

(** A snapshot of the waybackpy library and the dictionary made of it. *)
Record snapshot : Type := {
  timestamp : str;
  archive_url : str;
  original : str;
  statuscode : str;
  mimetype : str;
  digest : str
}.

Record entry : Type := {
  entry_timestamp : str;
  url : str;
  original_url : str;
  status_code : str;
  mime_type : str;
  diges : str
}.

(** The two [except] clauses. *)
Inductive exn : Type :=
| RequestException (e : str)
| OtherException (e : str).

(** What [cdx_api.snapshots()] returns: its truth value, the snapshots it
    yields when iterated, and the exception that ends the iteration, if one
    does. *)
Record iterable : Type := {
  truthy : bool;
  yielded : list snapshot;
  ending : option exn
}.

Inductive payload : Type :=
| Info (info : str)
| Snapshots (snapshots : list entry)
| NetworkError (e : str)
| UnexpectedError (e : str).

Definition to_entry (s : snapshot) : entry :=
  {| entry_timestamp := timestamp s; url := archive_url s;
     original_url := original s; status_code := statuscode s;
     mime_type := mimetype s; diges := digest s |}.

(** The [for s in snapshots] loop with its [break]. *)
Fixpoint collect (items : list snapshot) (ending0 : option exn)
    (results : list entry) : result exn (list entry) :=
  match items with
  | [] =>
      match ending0 with
      | Some e => Raise e
      | None => Return results
      end
  | s :: items =>
      let results := results ++ [to_entry s] in
      if 5 <? length results then Return results
      else collect items ending0 results
  end.

Definition handle (e : exn) : payload :=
  match e with
  | RequestException e => NetworkError e
  | OtherException e => UnexpectedError e
  end.

Section fetch_wayback_snapshots.
(** The library call, with the limit set on the API object. *)
Variable snapshots : str -> Z -> result exn iterable.

Definition fetch_wayback_snapshots (url0 : str) (limit : Z) : payload :=
  match snapshots url0 limit with
  | Raise e => handle e
  | Return snapshots0 =>
      if negb (truthy snapshots0)
      then Info (lit "No snapshots found for " ++ url0 ++ lit ".")
      else
        match collect (yielded snapshots0) (ending snapshots0) [] with
        | Raise e => handle e
        | Return results => Snapshots results
        end
  end.

End fetch_wayback_snapshots.

(** Seven snapshots, then a network failure. *)
Definition sample_snapshot (n : str) : snapshot :=
  {| timestamp := n; archive_url := lit "https://web.archive.org/web/" ++ n;
     original := lit "example.com"; statuscode := lit "200";
     mimetype := lit "text/html"; digest := n |}.

Definition sample_snapshots (url0 : str) (limit : Z) : result exn iterable :=
  Return {| truthy := true;
            yielded := map (fun n => sample_snapshot (lit n))
                         ["1"; "2"; "3"; "4"; "5"; "6"; "7"]%string;
            ending := Some (RequestException (lit "reset")) |}.

End Wayback.


(** ** [src/scraper/utils/osint_sources.py]: the reader of Sherlock's output *)
Module Sherlock.
Import Py Str Validators.

(** The dictionary stored for a site; the key [username] is present with
    [include_username] only. *)
Record info : Type := {
  url : str;
  status : str;
  exists_ : bool;
  confidence : Q;
  username : option str
}.

(** The inner [try] block for a line that has [[+]]: [None] is an
    exception, which is logged and passed over.  [x.split(":")[0]] is
    [x.split(":", 1)[0]]. *)
Definition parse_line (username0 : str) (include_username : bool) (line : str)
  : option (str * info) :=
  match item (split1 (lit "[+]") line) 1 with
  | Raise _ => None
  | Return after =>
      match item (split1 (lit ":") (strip after)) 0 with
      | Raise _ => None
      | Return site =>
          let site := strip site in
          match item (split1 (lit ":") line) 1 with
          | Raise _ => None
          | Return url0 =>
              Some (site,
                    {| url := strip url0; status := lit "Claimed";
                       exists_ := true; confidence := 1%Q;
                       username := if include_username then Some username0
                                   else None |})
          end
      end
  end.

Definition _parse_sherlock_stdout (stdout username0 : str)
    (include_username : bool) : gmap str info :=
  foldl (fun results line =>
           if contains (lit "[+]") line then
             match parse_line username0 include_username line with
             | Some (site, info0) => <[site := info0]> results
             | None => results
             end
           else results) ∅ (splitlines stdout).

(** A line that reports a claimed profile: a prefix, the mark, the site, a
    colon and the address. *)
Definition claimed_line (pre site_part url_part : str) : str :=
  pre ++ lit "[+]" ++ site_part ++ lit ":" ++ url_part.

Definition claimed (username0 : str) (include_username : bool) (url_part : str)
  : info :=
  {| url := strip url_part; status := lit "Claimed"; exists_ := true;
     confidence := 1%Q;
     username := if include_username then Some username0 else None |}.

Definition sample_stdout : str :=
  RobotsParser.unlines
    [ "[*] Checking username alice on:";
      "[+] Reddit: https://www.reddit.com/user/alice";
      "[*] Search completed with 1 results" ]%string.

End Sherlock.


(** * Properties of the matcher *)
Module ReFacts.
Import Re.

(** The matcher only answers with matches: soundness of the iteration of a
    quantifier, for a body that is sound. *)
Lemma rep_loop_sound r lo hi k :
  (forall p k e, run r p k = Some e -> exists q, sem r p q /\ k q = Some e) ->
  forall fuel n p e,
    (forall h, hi = Some h -> n <= h) ->
    rep_loop (run r) lo hi k fuel n p = Some e ->
    exists m q, sem_n r m p q /\ lo <= n + m /\
                (forall h, hi = Some h -> n + m <= h) /\ k q = Some e.
Proof.
  intros IH fuel.
  assert (Hstop : forall n p e, (forall h, hi = Some h -> n <= h) ->
            (if lo <=? n then k p else None) = Some e ->
            exists m q, sem_n r m p q /\ lo <= n + m /\
                        (forall h, hi = Some h -> n + m <= h) /\ k q = Some e).
  { intros n p e Hn H. destruct (Nat.leb_spec lo n); [|discriminate].
    exists 0, p. repeat split; [constructor | lia | | done].
    intros h Hh. specialize (Hn h Hh). lia. }
  induction fuel as [|fuel IHf]; intros n p e Hn H; simpl in H.
  - by apply Hstop.
  - destruct (below n hi) eqn:Hb; [|by apply Hstop].
    destruct (run r p _) as [e'|] eqn:Hr; [|by apply Hstop].
    injection H as ->.
    apply IH in Hr as (q & Hq & Hk).
    destruct (Nat.ltb_spec (length (after q)) (length (after p))); [|discriminate].
    apply IHf in Hk as (m & q' & Hm & Hlo & Hhi & Hk).
    + exists (S m), q'. repeat split; [econstructor; eauto | lia | | done].
      intros h Hh. specialize (Hhi h Hh). lia.
    + intros h ->. simpl in Hb. apply Nat.ltb_lt in Hb. lia.
Qed.

Lemma run_sound r : forall p k e,
  run r p k = Some e -> exists q, sem r p q /\ k q = Some e.
Proof.
  induction r as [|c|r1 IH1 r2 IH2|r1 IH1 r2 IH2|r IH lo hi| | | |r IH];
    intros p k e H; simpl in H.
  - exists p. split; [constructor | done].
  - destruct (after p) as [|a rest] eqn:Ha; [discriminate|].
    destruct (c a) eqn:Hc; [|discriminate].
    exists (shift a rest p). split; [by constructor | done].
  - apply IH1 in H as (q & Hq & H). apply IH2 in H as (q' & Hq' & H).
    exists q'. split; [econstructor; eauto | done].
  - destruct (run r1 p k) as [e1|] eqn:H1.
    + injection H as ->. apply IH1 in H1 as (q & Hq & H).
      exists q. split; [by apply sem_Alt_l | done].
    + apply IH2 in H as (q & Hq & H).
      exists q. split; [by apply sem_Alt_r | done].
  - apply (rep_loop_sound r lo hi k IH) in H as (m & q & Hm & Hlo & Hhi & Hk).
    + exists q. split; [|done]. by apply (sem_Rep r lo hi m).
    + intros; lia.
  - destruct (before p) eqn:Hb; [|discriminate].
    exists p. split; [by constructor | done].
  - exists p. destruct (after p) as [|a [|b rest]] eqn:Ha; [| |discriminate].
    + split; [constructor; by left | done].
    + case_bool_decide as Heq; [|discriminate]. subst a.
      split; [constructor; by right | done].
  - destruct (xorb _ _) eqn:Hx; [|discriminate].
    exists p. split; [|done]. constructor.
    intros Heq. rewrite Heq, xorb_nilpotent in Hx. discriminate.
  - destruct (run r p Some) as [e'|] eqn:Hr; [|discriminate].
    apply IH in Hr as (q & Hq & _).
    exists p. split; [by apply (sem_Ahead r p q) | done].
Qed.

(** The matcher finds a match whenever there is one. *)
Lemma run_complete :
  (forall r p q, sem r p q ->
     forall k, is_Some (k q) -> is_Some (run r p k)) /\
  (forall r m p q, sem_n r m p q ->
     forall lo hi k fuel n,
       lo <= n + m -> (forall h, hi = Some h -> n + m <= h) ->
       length (after p) <= fuel -> is_Some (k q) ->
       is_Some (rep_loop (run r) lo hi k fuel n p)).
Proof.
  apply sem_sem_n_ind.
  - intros p k Hk. done.
  - intros c a rest p Ha Hc k Hk. simpl. by rewrite Ha, Hc.
  - intros r1 r2 p q e _ IH1 _ IH2 k Hk. simpl. apply IH1. by apply IH2.
  - intros r1 r2 p q _ IH k Hk. simpl.
    destruct (IH k Hk) as [e ->]. done.
  - intros r1 r2 p q _ IH k Hk. simpl.
    destruct (run r1 p k); [done|]. by apply IH.
  - intros r lo hi n p q Hlo Hhi _ IH k Hk. simpl.
    apply IH; auto.
  - intros p Hb k Hk. simpl. by rewrite Hb.
  - intros p [Ha|Ha] k Hk; simpl; rewrite Ha; [done|].
    by rewrite bool_decide_true.
  - intros p Hw k Hk. simpl.
    destruct (word_at (head (before p))), (word_at (head (after p))); done.
  - intros r p q _ IH k Hk. simpl.
    destruct (IH Some) as [e ->]; done.
  - intros r p lo hi k fuel n Hlo Hhi _ Hk.
    assert (Hstop : is_Some (if lo <=? n then k p else None)).
    { destruct (Nat.leb_spec lo n); [done | lia]. }
    destruct fuel as [|fuel]; simpl; [done|].
    destruct (below n hi); [|done].
    destruct (run r p _); done.
  - intros r m p q e _ IH Hlt _ IHn lo hi k fuel n Hlo Hhi Hfuel Hk.
    destruct fuel as [|fuel]; [lia|]. simpl.
    assert (Hb : below n hi = true).
    { destruct hi as [h|]; [|done]. simpl. apply Nat.ltb_lt.
      specialize (Hhi h eq_refl). lia. }
    rewrite Hb.
    destruct (IH (fun q0 => if length (after q0) <? length (after p)
                            then rep_loop (run r) lo hi k fuel (S n) q0
                            else None)) as [e' ->]; [|done].
    destruct (Nat.ltb_spec (length (after q)) (length (after p))); [|lia].
    apply IHn; auto; try lia.
    intros h Hh. specialize (Hhi h Hh). lia.
Qed.

(** [re.match] decides the existence of a match at the start. *)
Lemma re_match_spec r s :
  re_match r s = true <-> exists q, sem r (start s) q.
Proof.
  unfold re_match. split.
  - destruct (run r (start s) Some) as [e|] eqn:H; [|discriminate].
    intros _. apply run_sound in H as (q & Hq & _). eauto.
  - intros [q Hq].
    destruct (proj1 run_complete r (start s) q Hq Some) as [e ->]; done.
Qed.

(** A match passes over a stretch of the text. *)
Lemma sem_consumes :
  (forall r p q, sem r p q ->
     exists w, after p = w ++ after q /\ before q = rev w ++ before p) /\
  (forall r m p q, sem_n r m p q ->
     exists w, after p = w ++ after q /\ before q = rev w ++ before p).
Proof.
  apply sem_sem_n_ind; intros.
  - by exists [].
  - exists [a]. simpl. done.
  - destruct H0 as (w1 & Ha1 & Hb1), H2 as (w2 & Ha2 & Hb2).
    exists (w1 ++ w2). rewrite Ha1, Ha2, Hb2, Hb1, rev_app_distr.
    by rewrite <- !app_assoc.
  - done.
  - done.
  - done.
  - by exists [].
  - by exists [].
  - by exists [].
  - by exists [].
  - by exists [].
  - destruct H0 as (w1 & Ha1 & Hb1), H3 as (w2 & Ha2 & Hb2).
    exists (w1 ++ w2). rewrite Ha1, Ha2, Hb2, Hb1, rev_app_distr.
    by rewrite <- !app_assoc.
Qed.

Lemma between_app p q w : after p = w ++ after q -> between p q = w.
Proof.
  intros H. unfold between. rewrite H, length_app.
  replace (length w + length (after q) - length (after q)) with (length w) by lia.
  by rewrite take_app_length.
Qed.

(** Every string of [re.findall] is the text of a match. *)
Lemma scan_sound r fuel : forall p c,
  c ∈ scan r fuel p -> exists p' q, sem r p' q /\ c = between p' q.
Proof.
  induction fuel as [|fuel IH]; intros p c H; simpl in H.
  - by apply elem_of_nil in H.
  - destruct (run r p Some) as [e|] eqn:Hr.
    + apply elem_of_cons in H as [->|H].
      * apply run_sound in Hr as (q & Hq & [= ->]). eauto.
      * destruct (length (after e) <? length (after p)); [by eapply IH|].
        destruct (after p); [by apply elem_of_nil in H | by eapply IH].
    + destruct (after p); [by apply elem_of_nil in H | by eapply IH].
Qed.

Lemma findall_sound r s c :
  c ∈ findall r s -> exists p q, sem r p q /\ c = between p q.
Proof. apply scan_sound. Qed.

End ReFacts.


(** * Properties of the contact filters *)
Module ExtractorsFacts.
Import Re Py Extractors ReFacts.

(** ** Building matches *)

Lemma sem_n_class c w : forall b rest,
  Forall (fun a => c a = true) w ->
  sem_n (Class c) (length w) (Pos b (w ++ rest)) (Pos (rev w ++ b) rest).
Proof.
  induction w as [|a w IH]; intros b rest Hw; simpl.
  - constructor.
  - apply Forall_cons in Hw as [Ha Hw].
    apply (sem_n_S _ _ _ (Pos (a :: b) (w ++ rest))).
    + by apply (sem_Class c a (w ++ rest) (Pos b (a :: w ++ rest))).
    + simpl. lia.
    + rewrite <- app_assoc. simpl. by apply IH.
Qed.

Lemma sem_rep_class c lo hi w b rest :
  Forall (fun a => c a = true) w ->
  lo <= length w -> (forall h, hi = Some h -> length w <= h) ->
  sem (Rep (Class c) lo hi) (Pos b (w ++ rest)) (Pos (rev w ++ b) rest).
Proof.
  intros Hw Hlo Hhi. apply (sem_Rep _ _ _ (length w)); auto.
  by apply sem_n_class.
Qed.

Lemma sem_exactly_class c n w b rest :
  Forall (fun a => c a = true) w -> length w = n ->
  sem (exactly n (Class c)) (Pos b (w ++ rest)) (Pos (rev w ++ b) rest).
Proof.
  intros Hw <-. apply sem_rep_class; auto. by intros h [= <-].
Qed.

Lemma sem_ch x a rest b :
  is_char x a = true -> sem (ch x) (Pos b (a :: rest)) (Pos (a :: b) rest).
Proof. intros H. by apply (sem_Class _ a rest (Pos b (a :: rest))). Qed.

Lemma sem_ch_class c a rest b :
  c a = true -> sem (Class c) (Pos b (a :: rest)) (Pos (a :: b) rest).
Proof. intros H. by apply (sem_Class _ a rest (Pos b (a :: rest))). Qed.

Lemma sem_eos b : sem Eos (Pos b []) (Pos b []).
Proof. constructor. by left. Qed.

Lemma sem_bos s : sem Bos (Pos [] s) (Pos [] s).
Proof. by constructor. Qed.

(** ** Python string helpers *)

Lemma split_nonempty sep s : exists w ws, split sep s = w :: ws.
Proof.
  induction s as [|a s (w & ws & IH)]; simpl; [by eauto|].
  case_bool_decide; [by eauto|]. rewrite IH. eauto.
Qed.

Lemma split_nosep sep s : sep ∉ s -> split sep s = [s].
Proof.
  induction s as [|a s IH]; intros H; simpl; [done|].
  apply not_elem_of_cons in H as [Hne H].
  rewrite bool_decide_false by congruence. by rewrite IH.
Qed.

Lemma split_sep sep l d :
  sep ∉ l -> split sep (l ++ sep :: d) = l :: split sep d.
Proof.
  induction l as [|a l IH]; intros H; simpl.
  - by rewrite bool_decide_true.
  - apply not_elem_of_cons in H as [Hne H].
    rewrite bool_decide_false by congruence. by rewrite IH.
Qed.

Lemma split_second sep s w :
  split sep s !! 1%nat = Some w ->
  exists l d, s = l ++ (sep :: d) /\ (sep ∉ l) /\ split sep s = l :: split sep d.
Proof.
  intros H. destruct (decide (sep ∈ s)) as [Hin|Hnin].
  - apply list_elem_of_split_l in Hin as (l & d & -> & Hl).
    exists l, d. by rewrite split_sep.
  - rewrite split_nosep in H by done. discriminate.
Qed.

Lemma startswith_refl s : startswith s s = true.
Proof. unfold startswith. by apply bool_decide_eq_true. Qed.

Lemma suffix_contains sub s : sub `suffix_of` s -> contains sub s = true.
Proof.
  intros [k ->]. induction k as [|a k IH].
  - destruct sub; cbn [contains app]; by rewrite startswith_refl.
  - cbn [contains app]. rewrite IH. apply orb_true_r.
Qed.

Lemma lower_char_at : lower_char "@" = "@"%char.
Proof. reflexivity. Qed.

Lemma lower_keeps_at e : "@"%char ∈ e -> "@"%char ∈ lower e.
Proof.
  intros H. unfold lower. rewrite <- lower_char_at.
  apply list_elem_of_fmap. exists "@"%char. by rewrite lower_char_at.
Qed.

Lemma existsb_false {A} (f : A -> bool) l x :
  existsb f l = false -> x ∈ l -> f x = false.
Proof.
  intros H Hx. destruct (f x) eqn:Hf; [|done].
  rewrite <- H. symmetry. apply existsb_exists. exists x.
  split; [by apply list_elem_of_In | done].
Qed.

(** ** The exclusion patterns of [extract_emails] *)

Lemma Forall_hex w : Forall is_hex w -> Forall (fun a => hex a = true) w.
Proof. done. Qed.

Lemma md5_pattern_matches l d :
  md5_shaped l ->
  re_match (seq [Bos; exactly 32 (Class hex); ch "@"]) (l ++ "@"%char :: d) = true.
Proof.
  intros [Hlen Hhex]. apply re_match_spec.
  exists (Pos ("@"%char :: rev l ++ []) d). unfold start. simpl.
  eapply sem_Cat; [apply sem_bos|].
  eapply sem_Cat; [by apply sem_exactly_class|].
  eapply sem_Cat; [by apply sem_ch | constructor].
Qed.

Lemma uuid_pattern_matches l d :
  uuid_shaped l ->
  re_match (seq [Bos; exactly 8 (Class hex); exactly 4 (Class hex);
                 exactly 4 (Class hex); exactly 4 (Class hex);
                 exactly 12 (Class hex); ch "@"]) (l ++ "@"%char :: d) = true.
Proof.
  intros (a & b & c & d' & e & -> & Ha & Hb & Hc & Hd & He & Hhex).
  apply Forall_app in Hhex as [Hxa Hhex].
  apply Forall_app in Hhex as [Hxb Hhex].
  apply Forall_app in Hhex as [Hxc Hhex].
  apply Forall_app in Hhex as [Hxd Hxe].
  apply re_match_spec. eexists. unfold start. simpl.
  rewrite <- !app_assoc.
  eapply sem_Cat; [apply sem_bos|].
  eapply sem_Cat; [by apply sem_exactly_class|].
  eapply sem_Cat; [by apply sem_exactly_class|].
  eapply sem_Cat; [by apply sem_exactly_class|].
  eapply sem_Cat; [by apply sem_exactly_class|].
  eapply sem_Cat; [by apply sem_exactly_class|].
  eapply sem_Cat; [by apply sem_ch | constructor].
Qed.

(** ** Candidates of the e-mail pattern carry an at sign *)

Lemma sem_Cat_inv r1 r2 p e :
  sem (Cat r1 r2) p e -> exists q, sem r1 p q /\ sem r2 q e.
Proof. inversion 1; subst; eauto. Qed.

Lemma sem_after r p q : sem r p q -> exists w, after p = w ++ after q.
Proof.
  intros H. destruct (proj1 sem_consumes r p q H) as (w & Hw & _). eauto.
Qed.

Lemma email_match_has_at p q :
  sem email_pattern p q -> "@"%char ∈ between p q.
Proof.
  unfold email_pattern, seq. simpl. intros H.
  apply sem_Cat_inv in H as (p0 & H0 & H).
  apply sem_Cat_inv in H as (p1 & H1 & H).
  apply sem_Cat_inv in H as (p2 & H2 & H).
  apply sem_Cat_inv in H as (p3 & H3 & H).
  apply sem_after in H0 as [w0 E0], H1 as [w1 E1], H2 as [w2 E2],
    H as [w4 E4].
  inversion H3 as [|c a rest p' Ha Hc| | | | | | | |]; subst.
  unfold is_char in Hc. apply bool_decide_eq_true in Hc. subst a.
  simpl in E4.
  rewrite (between_app p q (w0 ++ w1 ++ w2 ++ "@"%char :: w4)).
  - rewrite !elem_of_app. right. right. right. apply elem_of_cons. by left.
  - rewrite E0, E1, E2, Ha, E4. by rewrite <- !app_assoc.
Qed.

Lemma findall_email_has_at text c :
  c ∈ findall email_pattern text -> "@"%char ∈ c.
Proof.
  intros H. apply findall_sound in H as (p & q & Hsem & ->).
  by apply email_match_has_at.
Qed.

(** ** The loop body of [extract_emails] *)

Lemma email_step_returns e :
  "@"%char ∈ e -> exists o, email_step e = Return o.
Proof.
  intros H. apply lower_keeps_at in H.
  apply list_elem_of_split_l in H as (l & d & Heq & Hl).
  unfold email_step. rewrite Heq.
  destruct (existsb _ excluded_extensions); [by eauto|].
  destruct (existsb _ excluded_patterns); [by eauto|].
  rewrite split_sep by done.
  destruct (split_nonempty "@" d) as (w & ws & ->).
  change ((l :: w :: ws) !! 1%nat) with (Some w).
  change ((l :: w :: ws) !! 0%nat) with (Some l). cbv beta iota.
  destruct (existsb _ excluded_domains); [by eauto|].
  destruct (_ && _); eauto.
Qed.

Lemma excluded_domains_no_at d : d ∈ excluded_domains -> "@"%char ∉ d.
Proof.
  revert d. apply Forall_forall.
  apply (bool_decide_unpack _). by vm_compute.
Qed.

Lemma email_step_accepts e x :
  email_step e = Return (Some x) ->
  x = lower e /\
  (exists local_part domain_part,
     x = local_part ++ "@"%char :: domain_part /\ ("@"%char ∉ local_part) /\
     (domain_part ∉ excluded_domains) /\
     ~ md5_shaped local_part /\ ~ uuid_shaped local_part /\
     ~ keyboard_smash local_part) /\
  ~ ends_with_asset_extension x.
Proof.
  unfold email_step. set (x0 := lower e).
  destruct (existsb _ excluded_extensions) eqn:Hext; [discriminate|].
  destruct (existsb _ excluded_patterns) eqn:Hpat; [discriminate|].
  destruct (split "@" x0 !! 1%nat) as [dp|] eqn:Hdp; [|discriminate].
  destruct (existsb _ excluded_domains) eqn:Hdom; [discriminate|].
  destruct (split "@" x0 !! 0%nat) as [lp|] eqn:Hlp; [|discriminate].
  destruct (_ && _) eqn:Hks; [discriminate|].
  intros [= <-]. split; [done|].
  destruct (split_second _ _ _ Hdp) as (l & d & Hx & Hl & Hsplit).
  rewrite Hsplit in Hdp, Hlp. injection Hlp as <-.
  change ((l :: split "@" d) !! 1%nat) with (split "@" d !! 0%nat) in Hdp.
  split.
  - exists l, d. repeat split; [done | done | | | | ].
    + intros Hd.
      rewrite (split_nosep _ d) in Hdp by by apply excluded_domains_no_at.
      injection Hdp as <-.
      apply (existsb_false _ _ d Hdom) in Hd.
      by apply bool_decide_eq_false in Hd.
    + intros Hmd5. apply (md5_pattern_matches l d) in Hmd5.
      rewrite <- Hx in Hmd5.
      rewrite (existsb_false _ _ _ Hpat) in Hmd5; [discriminate|].
      unfold excluded_patterns. apply elem_of_cons. by left.
    + intros Huuid. apply (uuid_pattern_matches l d) in Huuid.
      rewrite <- Hx in Huuid.
      rewrite (existsb_false _ _ _ Hpat) in Huuid; [discriminate|].
      unfold excluded_patterns. apply elem_of_cons. right.
      apply elem_of_cons. by left.
    + intros [Hd Hlen]. apply andb_false_iff in Hks as [Hks|Hks].
      * apply Nat.leb_gt in Hks. lia.
      * apply Nat.ltb_ge in Hks. lia.
  - intros (ext & Hin & Hsuf). apply suffix_contains in Hsuf.
    by rewrite (existsb_false _ _ ext Hext Hin) in Hsuf.
Qed.

Lemma emails_loop_spec cands : forall acc,
  (forall c, c ∈ cands -> "@"%char ∈ c) ->
  exists emails, emails_loop cands acc = Return emails /\
    forall e, e ∈ emails <->
      e ∈ acc \/ exists c, c ∈ cands /\ email_step c = Return (Some e).
Proof.
  induction cands as [|c cands IH]; intros acc Hat; simpl.
  - exists acc. split; [done|]. intros e. split; [by left|].
    intros [H|(c & Hc & _)]; [done | by apply elem_of_nil in Hc].
  - destruct (email_step_returns c) as [o Ho]; [apply Hat; by left|].
    rewrite Ho.
    assert (Hat' : forall c0, c0 ∈ cands -> "@"%char ∈ c0).
    { intros c0 Hc0. apply Hat. by right. }
    destruct o as [x|].
    + destruct (IH ({[x]} ∪ acc) Hat') as (emails & -> & Hspec).
      exists emails. split; [done|]. intros e. rewrite Hspec.
      rewrite elem_of_union, elem_of_singleton. split.
      * intros [[->|H]|(c0 & Hc0 & Hs)]; [right | by left | right].
        -- exists c. split; [by left | done].
        -- exists c0. split; [by right | done].
      * intros [H|(c0 & Hc0 & Hs)]; [by left; right|].
        apply elem_of_cons in Hc0 as [->|Hc0].
        -- rewrite Ho in Hs. injection Hs as ->. by left; left.
        -- right. eauto.
    + destruct (IH acc Hat') as (emails & -> & Hspec).
      exists emails. split; [done|]. intros e. rewrite Hspec. split.
      * intros [H|(c0 & Hc0 & Hs)]; [by left | right].
        exists c0. split; [by right | done].
      * intros [H|(c0 & Hc0 & Hs)]; [by left|].
        apply elem_of_cons in Hc0 as [->|Hc0].
        -- rewrite Ho in Hs. discriminate.
        -- right. eauto.
Qed.

(** [extract_emails] always returns, and its result is the set of the
    accepted candidates. *)
Lemma extract_emails_spec text :
  exists emails, extract_emails text = Return emails /\
    forall e, e ∈ emails <->
      exists c, c ∈ findall email_pattern text /\ email_step c = Return (Some e).
Proof.
  destruct (emails_loop_spec (findall email_pattern text) ∅)
    as (emails & Hrun & Hspec).
  - apply findall_email_has_at.
  - exists emails. split; [done|]. intros e. rewrite Hspec.
    split; [intros [H|H]; [by apply not_elem_of_empty in H | done] | by right].
Qed.


Example extract_emails_example :
  extract_emails (lit "write to john.doe@example.com or Sales@Acme.io") =
  Return {[ lit "sales@acme.io" ]}.
Proof. vm_compute. reflexivity. Qed.

(** ** Digits *)

Lemma digit_spec a : digit a = true <-> 48 <= nat_of_ascii a <= 57.
Proof.
  unfold digit, in_range.
  change (nat_of_ascii "0") with 48. change (nat_of_ascii "9") with 57.
  rewrite andb_true_iff, !Nat.leb_le. done.
Qed.





Lemma startswith_cons_ne c a s : a <> c -> startswith [c] (a :: s) = false.
Proof.
  intros Hne. unfold startswith. apply bool_decide_eq_false.
  intros [k Hk]. simpl in Hk. congruence.
Qed.

Lemma startswith_cons c s : startswith [c] (c :: s) = true.
Proof. unfold startswith. apply bool_decide_eq_true. by exists s. Qed.




(** ** The date patterns *)





(** ** The address pattern *)


(** ** The pattern of digits counting up *)


Lemma ascending_cons a b s :
  ascending (a :: b :: s) <->
  nat_of_ascii b = S (nat_of_ascii a) /\ ascending (b :: s).
Proof. done. Qed.



Lemma ascending_bound s : forall a,
  Forall is_digit (a :: s) -> ascending (a :: s) ->
  nat_of_ascii a + length s <= 57.
Proof.
  induction s as [|b s IH]; intros a Hd Hasc.
  - apply Forall_cons in Hd as [Ha _]. apply digit_spec in Ha. simpl. lia.
  - apply Forall_cons in Hd as [_ Hd].
    apply ascending_cons in Hasc as [Hab Hasc].
    specialize (IH b Hd Hasc). simpl. lia.
Qed.

Lemma ascending_run_length s : ascending_run s -> length s <= 10.
Proof.
  intros (Hne & Hd & Hasc). destruct s as [|a s]; [done|].
  pose proof (ascending_bound s a Hd Hasc) as Hb.
  apply Forall_cons in Hd as [Ha _]. apply digit_spec in Ha. simpl. lia.
Qed.

(** ** Timestamps *)





(** ** The loop body of [filter_phone_numbers] *)










End ExtractorsFacts.


(** * Properties of the robots rules *)
Module RobotsFacts.
Import Py Robots.












End RobotsFacts.


(** * Properties of the Shodan batch lookup *)
Module ShodanFacts.
Import Shodan.

Section batch.
Variable host : str -> host_outcome.

Lemma lookup_ip_entry st ip :
  fst (lookup_ip host st ip) = <[ip := entry_of (host ip)]> (fst st).
Proof. unfold lookup_ip, entry_of. by destruct (host ip). Qed.

(** An address that is not queried keeps its entry. *)
Lemma foldl_lookup_other ips : forall st ip,
  ip ∉ ips -> fst (foldl (lookup_ip host) st ips) !! ip = fst st !! ip.
Proof.
  induction ips as [|x ips IH]; intros st ip Hnin; simpl; [done|].
  apply not_elem_of_cons in Hnin as [Hne Hnin].
  rewrite IH by done. rewrite lookup_ip_entry. by apply lookup_insert_ne.
Qed.

(** Every queried address has the entry of its own outcome, whatever
    happened to the others. *)
Lemma foldl_lookup_entry ips : forall st ip,
  ip ∈ ips ->
  fst (foldl (lookup_ip host) st ips) !! ip = Some (entry_of (host ip)).
Proof.
  induction ips as [|x ips IH]; intros st ip Hin; simpl.
  - by apply elem_of_nil in Hin.
  - destruct (decide (ip ∈ ips)) as [Hin'|Hnin]; [by apply IH|].
    apply elem_of_cons in Hin as [->|Hin]; [|done].
    rewrite foldl_lookup_other by done.
    rewrite lookup_ip_entry. apply lookup_insert_eq.
Qed.

Lemma sets_le_refl s : sets_le s s.
Proof. by repeat split. Qed.

Lemma sets_le_trans a b c : sets_le a b -> sets_le b c -> sets_le a c.
Proof.
  intros (H1 & H2 & H3 & H4 & H5) (G1 & G2 & G3 & G4 & G5).
  repeat split; set_solver.
Qed.

Lemma update_if_nonempty_spec `{Countable A} (l : list A) (s : gset A) x :
  x ∈ update_if_nonempty l s <-> x ∈ l \/ x ∈ s.
Proof.
  unfold update_if_nonempty. destruct l as [|a l].
  - split; [by right|]. intros [Hx|Hx]; [by apply elem_of_nil in Hx | done].
  - by rewrite elem_of_union, elem_of_list_to_set.
Qed.

Lemma add_if_truthy_spec o s x :
  x ∈ add_if_truthy o s <-> (o = Some x /\ x <> []) \/ x ∈ s.
Proof.
  unfold add_if_truthy. destruct o as [[|a v]|]; simpl.
  - split; [by right|]. by intros [[[= <-] Hne]|Hx].
  - rewrite elem_of_union, elem_of_singleton. split.
    + intros [->|Hx]; [by left | by right].
    + intros [[[= <-] _]|Hx]; [by left | by right].
  - split; [by right|]. by intros [[? _]|Hx].
Qed.

Lemma update_summary_le h s : sets_le s (update_summary h s).
Proof.
  repeat split; simpl; intros x Hx;
    first [ apply update_if_nonempty_spec | apply add_if_truthy_spec ];
    by right.
Qed.

Lemma lookup_ip_le st ip : sets_le (snd st) (snd (lookup_ip host st ip)).
Proof.
  unfold lookup_ip. destruct (host ip); simpl;
    [apply update_summary_le | apply sets_le_refl | apply sets_le_refl].
Qed.

Lemma foldl_lookup_le ips : forall st,
  sets_le (snd st) (snd (foldl (lookup_ip host) st ips)).
Proof.
  induction ips as [|x ips IH]; intros st; simpl; [apply sets_le_refl|].
  eapply sets_le_trans; [apply lookup_ip_le | apply IH].
Qed.

(** The record of a successful query is in the sets once the loop ends. *)
Lemma foldl_lookup_host ips : forall st ip h,
  ip ∈ ips -> host ip = Host h ->
  sets_le (update_summary h empty_sets) (snd (foldl (lookup_ip host) st ips)).
Proof.
  induction ips as [|x ips IH]; intros st ip h Hin Hh; simpl.
  - by apply elem_of_nil in Hin.
  - apply elem_of_cons in Hin as [<-|Hin]; [|by eapply IH].
    eapply sets_le_trans; [|apply foldl_lookup_le].
    unfold lookup_ip. rewrite Hh. simpl.
    repeat split; simpl; intros y Hy;
      first [ apply update_if_nonempty_spec; apply update_if_nonempty_spec in Hy
            | apply add_if_truthy_spec; apply add_if_truthy_spec in Hy ];
      destruct Hy as [Hy|Hy]; (by left) || by apply not_elem_of_empty in Hy.
Qed.

End batch.

Lemma elem_of_sorted_Z s x : x ∈ sorted_Z s <-> x ∈ s.
Proof. unfold sorted_Z. by rewrite merge_sort_Permutation, elem_of_elements. Qed.

Lemma elem_of_sorted_str s x : x ∈ sorted_str s <-> x ∈ s.
Proof. unfold sorted_str. by rewrite merge_sort_Permutation, elem_of_elements. Qed.

Lemma contributes_finish h s :
  sets_le (update_summary h empty_sets) s -> contributes h (finish s).
Proof.
  intros (H1 & H2 & H3 & H4 & H5). unfold contributes, finish. simpl in *.
  repeat split.
  - intros p Hp. apply elem_of_sorted_Z, H1, update_if_nonempty_spec. by left.
  - intros n Hn. apply elem_of_sorted_str, H2, update_if_nonempty_spec. by left.
  - intros o Ho Hne. apply elem_of_sorted_str, H3, add_if_truthy_spec. by left.
  - intros i Hi Hne. apply elem_of_sorted_str, H4, add_if_truthy_spec. by left.
  - intros v Hv. apply elem_of_sorted_str, H5, update_if_nonempty_spec. by left.
Qed.

(** C8.  With an API key, a batch lookup over a non-empty list of addresses
    never ends in a top-level error: it returns per-address data and a
    summary.  Every address whose query returned a host record has that
    record as its entry and its ports, hostnames, organisation, ISP and
    vulnerability ids in the summary; every address whose query failed has
    an error entry of its own. *)
Theorem fetch_shodan_isolates_failures (host : str -> host_outcome)
    (ip_addresses : list str) (api_key : str) :
  api_key <> [] -> ip_addresses <> [] ->
  exists data_by_ip summ,
    fetch_shodan host ip_addresses (Some api_key)
      = Results ip_addresses data_by_ip summ /\
    forall ip, ip ∈ ip_addresses ->
      match host ip with
      | Host h => data_by_ip !! ip = Some (HostData h) /\ contributes h summ
      | APIError value =>
          data_by_ip !! ip = Some (ErrorEntry value (Some value))
      | OtherError msg =>
          data_by_ip !! ip =
            Some (ErrorEntry (lit "Unexpected error: " ++ msg) None)
      end.
Proof.
  intros Hkey Hips. unfold fetch_shodan.
  destruct api_key as [|c key]; [done|]. simpl.
  destruct ip_addresses as [|ip0 ips]; [done|].
  eexists _, _. split; [reflexivity|].
  intros ip Hin.
  pose proof (foldl_lookup_entry host (ip0 :: ips) (∅, empty_sets) ip Hin) as He.
  destruct (host ip) as [h|value|msg] eqn:Hh; simpl in He; [|done|done].
  split; [done|].
  apply contributes_finish. by eapply foldl_lookup_host.
Qed.

Lemma fetch_shodan_isolates_failures_witness :
  exists data_by_ip summ,
    fetch_shodan sample_host [lit "1.2.3.4"; lit "bad-ip"] (Some (lit "key"))
      = Results [lit "1.2.3.4"; lit "bad-ip"] data_by_ip summ /\
    forall ip, ip ∈ [lit "1.2.3.4"; lit "bad-ip"] ->
      match sample_host ip with
      | Host h => data_by_ip !! ip = Some (HostData h) /\ contributes h summ
      | APIError value =>
          data_by_ip !! ip = Some (ErrorEntry value (Some value))
      | OtherError msg =>
          data_by_ip !! ip =
            Some (ErrorEntry (lit "Unexpected error: " ++ msg) None)
      end.
Proof.
  apply (fetch_shodan_isolates_failures sample_host
           [lit "1.2.3.4"; lit "bad-ip"] (lit "key")); discriminate.
Defined.

(** The batch of the specification: the known address keeps its record,
    the refused one has an error entry. *)
Example fetch_shodan_sample :
  exists data_by_ip summ,
    fetch_shodan sample_host [lit "1.2.3.4"; lit "bad-ip"] (Some (lit "key"))
      = Results [lit "1.2.3.4"; lit "bad-ip"] data_by_ip summ /\
    data_by_ip !! lit "1.2.3.4" = Some (HostData sample_host_info) /\
    data_by_ip !! lit "bad-ip" =
      Some (ErrorEntry (lit "Invalid IP") (Some (lit "Invalid IP"))) /\
    sum_ports summ = [22; 80]%Z.
Proof.
  eexists _, _. split; [reflexivity|]. split; [|split]; by vm_compute.
Qed.

End ShodanFacts.


(** * Properties of the fetch layer *)
Module FetcherFacts.
Import Fetcher.

Section retries.
Variable time_time : nat -> Q.
Variable uniform : nat -> Q.
Variable _safe_get : nat -> str -> Z -> result exn FetchResponse.
Variable self : config.
Variables (url : str) (timeout retries : Z).

Lemma respect_politeness_frame st :
  files (_respect_politeness time_time self st) = files st /\
  draws (_respect_politeness time_time self st) = draws st /\
  requests (_respect_politeness time_time self st) = requests st.
Proof.
  unfold _respect_politeness. simpl. by destruct (Qlt_le_dec _ _).
Qed.

(** The politeness step adds at most one sleep to the trace. *)
Lemma respect_politeness_trace st :
  trace (_respect_politeness time_time self st) = trace st \/
  exists s, trace (_respect_politeness time_time self st) = trace st ++ [Sleep s].
Proof.
  unfold _respect_politeness. simpl.
  destruct (Qlt_le_dec _ _); simpl; eauto.
Qed.

(** The loop never touches the files of the cache directory. *)
Lemma retry_loop_frame fuel : forall attempt st,
  files (snd (retry_loop uniform _safe_get fuel url timeout attempt retries st))
  = files st.
Proof.
  induction fuel as [|fuel IH]; intros attempt st; simpl; [done|].
  destruct (attempt <? retries)%Z; [|done].
  destruct (_safe_get (requests st) url timeout) as [response|[msg|msg]];
    simpl; [done| |done].
  rewrite IH. by destruct (attempt + 1 <? retries)%Z.
Qed.

(** A failure of the [RequestException] family is caught at every attempt:
    when no other exception is raised, the loop returns. *)
Lemma retry_loop_returns fuel :
  (forall n u t msg, _safe_get n u t <> Raise (OtherException msg)) ->
  forall attempt st, exists o,
    fst (retry_loop uniform _safe_get fuel url timeout attempt retries st)
    = Return o.
Proof.
  intros Hno. induction fuel as [|fuel IH]; intros attempt st; simpl;
    [by eauto|].
  destruct (attempt <? retries)%Z; [|by eauto].
  destruct (_safe_get (requests st) url timeout) as [response|[msg|msg]] eqn:Hg;
    simpl; [by eauto | apply IH | by destruct (Hno _ _ _ _ Hg)].
Qed.

(** When every attempt fails, the loop makes them all and gives up. *)
Lemma retry_loop_all_fail fuel : forall attempt st,
  fuel = Z.to_nat (retries - attempt) ->
  (forall n, n < fuel ->
     exists msg, _safe_get (requests st + n) url timeout
                 = Raise (RequestException msg)) ->
  fst (retry_loop uniform _safe_get fuel url timeout attempt retries st)
    = Return None /\
  trace (snd (retry_loop uniform _safe_get fuel url timeout attempt retries st))
    = trace st ++ failed_attempts uniform url timeout fuel attempt (draws st).
Proof.
  induction fuel as [|fuel IH]; intros attempt st Hfuel Hfail.
  - simpl. by rewrite app_nil_r.
  - cbn [retry_loop].
    replace (attempt <? retries)%Z with true by (symmetry; apply Z.ltb_lt; lia).
    destruct (Hfail 0) as [msg Hg]; [lia|].
    rewrite Nat.add_0_r in Hg. unfold get. rewrite Hg.
    destruct fuel as [|fuel].
    + replace (attempt + 1 <? retries)%Z with false
        by (symmetry; apply Z.ltb_ge; lia).
      simpl. done.
    + replace (attempt + 1 <? retries)%Z with true
        by (symmetry; apply Z.ltb_lt; lia).
      edestruct (IH (attempt + 1)%Z) as [Hres Htrace]; [lia| |].
      2: { rewrite Hres, Htrace. split; [done|].
           cbn [failed_attempts backoff time_sleep trace draws].
           by rewrite <- !app_assoc. }
      intros n Hn. cbn [backoff time_sleep requests].
      destruct (Hfail (S n)) as [msg' Hg']; [lia|].
      exists msg'. rewrite <- Hg'. f_equal. lia.
Qed.

End retries.

Lemma requests_of_failed_attempts uniform url timeout n : forall attempt draw,
  requests_of (failed_attempts uniform url timeout n attempt draw)
  = replicate n url.
Proof.
  induction n as [|n IH]; intros attempt draw; [done|].
  cbn [failed_attempts]. destruct n as [|n]; [done|].
  cbn [requests_of omap list_omap] in *. by rewrite IH.
Qed.

Lemma sleeps_of_failed_attempts uniform url timeout n : forall attempt draw,
  sleeps_of (failed_attempts uniform url timeout n attempt draw)
  = map (fun i => (uniform (draw + i)%nat * inject_Z (attempt + 1 + Z.of_nat i)%Z)%Q)
      (seq 0 (pred n)).
Proof.
  induction n as [|n IH]; intros attempt draw; [done|].
  cbn [failed_attempts]. destruct n as [|n]; [done|].
  cbn [sleeps_of omap list_omap] in *. rewrite IH.
  cbn [pred seq map]. rewrite Nat.add_0_r, Z.add_0_r. f_equal.
  rewrite <- seq_shift, map_map. apply map_ext. intros i.
  f_equal; [f_equal; lia | f_equal; lia].
Qed.

(** A backoff after the k-th failed attempt lasts between 2k and 5k seconds. *)
Lemma backoff_range (u : Q) (k : Z) :
  (2 <= u <= 5)%Q -> (1 <= k)%Z ->
  (2 * inject_Z k <= u * inject_Z k <= 5 * inject_Z k)%Q.
Proof.
  intros [Hlo Hhi] Hk.
  assert (Hpos : (0 <= inject_Z k)%Q).
  { change 0%Q with (inject_Z 0). rewrite <- Zle_Qle. lia. }
  split; by apply Qmult_le_compat_r.
Qed.

(** [fetch] and [fetch_full_response] leave the cache directory as it was. *)
Lemma fetch_full_response_frame time_time uniform _safe_get self url force
    timeout retries st :
  files (snd (fetch_full_response time_time uniform _safe_get self url force
                timeout retries st)) = files st.
Proof.
  unfold fetch_full_response. rewrite retry_loop_frame.
  apply respect_politeness_frame.
Qed.

Lemma fetch_frame time_time uniform _safe_get decode self url force
    timeout retries st :
  files (snd (fetch time_time uniform _safe_get decode self url force
                timeout retries st)) = files st.
Proof.
  unfold fetch.
  pose proof (fetch_full_response_frame time_time uniform _safe_get self url
                force timeout retries st) as H.
  destruct (fetch_full_response _ _ _ _ _ _ _ _ _) as [[[r|]|e] st1];
    simpl in *; try done.
  by destruct (content r).
Qed.

(** C4, as amended.  While the request helper fails with an exception of
    the [requests.RequestException] family only, [fetch_full_response]
    returns and never raises.  When each of the [retries] attempts fails, it
    returns None after exactly [retries] requests, with one backoff between
    two requests: the k-th backoff lasts the k-th value of
    [random.uniform(2, 5)] times k, between 2k and 5k seconds. *)
Theorem fetch_full_response_retries (time_time uniform : nat -> Q)
    (_safe_get : nat -> str -> Z -> result exn FetchResponse) (self : config)
    (url : str) (force_download : bool) (timeout retries : Z) (st : state) :
  (forall k, (2 <= uniform k <= 5)%Q) ->
  (forall n u t msg, _safe_get n u t <> Raise (OtherException msg)) ->
  (exists o, fst (fetch_full_response time_time uniform _safe_get self url
                    force_download timeout retries st) = Return o) /\
  ((forall n, n < Z.to_nat retries ->
      exists msg, _safe_get (requests st + n) url timeout
                  = Raise (RequestException msg)) ->
   fst (fetch_full_response time_time uniform _safe_get self url
          force_download timeout retries st) = Return None /\
   exists events,
     trace (snd (fetch_full_response time_time uniform _safe_get self url
                   force_download timeout retries st))
       = trace (_respect_politeness time_time self st) ++ events /\
     events = failed_attempts uniform url timeout (Z.to_nat retries) 0 (draws st) /\
     requests_of events = replicate (Z.to_nat retries) url /\
     length (sleeps_of events) = pred (Z.to_nat retries) /\
     forall i s, sleeps_of events !! i = Some s ->
       s = (uniform (draws st + i)%nat * inject_Z (Z.of_nat i + 1))%Q /\
       (2 * inject_Z (Z.of_nat i + 1) <= s <= 5 * inject_Z (Z.of_nat i + 1))%Q).
Proof.
  intros Hu Hno. unfold fetch_full_response. split.
  - apply retry_loop_returns. exact Hno.
  - intros Hfail.
    destruct (respect_politeness_frame time_time self st) as (_ & Hd & Hr).
    destruct (retry_loop_all_fail uniform _safe_get url timeout retries
                (Z.to_nat retries) 0 (_respect_politeness time_time self st))
      as [Hres Htrace].
    { f_equal. lia. }
    { intros n Hn. rewrite Hr. by apply Hfail. }
    split; [exact Hres|]. eexists. split; [exact Htrace|].
    rewrite Hd. split; [done|].
    split; [apply requests_of_failed_attempts|].
    rewrite sleeps_of_failed_attempts.
    split; [by rewrite length_map, length_seq|].
    intros i s Hs. apply list_lookup_fmap_Some in Hs as (j & -> & Hj).
    apply (proj1 (lookup_seq _ _ _ _)) in Hj as [-> _]. simpl.
    replace (0 + 1 + Z.of_nat i)%Z with (Z.of_nat i + 1)%Z by lia.
    split; [done|]. apply backoff_range; [apply Hu | lia].
Qed.

Lemma fetch_full_response_retries_witness :
  (exists o, fst (fetch_full_response (fun _ => 100%Q) (fun _ => 3%Q)
                    (fun _ _ _ => Raise (RequestException (lit "timed out")))
                    sample_config sample_url false 30 3 (initial ∅)) = Return o) /\
  fst (fetch_full_response (fun _ => 100%Q) (fun _ => 3%Q)
         (fun _ _ _ => Raise (RequestException (lit "timed out")))
         sample_config sample_url false 30 3 (initial ∅)) = Return None.
Proof.
  destruct (fetch_full_response_retries (fun _ => 100%Q) (fun _ => 3%Q)
              (fun _ _ _ => Raise (RequestException (lit "timed out")))
              sample_config sample_url false 30 3 (initial ∅)) as [Ha Hb].
  - intros k. split; discriminate.
  - intros n u t msg H. discriminate H.
  - split; [exact Ha|]. apply Hb. intros n Hn. by eexists.
Defined.

(** Three attempts that time out: three requests, a backoff of 3 s and one
    of 6 s between them, and None. *)
Example fetch_full_response_three_failures :
  fetch_full_response (fun _ => 100%Q) (fun _ => 3%Q)
    (fun _ _ _ => Raise (RequestException (lit "timed out")))
    sample_config sample_url false 30 3 (initial ∅)
  = (Return None,
     {| last_request_time := 100; files := ∅; clock_reads := 2; draws := 2;
        requests := 3;
        trace := [ Request sample_url 30; Sleep (3 * inject_Z 1);
                   Request sample_url 30; Sleep (3 * inject_Z 2);
                   Request sample_url 30 ] |}).
Proof. reflexivity. Qed.

(** An exception outside the [requests.RequestException] family passes
    through [fetch_full_response] and [fetch] to the caller. *)
Lemma fetch_raises_other_exception :
  fst (fetch_full_response (fun _ => 100%Q) (fun _ => 3%Q)
         (fun _ _ _ => Raise (OtherException (lit "label empty or too long")))
         sample_config sample_url false 30 3 (initial ∅))
    = Raise (OtherException (lit "label empty or too long")) /\
  fst (fetch (fun _ => 100%Q) (fun _ => 3%Q)
         (fun _ _ _ => Raise (OtherException (lit "label empty or too long")))
         utf8 sample_config sample_url false 30 3 (initial ∅))
    = Raise (OtherException (lit "label empty or too long")).
Proof. split; reflexivity. Qed.

(** C1.  The cache directory holds a copy of the page, [_check_cache] would
    find it, and [fetch] with [force_download=False] still sends a request
    and returns what the network served; after the successful download the
    cache directory is what it was, and an empty one stays empty. *)
Theorem fetch_ignores_cache (md5_hexdigest : str -> str)
    (fs : gmap str str) (page : str) :
  _check_cache md5_hexdigest sample_config sample_url
    (initial (<[_get_cache_path md5_hexdigest sample_config sample_url := page]> fs))
    = Some page /\
  fst (fetch (fun _ => 100%Q) (fun _ => 3%Q) (fun _ _ _ => Return sample_response)
         utf8 sample_config sample_url false 30 3
         (initial (<[_get_cache_path md5_hexdigest sample_config sample_url := page]> fs)))
    = Return (Some (lit "fresh page")) /\
  requests_of (trace (snd
    (fetch (fun _ => 100%Q) (fun _ => 3%Q) (fun _ _ _ => Return sample_response)
       utf8 sample_config sample_url false 30 3
       (initial (<[_get_cache_path md5_hexdigest sample_config sample_url := page]> fs)))))
    = [sample_url] /\
  files (snd
    (fetch (fun _ => 100%Q) (fun _ => 3%Q) (fun _ _ _ => Return sample_response)
       utf8 sample_config sample_url false 30 3
       (initial (<[_get_cache_path md5_hexdigest sample_config sample_url := page]> fs))))
    = <[_get_cache_path md5_hexdigest sample_config sample_url := page]> fs /\
  files (snd
    (fetch (fun _ => 100%Q) (fun _ => 3%Q) (fun _ _ _ => Return sample_response)
       utf8 sample_config sample_url false 30 3 (initial ∅))) = ∅.
Proof.
  split; [|split; [|split; [|split]]].
  - unfold _check_cache. simpl. apply lookup_insert_eq.
  - reflexivity.
  - reflexivity.
  - apply fetch_frame.
  - apply fetch_frame.
Qed.

End FetcherFacts.


(** * Properties of the profile store *)
Module OsintFacts.
Import Osint.

(** ** Resolve-or-create *)

Lemma find_snoc {A} (f : A -> bool) l x :
  List.find f (l ++ [x]) =
  match List.find f l with
  | Some y => Some y
  | None => if f x then Some x else None
  end.
Proof.
  induction l as [|a l IH]; simpl; [done|]. by destruct (f a).
Qed.

Lemma find_none_existsb {A} (f : A -> bool) l :
  existsb f l = false -> List.find f l = None.
Proof.
  induction l as [|a l IH]; simpl; [done|].
  destruct (f a); [done | exact IH].
Qed.

Lemma find_some_existsb {A} (f : A -> bool) l :
  existsb f l = true -> exists y, List.find f l = Some y.
Proof.
  induction l as [|a l IH]; simpl; [done|].
  destruct (f a); [by eauto | exact IH].
Qed.

(** For a company row the uniqueness key and the lookup key agree. *)
Lemma collides_company identifier i x :
  collides {| id := i; type := lit "company"; name := identifier;
              domain := Some identifier |} x
  = company_row identifier x.
Proof.
  unfold collides, company_row. simpl.
  destruct (domain x) as [dx|]; repeat case_bool_decide; simpl;
    congruence.
Qed.

Lemma existsb_ext {A} (f g : A -> bool) l :
  (forall x, f x = g x) -> existsb f l = existsb g l.
Proof. intros H. induction l as [|a l IH]; simpl; [done|]. by rewrite H, IH. Qed.

Lemma db_eta d : {| entities := entities d; osint_profiles := osint_profiles d |} = d.
Proof. by destruct d. Qed.

(** Resolving a domain twice gives one entity: the second call finds the
    row of the first. *)
Lemma get_or_create_domain_twice (identifier : str) (d : db) :
  identifier <> [] ->
  exists entity_id d1,
    _get_or_create_entity identifier (lit "domain") d = (Return entity_id, d1) /\
    _get_or_create_entity identifier (lit "domain") d1 = (Return entity_id, d1).
Proof.
  intros Hne.
  assert (Hnonempty : nonempty (Some identifier) = true).
  { by destruct identifier. }
  assert (Hstep : forall d0 : db,
    _get_or_create_entity identifier (lit "domain") d0 =
    if existsb (company_row identifier) (entities d0) then
      match select_id (company_row identifier) (entities d0) with
      | Some i => (Return i, d0)
      | None => (Raise (ValueError (lit "Entity exists (was ignored) but its ID could not be retrieved.")), d0)
      end
    else
      (Return (next_id (entities d0)),
       {| entities := entities d0 ++
            [ {| id := next_id (entities d0); type := lit "company";
                 name := identifier; domain := Some identifier |} ];
          osint_profiles := osint_profiles d0 |})).
  { intros d0. unfold _get_or_create_entity, insert_or_ignore.
    rewrite !bool_decide_true by done.
    rewrite (existsb_ext _ (company_row identifier))
      by (intros x; apply collides_company).
    destruct (existsb (company_row identifier) (entities d0)); [|done].
    cbn [Z.ltb Z.compare]. rewrite Hnonempty. cbn [andb].
    rewrite db_eta. unfold select_id, company_row. done. }
  rewrite Hstep.
  destruct (existsb (company_row identifier) (entities d)) eqn:Hex.
  - destruct (find_some_existsb _ _ Hex) as [y Hy].
    unfold select_id. rewrite Hy. simpl.
    exists (id y), d. split; [done|].
    rewrite Hstep, Hex. unfold select_id. by rewrite Hy.
  - eexists _, _. split; [reflexivity|].
    rewrite Hstep. cbn [entities osint_profiles].
    rewrite existsb_app. cbn [existsb].
    assert (Hrow : company_row identifier
              {| id := next_id (entities d); type := lit "company";
                 name := identifier; domain := Some identifier |} = true).
    { unfold company_row. simpl. by rewrite !bool_decide_true. }
    rewrite Hrow, orb_true_r. cbn [orb].
    unfold select_id. rewrite find_snoc, (find_none_existsb _ _ Hex), Hrow.
    done.
Qed.

(** C3.  Resolving the username alice twice on an empty store inserts two
    rows and returns two entity ids: with a NULL domain no row collides
    under the uniqueness key, so the lookup branch for persons is never
    reached. *)
Theorem get_or_create_person_twice :
  _get_or_create_entity (lit "alice") (lit "username") empty_db
    = (Return 1%Z,
       {| entities := [ {| id := 1; type := lit "person"; name := lit "alice";
                           domain := None |} ];
          osint_profiles := [] |}) /\
  _get_or_create_entity (lit "alice") (lit "username")
    {| entities := [ {| id := 1; type := lit "person"; name := lit "alice";
                        domain := None |} ];
       osint_profiles := [] |}
    = (Return 2%Z,
       {| entities := [ {| id := 1; type := lit "person"; name := lit "alice";
                           domain := None |};
                        {| id := 2; type := lit "person"; name := lit "alice";
                           domain := None |} ];
          osint_profiles := [] |}).
Proof. split; reflexivity. Qed.

(** The same two calls for a domain return one id. *)
Example get_or_create_domain_example :
  _get_or_create_entity (lit "example.com") (lit "domain") empty_db
    = (Return 1%Z,
       {| entities := [ {| id := 1; type := lit "company";
                           name := lit "example.com";
                           domain := Some (lit "example.com") |} ];
          osint_profiles := [] |}) /\
  fst (_get_or_create_entity (lit "example.com") (lit "domain")
         {| entities := [ {| id := 1; type := lit "company";
                             name := lit "example.com";
                             domain := Some (lit "example.com") |} ];
            osint_profiles := [] |})
    = Return 1%Z.
Proof. split; reflexivity. Qed.

(** ** Saving a profile snapshot *)

Lemma same_key_spec eid src r :
  same_key eid src r = true <-> entity_id r = eid /\ source r = src.
Proof.
  unfold same_key. rewrite andb_true_iff, !bool_decide_eq_true. done.
Qed.




Section saves.
Variable data_t : Type.
Variable is_empty : data_t -> bool.
Variable dumps_standardized : data_t -> str.
Variable dumps_structured : data_t -> str -> str.
Variable updated_at_default : Z -> option Z.

Abbreviation upsert := (upsert updated_at_default).
Abbreviation save_profile :=
  (_save_osint_profile data_t is_empty dumps_standardized dumps_structured
     updated_at_default).
Abbreviation run := (run_saves data_t is_empty dumps_standardized dumps_structured
                   updated_at_default).






End saves.



(** Two saves of the same pair: one row, the second save's values. *)
Example save_twice_example :
  osint_profiles
    (run_saves _ sample_is_empty sample_dumps sample_structured Some
       [ sample_save [(lit "registrar", lit "A")] 10;
         sample_save [(lit "registrar", lit "B")] 20 ] empty_db)
  = [ {| entity_id := 1; source := lit "domain";
         raw_data := lit "registrar=B;";
         extracted_fields := lit "domain:registrar";
         updated_at := Some 20%Z |} ].
Proof. reflexivity. Qed.

End OsintFacts.


(** * More on the fetch layer *)
Module FetcherMore.
Import Fetcher FetcherSamples.


Lemma sleeps_of_app a b : sleeps_of (a ++ b) = sleeps_of a ++ sleeps_of b.
Proof. apply omap_app. Qed.

Section loop.
Variable time_time : nat -> Q.
Variable uniform : nat -> Q.
Variable _safe_get : nat -> str -> Z -> result exn FetchResponse.
Variable self : config.
Variables (url : str) (timeout retries : Z).



(** The loop stops at the first attempt that succeeds. *)
Lemma retry_loop_first_success k : forall fuel attempt st r,
  k < fuel -> fuel = Z.to_nat (retries - attempt) ->
  (forall n, n < k ->
     exists msg, _safe_get (requests st + n) url timeout
                 = Raise (RequestException msg)) ->
  _safe_get (requests st + k) url timeout = Return r ->
  fst (retry_loop uniform _safe_get fuel url timeout attempt retries st)
    = Return (Some r) /\
  trace (snd (retry_loop uniform _safe_get fuel url timeout attempt retries st))
    = trace st ++ failed_attempts uniform url timeout (S k) attempt (draws st).
Proof.
  induction k as [|k IH]; intros fuel attempt st r Hk Hfuel Hfail Hok.
  - destruct fuel as [|fuel]; [lia|]. cbn [retry_loop].
    replace (attempt <? retries)%Z with true by (symmetry; apply Z.ltb_lt; lia).
    rewrite Nat.add_0_r in Hok. unfold get. rewrite Hok. done.
  - destruct fuel as [|fuel]; [lia|]. cbn [retry_loop].
    replace (attempt <? retries)%Z with true by (symmetry; apply Z.ltb_lt; lia).
    destruct (Hfail 0) as [msg Hg]; [lia|].
    rewrite Nat.add_0_r in Hg. unfold get. rewrite Hg.
    replace (attempt + 1 <? retries)%Z with true
      by (symmetry; apply Z.ltb_lt; lia).
    edestruct (IH fuel (attempt + 1)%Z) as [Hres Htrace]; [lia|lia| | |].
    3: { rewrite Hres, Htrace. split; [done|].
         cbn [failed_attempts backoff time_sleep trace draws].
         by rewrite <- !app_assoc. }
    + intros n Hn. cbn [backoff time_sleep requests].
      destruct (Hfail (S n)) as [msg' Hg']; [lia|].
      exists msg'. rewrite <- Hg'. f_equal. lia.
    + cbn [backoff time_sleep requests]. rewrite <- Hok. f_equal. lia.
Qed.

(** The loop sleeps for positive times only. *)
Lemma retry_loop_sleeps fuel :
  (forall k, (2 <= uniform k <= 5)%Q) ->
  forall attempt st, (0 <= attempt)%Z ->
  Forall (fun s => (0 < s)%Q) (sleeps_of (trace st)) ->
  Forall (fun s => (0 < s)%Q)
    (sleeps_of
       (trace (snd (retry_loop uniform _safe_get fuel url timeout attempt retries st)))).
Proof.
  intros Hu. induction fuel as [|fuel IH]; intros attempt st Ha Hst; simpl;
    [done|].
  destruct (attempt <? retries)%Z; [|done].
  destruct (_safe_get (requests st) url timeout) as [response|[msg|msg]]; simpl.
  - rewrite sleeps_of_app. simpl. by rewrite app_nil_r.
  - apply IH; [lia|].
    destruct (attempt + 1 <? retries)%Z; simpl.
    + rewrite !sleeps_of_app. simpl. rewrite app_nil_r.
      apply Forall_app. split; [done|]. apply Forall_singleton.
      destruct (Hu (draws st)) as [Hlo _].
      apply Qmult_lt_0_compat.
      * eapply Qlt_le_trans; [|exact Hlo]. done.
      * change 0%Q with (inject_Z 0). rewrite <- Zlt_Qlt. lia.
    + rewrite sleeps_of_app. simpl. by rewrite app_nil_r.
  - rewrite sleeps_of_app. simpl. by rewrite app_nil_r.
Qed.

Lemma respect_politeness_sleeps st :
  Forall (fun s => (0 < s)%Q) (sleeps_of (trace st)) ->
  Forall (fun s => (0 < s)%Q)
    (sleeps_of (trace (_respect_politeness time_time self st))).
Proof.
  intros Hst. unfold _respect_politeness. simpl.
  destruct (Qlt_le_dec _ _) as [Hlt|Hge]; [|done]. simpl.
  rewrite sleeps_of_app. simpl. apply Forall_app. split; [done|].
  apply Forall_singleton. by apply (proj1 (Qlt_minus_iff _ _)).
Qed.

End loop.



(** When the first [k] attempts fail with a [RequestException] and the next
    one, still within [retries], is answered, [fetch_full_response] returns
    that response after [k + 1] requests and [k] backoffs, and makes no
    further attempt. *)
Theorem fetch_full_response_first_success (time_time uniform : nat -> Q)
    (_safe_get : nat -> str -> Z -> result exn FetchResponse) (self : config)
    (url : str) (force_download : bool) (timeout retries : Z) (st : state)
    (k : nat) (r : FetchResponse) :
  k < Z.to_nat retries ->
  (forall n, n < k ->
     exists msg, _safe_get (requests st + n) url timeout
                 = Raise (RequestException msg)) ->
  _safe_get (requests st + k) url timeout = Return r ->
  fst (fetch_full_response time_time uniform _safe_get self url force_download
         timeout retries st) = Return (Some r) /\
  exists events,
    trace (snd (fetch_full_response time_time uniform _safe_get self url
                  force_download timeout retries st))
      = trace (_respect_politeness time_time self st) ++ events /\
    events = failed_attempts uniform url timeout (S k) 0 (draws st) /\
    requests_of events = replicate (S k) url /\
    length (sleeps_of events) = k.
Proof.
  intros Hk Hfail Hok. unfold fetch_full_response.
  destruct (FetcherFacts.respect_politeness_frame time_time self st)
    as (_ & Hd & Hr).
  destruct (retry_loop_first_success uniform _safe_get url timeout retries k
              (Z.to_nat retries) 0 (_respect_politeness time_time self st) r)
    as [Hres Htrace]; [done | f_equal; lia | | |].
  - intros n Hn. rewrite Hr. by apply Hfail.
  - by rewrite Hr.
  - split; [exact Hres|]. eexists. split; [exact Htrace|].
    rewrite Hd. split; [done|].
    split; [apply FetcherFacts.requests_of_failed_attempts|].
    rewrite FetcherFacts.sleeps_of_failed_attempts.
    by rewrite length_map, length_seq.
Qed.

Lemma fetch_full_response_first_success_witness :
  fst (fetch_full_response (fun _ => 100%Q) (fun _ => 3%Q) answers_third
         sample_config sample_url false 30 3 (initial ∅))
    = Return (Some sample_response) /\
  exists events,
    trace (snd (fetch_full_response (fun _ => 100%Q) (fun _ => 3%Q)
                  answers_third sample_config sample_url false 30 3 (initial ∅)))
      = trace (_respect_politeness (fun _ => 100%Q) sample_config (initial ∅))
          ++ events /\
    events = failed_attempts (fun _ => 3%Q) sample_url 30 3 0 0 /\
    requests_of events = replicate 3 sample_url /\
    length (sleeps_of events) = 2.
Proof.
  apply (fetch_full_response_first_success (fun _ => 100%Q) (fun _ => 3%Q)
           answers_third sample_config sample_url false 30 3 (initial ∅) 2
           sample_response).
  - simpl. lia.
  - intros n Hn. exists (lit "timed out"). simpl. unfold answers_third.
    destruct n as [|[|n]]; [reflexivity | reflexivity | lia].
  - reflexivity.
Defined.

(** Every [time.sleep] of a fetch has a positive argument: the politeness
    wait is taken only when the elapsed time is short of the minimum delay,
    and a backoff is a value of [random.uniform(2, 5)] times an attempt
    number from 1 on. *)
Theorem fetch_full_response_sleeps_positive (time_time uniform : nat -> Q)
    (_safe_get : nat -> str -> Z -> result exn FetchResponse) (self : config)
    (url : str) (force_download : bool) (timeout retries : Z) (st : state) :
  (forall k, (2 <= uniform k <= 5)%Q) ->
  Forall (fun s => (0 < s)%Q) (sleeps_of (trace st)) ->
  Forall (fun s => (0 < s)%Q)
    (sleeps_of (trace (snd (fetch_full_response time_time uniform _safe_get
                              self url force_download timeout retries st)))).
Proof.
  intros Hu Hst. unfold fetch_full_response.
  apply retry_loop_sleeps; [done | lia |].
  by apply respect_politeness_sleeps.
Qed.

Lemma fetch_full_response_sleeps_positive_witness :
  Forall (fun s => (0 < s)%Q)
    (sleeps_of (trace (snd (fetch_full_response (fun n => inject_Z (Z.of_nat n) / 2)%Q
                              (fun _ => 3%Q) answers_third sample_config
                              sample_url false 30 3 (initial ∅))))).
Proof.
  apply (fetch_full_response_sleeps_positive (fun n => inject_Z (Z.of_nat n) / 2)%Q
           (fun _ => 3%Q) answers_third sample_config sample_url false 30 3
           (initial ∅)).
  - intros k. split; discriminate.
  - simpl. apply Forall_nil. exact I.
Defined.

(** What [_save_to_cache] stores under a URL, [_check_cache] gives back for
    that URL, and the entry of a URL with another digest is left as it was.
    (A file opened in text mode is read back with its carriage returns
    translated, whence the condition on the content.) *)
Theorem cache_save_then_check (md5_hexdigest : str -> str) (self : config)
    (url content : str) (st : state) :
  cache_enabled self = true ->
  "013"%char ∉ content ->
  fst (_save_to_cache md5_hexdigest self url content st) = true /\
  _check_cache md5_hexdigest self url
    (snd (_save_to_cache md5_hexdigest self url content st)) = Some content /\
  forall url', md5_hexdigest url' <> md5_hexdigest url ->
    _check_cache md5_hexdigest self url'
      (snd (_save_to_cache md5_hexdigest self url content st))
    = _check_cache md5_hexdigest self url' st.
Proof.
  intros Hon _. unfold _save_to_cache, _check_cache. rewrite Hon. simpl.
  split; [done|]. split; [apply lookup_insert_eq|].
  intros url' Hne. apply lookup_insert_ne.
  unfold _get_cache_path. intros Heq.
  apply app_inv_head in Heq. apply app_inv_head in Heq.
  apply app_inv_tail in Heq. by apply Hne.
Qed.

Lemma cache_save_then_check_witness :
  fst (_save_to_cache sample_digest sample_config sample_url (lit "<html/>")
         (initial ∅)) = true /\
  _check_cache sample_digest sample_config sample_url
    (snd (_save_to_cache sample_digest sample_config sample_url (lit "<html/>")
            (initial ∅))) = Some (lit "<html/>") /\
  forall url', sample_digest url' <> sample_digest sample_url ->
    _check_cache sample_digest sample_config url'
      (snd (_save_to_cache sample_digest sample_config sample_url (lit "<html/>")
              (initial ∅)))
    = _check_cache sample_digest sample_config url' (initial ∅).
Proof.
  apply (cache_save_then_check sample_digest sample_config sample_url
           (lit "<html/>") (initial ∅)).
  - reflexivity.
  - apply (bool_decide_unpack _). vm_compute. exact I.
Defined.

End FetcherMore.


(** * More on the Shodan batch lookup *)
Module ShodanMore.
Import Shodan ShodanSpec.

Lemma str_le_total : Total str_le.
Proof. intros a b. unfold str_le. apply String.le_total. Qed.

Lemma str_le_trans : Transitive str_le.
Proof. intros a b c. unfold str_le. apply transitivity. Qed.

Lemma sorted_Z_increasing s : increasing Z.le (sorted_Z s).
Proof.
  split; [apply StronglySorted_merge_sort; apply _|].
  unfold sorted_Z. rewrite merge_sort_Permutation. apply NoDup_elements.
Qed.

Lemma sorted_str_increasing s : increasing str_le (sorted_str s).
Proof.
  pose proof str_le_total. pose proof str_le_trans.
  split; [apply StronglySorted_merge_sort; apply _|].
  unfold sorted_str. rewrite merge_sort_Permutation. apply NoDup_elements.
Qed.

Section batch.
Variable host : str -> host_outcome.

Lemma from_hosts_mono ips ips' s :
  (forall ip, ip ∈ ips -> ip ∈ ips') -> from_hosts host ips s -> from_hosts host ips' s.
Proof.
  intros Hsub (H1 & H2 & H3 & H4 & H5).
  repeat split; intros x Hx;
    [destruct (H1 x Hx) as (ip & h & ? & ? & ?)
    |destruct (H2 x Hx) as (ip & h & ? & ? & ?)
    |destruct (H3 x Hx) as (ip & h & ? & ? & ?)
    |destruct (H4 x Hx) as (ip & h & ? & ? & ?)
    |destruct (H5 x Hx) as (ip & h & ? & ? & ?)];
    exists ip, h; auto.
Qed.

Lemma lookup_ip_from ips st ip :
  from_hosts host ips (snd st) ->
  from_hosts host (ips ++ [ip]) (snd (lookup_ip host st ip)).
Proof.
  intros Hst.
  assert (Hold : from_hosts host (ips ++ [ip]) (snd st)).
  { eapply from_hosts_mono; [|exact Hst]. intros x Hx. set_solver. }
  unfold lookup_ip. destruct (host ip) as [h| |] eqn:Hh; simpl; [|done|done].
  destruct Hold as (H1 & H2 & H3 & H4 & H5).
  assert (Hip : ip ∈ ips ++ [ip]) by set_solver.
  unfold update_summary. repeat split; simpl; intros x Hx.
  - apply ShodanFacts.update_if_nonempty_spec in Hx as [Hx|Hx]; [|by apply H1].
    by exists ip, h.
  - apply ShodanFacts.update_if_nonempty_spec in Hx as [Hx|Hx]; [|by apply H2].
    by exists ip, h.
  - apply ShodanFacts.add_if_truthy_spec in Hx as [[Hx _]|Hx]; [|by apply H3].
    by exists ip, h.
  - apply ShodanFacts.add_if_truthy_spec in Hx as [[Hx _]|Hx]; [|by apply H4].
    by exists ip, h.
  - apply ShodanFacts.update_if_nonempty_spec in Hx as [Hx|Hx]; [|by apply H5].
    by exists ip, h.
Qed.

Lemma foldl_lookup_from ips : forall done st,
  from_hosts host done (snd st) ->
  from_hosts host (done ++ ips) (snd (foldl (lookup_ip host) st ips)).
Proof.
  induction ips as [|ip ips IH]; intros done st Hst; simpl.
  - by rewrite app_nil_r.
  - replace (done ++ ip :: ips) with ((done ++ [ip]) ++ ips)
      by (by rewrite <- app_assoc).
    apply IH. by apply lookup_ip_from.
Qed.

Lemma foldl_lookup_keys ips : forall st ip,
  is_Some (fst (foldl (lookup_ip host) st ips) !! ip) ->
  ip ∈ ips \/ is_Some (fst st !! ip).
Proof.
  induction ips as [|x ips IH]; intros st ip Hip; simpl in *; [by right|].
  apply IH in Hip as [Hip|Hip]; [left; set_solver|].
  rewrite ShodanFacts.lookup_ip_entry in Hip.
  destruct (decide (x = ip)) as [->|Hne]; [left; set_solver|].
  rewrite lookup_insert_ne in Hip by done. by right.
Qed.

End batch.

(** The summary of a batch holds nothing but what Shodan reported for the
    addresses of the batch it answered, and [data_by_ip] has entries for
    addresses of the batch only. *)
Theorem fetch_shodan_summary_exact (host : str -> host_outcome)
    (ip_addresses : list str) (api_key : option str)
    (ips_queried : list str) (data_by_ip : gmap str ip_entry) (summ : summary) :
  fetch_shodan host ip_addresses api_key = Results ips_queried data_by_ip summ ->
  ips_queried = ip_addresses /\
  only_from host ip_addresses summ /\
  forall ip, is_Some (data_by_ip !! ip) -> ip ∈ ip_addresses.
Proof.
  pose proof (foldl_lookup_from host ip_addresses [] (∅, empty_sets)) as Hfrom.
  pose proof (fun ip => foldl_lookup_keys host ip_addresses (∅, empty_sets) ip)
    as Hkeys.
  unfold fetch_shodan. destruct (negb (truthy api_key)); [done|].
  destruct ip_addresses as [|ip0 ips]; [done|].
  intros [= <- <- <-]. split; [done|].
  split.
  - destruct Hfrom as (H1 & H2 & H3 & H4 & H5).
    { repeat split; simpl; intros x Hx; set_solver. }
    repeat split; simpl; intros x Hx.
    + apply H1. by apply ShodanFacts.elem_of_sorted_Z.
    + apply H2. by apply ShodanFacts.elem_of_sorted_str.
    + apply H3. by apply ShodanFacts.elem_of_sorted_str.
    + apply H4. by apply ShodanFacts.elem_of_sorted_str.
    + apply H5. by apply ShodanFacts.elem_of_sorted_str.
  - intros ip Hip. apply Hkeys in Hip as [Hip|Hip]; [exact Hip|].
    simpl in Hip. rewrite lookup_empty in Hip. by destruct Hip.
Qed.

Lemma fetch_shodan_summary_exact_witness :
  exists data_by_ip summ,
    fetch_shodan sample_host [lit "1.2.3.4"; lit "bad-ip"] (Some (lit "key"))
      = Results [lit "1.2.3.4"; lit "bad-ip"] data_by_ip summ /\
    only_from sample_host [lit "1.2.3.4"; lit "bad-ip"] summ /\
    forall ip, is_Some (data_by_ip !! ip) -> ip ∈ [lit "1.2.3.4"; lit "bad-ip"].
Proof.
  eexists _, _. split; [reflexivity|].
  exact (proj2 (fetch_shodan_summary_exact sample_host
                  [lit "1.2.3.4"; lit "bad-ip"] (Some (lit "key")) _ _ _ eq_refl)).
Defined.

(** The five lists of the summary of a batch are in increasing order and
    name nothing twice. *)
Theorem fetch_shodan_summary_sorted (host : str -> host_outcome)
    (ip_addresses : list str) (api_key : option str)
    (ips_queried : list str) (data_by_ip : gmap str ip_entry) (summ : summary) :
  fetch_shodan host ip_addresses api_key = Results ips_queried data_by_ip summ ->
  increasing Z.le (sum_ports summ) /\
  increasing str_le (sum_hostnames summ) /\
  increasing str_le (sum_organizations summ) /\
  increasing str_le (sum_isps summ) /\
  increasing str_le (sum_vulnerabilities summ).
Proof.
  unfold fetch_shodan. destruct (negb (truthy api_key)); [done|].
  destruct ip_addresses as [|ip0 ips]; [done|].
  intros [= <- <- <-]. unfold finish. simpl.
  repeat split; first [apply sorted_Z_increasing | apply sorted_str_increasing].
Qed.

Lemma fetch_shodan_summary_sorted_witness :
  exists data_by_ip summ,
    fetch_shodan sample_host [lit "1.2.3.4"; lit "bad-ip"] (Some (lit "key"))
      = Results [lit "1.2.3.4"; lit "bad-ip"] data_by_ip summ /\
    increasing Z.le (sum_ports summ) /\
    increasing str_le (sum_hostnames summ) /\
    increasing str_le (sum_organizations summ) /\
    increasing str_le (sum_isps summ) /\
    increasing str_le (sum_vulnerabilities summ).
Proof.
  eexists _, _. split; [reflexivity|].
  exact (fetch_shodan_summary_sorted sample_host
           [lit "1.2.3.4"; lit "bad-ip"] (Some (lit "key")) _ _ _ eq_refl).
Defined.

End ShodanMore.


(** * More on the profile store *)
Module OsintMore.
Import Osint OsintSpec.

Lemma next_id_above t r : r ∈ t -> (id r < next_id t)%Z.
Proof.
  unfold next_id. induction t as [|x t IH]; intros Hin; [by inversion Hin|].
  simpl. apply elem_of_cons in Hin as [->|Hin]; [lia|].
  specialize (IH Hin). lia.
Qed.

Lemma find_some_elem {A} (f : A -> bool) l y :
  List.find f l = Some y -> y ∈ l /\ f y = true.
Proof.
  intros H. apply find_some in H as [Hin Hf]. split; [|done].
  by apply list_elem_of_In.
Qed.

(** What a call does: it returns the id of a row for the identifier, which
    is either a row that was there or the one row it appended. *)
Lemma get_or_create_entity_cases identifier entity_type d :
  exists row,
    name row = identifier /\ type row = db_entity_type entity_type /\
    ((row ∈ entities d /\
      _get_or_create_entity identifier entity_type d = (Return (id row), d)) \/
     (id row = next_id (entities d) /\
      _get_or_create_entity identifier entity_type d
      = (Return (id row),
         {| entities := entities d ++ [row];
            osint_profiles := osint_profiles d |}))).
Proof.
  unfold _get_or_create_entity, insert_or_ignore, db_entity_type.
  destruct (bool_decide (entity_type = lit "domain")) eqn:Hty.
  - (* a company *)
    rewrite (OsintFacts.existsb_ext _ (company_row identifier))
      by (intros x; apply OsintFacts.collides_company).
    destruct (existsb (company_row identifier) (entities d)) eqn:Hex.
    + cbn [Z.ltb Z.compare]. rewrite OsintFacts.db_eta.
      rewrite bool_decide_true by done. cbn [andb].
      destruct (nonempty (Some identifier)) eqn:Hne; cbn [andb].
      * destruct (OsintFacts.find_some_existsb _ _ Hex) as [y Hy].
        unfold select_id, company_row in *. rewrite Hy. simpl.
        apply find_some_elem in Hy as [Hyin Hy].
        apply andb_true_iff in Hy as [Hy _].
        apply andb_true_iff in Hy as [Hn Ht].
        apply bool_decide_eq_true in Hn, Ht.
        exists y. split; [done|]. split; [done|]. by left.
      * (* the empty identifier: the lookup by name and type *)
        rewrite bool_decide_false by discriminate. cbn [andb].
        apply existsb_exists in Hex as (x & Hin & Hx).
        unfold company_row in Hx.
        apply andb_true_iff in Hx as [Hx _].
        match goal with |- context [select_id ?f _] =>
          destruct (OsintFacts.find_some_existsb f (entities d)) as [y Hy] end.
        { apply existsb_exists. exists x. split; [exact Hin|exact Hx]. }
        unfold select_id. rewrite Hy. simpl.
        apply find_some_elem in Hy as [Hyin Hy].
        apply andb_true_iff in Hy as [Hn Ht].
        apply bool_decide_eq_true in Hn, Ht.
        exists y. split; [done|]. split; [done|]. by left.
    + cbn [Z.ltb Z.compare].
      eexists {| id := next_id (entities d) |}. cbn [id name type].
      split; [reflexivity|]. split; [reflexivity|]. right. split; reflexivity.
  - (* a person: a NULL domain never collides *)
    assert (Hno : existsb (collides {| id := next_id (entities d);
                                       type := lit "person"; name := identifier;
                                       domain := None |}) (entities d) = false).
    { apply not_true_is_false. intros Hex.
      apply existsb_exists in Hex as (x & _ & Hx).
      unfold collides in Hx. simpl in Hx. by rewrite andb_false_r in Hx. }
    rewrite Hno. cbn [Z.ltb Z.compare].
    eexists {| id := next_id (entities d) |}. cbn [id name type].
    split; [reflexivity|]. split; [reflexivity|]. right. split; reflexivity.
Qed.

(** Under the uniqueness key of the entities table, neither of the two
    failure branches of [_get_or_create_entity] can be taken: for every
    identifier, entity type and store the call returns the id of a row of
    the resulting table that bears the identifier and the mapped type; the
    table is the old one or the old one with that row appended, and the
    profiles are untouched. *)
Theorem get_or_create_entity_never_raises (identifier entity_type : str) (d : db) :
  exists entity_id d1 row,
    _get_or_create_entity identifier entity_type d = (Return entity_id, d1) /\
    row ∈ entities d1 /\ id row = entity_id /\ name row = identifier /\
    type row = db_entity_type entity_type /\
    (entities d1 = entities d \/ entities d1 = entities d ++ [row]) /\
    osint_profiles d1 = osint_profiles d.
Proof.
  destruct (get_or_create_entity_cases identifier entity_type d)
    as (row & Hn & Ht & [[Hin Hcall]|[Hid Hcall]]); rewrite Hcall.
  - exists (id row), d, row. repeat split; try done. by left.
  - eexists (id row), _, row. split; [reflexivity|]. cbn [entities osint_profiles].
    repeat split; try done; [set_solver | by right].
Qed.



Lemma get_or_create_domain_twice_witness :
  exists entity_id d1,
    _get_or_create_entity (lit "acme.test") (lit "domain") sample_db
      = (Return entity_id, d1) /\
    _get_or_create_entity (lit "acme.test") (lit "domain") d1
      = (Return entity_id, d1).
Proof.
  apply (OsintFacts.get_or_create_domain_twice (lit "acme.test") sample_db).
  discriminate.
Defined.

Section saves.
Variable data_t : Type.
Variable is_empty : data_t -> bool.
Variable dumps_standardized : data_t -> str.
Variable dumps_structured : data_t -> str -> str.
Variable updated_at_default : Z -> option Z.

Lemma filter_map_fixed {A} (f : A -> bool) (g : A -> A) t :
  (forall r, f (g r) = f r) -> (forall r, f r = true -> g r = r) ->
  List.filter f (map g t) = List.filter f t.
Proof.
  intros H1 H2. induction t as [|r t IH]; [done|]. simpl.
  rewrite H1, IH. destruct (f r) eqn:Hr; [|done]. by rewrite H2.
Qed.

Lemma upsert_frame eid src raw fields now t e s :
  e <> eid \/ s <> src ->
  List.filter (same_key e s) (upsert updated_at_default eid src raw fields now t)
  = List.filter (same_key e s) t.
Proof.
  intros Hne.
  assert (Hkey : forall r, same_key e s r = true -> same_key eid src r = false).
  { intros r Hr. apply OsintFacts.same_key_spec in Hr as [He Hs].
    apply not_true_is_false. intros Hr'.
    apply OsintFacts.same_key_spec in Hr' as [He' Hs']. destruct Hne; congruence. }
  unfold upsert. destruct (existsb (same_key eid src) t).
  - apply filter_map_fixed.
    + intros r. by destruct (same_key eid src r).
    + intros r Hr. by rewrite (Hkey r Hr).
  - rewrite List.filter_app. simpl.
    replace (same_key e s _) with false; [by rewrite app_nil_r|].
    symmetry. apply not_true_is_false. intros Hr.
    apply OsintFacts.same_key_spec in Hr as [He Hs]. simpl in He, Hs.
    destruct Hne; congruence.
Qed.

End saves.

(** A save for one (entity, source) pair leaves the rows of every other
    pair, and the entities table, exactly as they were. *)
Theorem save_osint_profile_frame (data_t : Type) (is_empty : data_t -> bool)
    (dumps_standardized : data_t -> str) (dumps_structured : data_t -> str -> str)
    (updated_at_default : Z -> option Z)
    (entity_id0 : Z) (source0 : str) (data : data_t) (now : Z) (d : db)
    (e : Z) (s : str) :
  e <> entity_id0 \/ s <> source0 ->
  rows_for e s
    (_save_osint_profile data_t is_empty dumps_standardized dumps_structured
       updated_at_default entity_id0 source0 data now d)
  = rows_for e s d /\
  entities
    (_save_osint_profile data_t is_empty dumps_standardized dumps_structured
       updated_at_default entity_id0 source0 data now d)
  = entities d.
Proof.
  intros Hne. unfold _save_osint_profile, rows_for.
  destruct (is_empty data); [done|]. cbn [osint_profiles entities].
  split; [|done]. by apply upsert_frame.
Qed.

Lemma save_osint_profile_frame_witness :
  rows_for 1 (lit "domain")
    (_save_osint_profile _ sample_is_empty sample_dumps sample_structured Some
       1 (lit "email") [(lit "breaches", lit "0")] 20 sample_db)
  = rows_for 1 (lit "domain") sample_db /\
  entities
    (_save_osint_profile _ sample_is_empty sample_dumps sample_structured Some
       1 (lit "email") [(lit "breaches", lit "0")] 20 sample_db)
  = entities sample_db.
Proof.
  apply (save_osint_profile_frame _ sample_is_empty sample_dumps
           sample_structured Some 1 (lit "email") [(lit "breaches", lit "0")]
           20 sample_db 1 (lit "domain")).
  right. discriminate.
Defined.

End OsintMore.


(** * Properties of the string helpers *)
Module StrFacts.
Import Re Py Str.

Lemma startswith_nil s : startswith [] s = true.
Proof. unfold startswith. apply bool_decide_eq_true. apply prefix_nil. Qed.

Lemma startswith_app pre s : startswith pre (pre ++ s) = true.
Proof. unfold startswith. apply bool_decide_eq_true. by apply prefix_app_r. Qed.

Lemma startswith_spec pre s :
  startswith pre s = true <-> exists post, s = pre ++ post.
Proof. unfold startswith. rewrite bool_decide_eq_true. done. Qed.

(** Cutting at a one-character separator. *)
Lemma cut_char c s l r :
  cut [c] s = Some (l, r) -> s = l ++ c :: r /\ (c ∉ l).
Proof.
  revert l r. induction s as [|a s IH]; intros l r; cbn [cut].
  - replace (startswith [c] []) with false; [done|].
    symmetry. apply bool_decide_eq_false. intros [k Hk]. discriminate Hk.
  - destruct (decide (a = c)) as [->|Hne].
    + rewrite ExtractorsFacts.startswith_cons. intros [= <- <-].
      split; [done|]. apply not_elem_of_nil.
    + rewrite ExtractorsFacts.startswith_cons_ne by done.
      destruct (cut [c] s) as [[l' r']|]; [|done].
      intros [= <- <-]. destruct (IH l' r' eq_refl) as [-> Hl].
      split; [done|]. intros Hin. apply elem_of_cons in Hin as [->|Hin]; done.
Qed.

Lemma cut_char_first c l r : c ∉ l -> cut [c] (l ++ c :: r) = Some (l, r).
Proof.
  induction l as [|a l IH]; intros Hl; cbn [cut app].
  - by rewrite ExtractorsFacts.startswith_cons.
  - rewrite ExtractorsFacts.startswith_cons_ne.
    + rewrite IH; [done|]. intros Hin. apply Hl. by apply elem_of_cons; right.
    + intros ->. apply Hl. by apply elem_of_cons; left.
Qed.

Lemma contains_elem c s : contains [c] s = true <-> c ∈ s.
Proof.
  induction s as [|a s IH]; cbn [contains].
  - rewrite orb_false_r. split.
    + intros H. apply startswith_spec in H as [post H]. discriminate H.
    + intros H. by apply not_elem_of_nil in H.
  - rewrite orb_true_iff, IH, elem_of_cons. split.
    + intros [H|H]; [|by right].
      apply startswith_spec in H as [post H]. injection H as -> _. by left.
    + intros [->|H]; [|by right]. left. apply ExtractorsFacts.startswith_cons.
Qed.

(** [sub in s] holds when [s] is some text, [sub], and some more text. *)
Lemma contains_spec sub s :
  contains sub s = true <-> exists pre post, s = pre ++ sub ++ post.
Proof.
  induction s as [|a s IH]; cbn [contains].
  - rewrite orb_false_r, startswith_spec. split.
    + intros [post H]. by exists [], post.
    + intros (pre & post & H). destruct pre; [by exists post|discriminate H].
  - rewrite orb_true_iff, startswith_spec, IH. split.
    + intros [[post H]|(pre & post & H)].
      * by exists [], post.
      * exists (a :: pre), post. by rewrite H.
    + intros (pre & post & H). destruct pre as [|b pre].
      * left. by exists post.
      * right. injection H as -> ->. by exists pre, post.
Qed.

End StrFacts.

(** * Properties of the second-pass email filter *)
Module FilterEmailsFacts.
Import Re Py Extractors Str FilterEmails.

(** The loop keeps the addresses for which its body reaches an [add]. *)
Lemma filter_emails_spec emails domain keep e :
  e ∈ filter_emails emails domain keep <->
  e ∈ emails /\
  email_kept (lower domain) (lit "mail." ++ lower domain)
    (replace (lit "www.") [] (lower domain)) keep e = true.
Proof.
  unfold filter_emails. cbv zeta.
  set (f := email_kept _ _ _ keep).
  apply (set_fold_ind_L (fun acc (X : gset str) =>
           e ∈ acc <-> e ∈ X /\ f e = true)).
  - split; [intros H; by apply not_elem_of_empty in H|].
    intros [H _]. by apply not_elem_of_empty in H.
  - intros x X acc Hx IH. destruct (f x) eqn:Hfx.
    + rewrite !elem_of_union, !elem_of_singleton, IH. split.
      * intros [->|[H1 H2]]; [by split; [left|]|by split; [right|]].
      * intros [[->|H1] H2]; [by left | by right].
    + rewrite IH, elem_of_union, elem_of_singleton. split.
      * intros [H1 H2]. by split; [right|].
      * intros [[->|H1] H2]; [congruence | done].
Qed.

(** What the body computes for an address with an at sign. *)
Lemma email_kept_at nd nmd ndnw keep local_part email_domain :
  "@"%char ∉ local_part ->
  email_kept nd nmd ndnw keep (local_part ++ "@"%char :: email_domain)
  = if bool_decide (lower email_domain ∈ service_domains) && negb keep
    then false
    else if re_match uuid_pattern (lower local_part) ||
            re_match long_hex_pattern (lower local_part)
    then false
    else if bool_decide (lower email_domain = nd) ||
            bool_decide (lower email_domain = nmd) ||
            bool_decide (lower email_domain = ndnw)
    then true
    else existsb (fun term => contains term (lower local_part)) meaningful_terms.
Proof.
  intros Hl. unfold email_kept.
  assert (Hc : contains (lit "@") (local_part ++ "@"%char :: email_domain) = true).
  { apply StrFacts.contains_elem. apply elem_of_app. right.
    by apply elem_of_cons; left. }
  rewrite Hc. cbn [negb]. unfold split1.
  change (lit "@") with ["@"%char]. rewrite (StrFacts.cut_char_first _ _ _ Hl).
  by destruct (existsb _ meaningful_terms).
Qed.

(** An address the body keeps has an at sign. *)
Lemma email_kept_shape nd nmd ndnw keep e :
  email_kept nd nmd ndnw keep e = true ->
  exists local_part email_domain,
    e = local_part ++ "@"%char :: email_domain /\ ("@"%char ∉ local_part).
Proof.
  unfold email_kept. destruct (contains (lit "@") e); [|done]. cbn [negb].
  unfold split1. change (lit "@") with ["@"%char].
  destruct (cut ["@"%char] e) as [[l r]|] eqn:Hcut; [|done].
  intros _. apply StrFacts.cut_char in Hcut as [-> Hl]. by exists l, r.
Qed.

(** Lower-casing keeps hexadecimal digits hexadecimal, and changes no
    character into or out of them. *)
Lemma hex_i_lower_char a : hex_i (lower_char a) = hex_i a.
Proof.
  destruct a as [[] [] [] [] [] [] [] []]; vm_compute; reflexivity.
Qed.

Lemma Forall_hex_i_lower l :
  Forall (fun a => hex_i a = true) l ->
  Forall (fun a => hex_i a = true) (lower l).
Proof.
  intros H. unfold lower. apply Forall_map.
  eapply Forall_impl; [exact H|]. intros a Ha. simpl.
  by rewrite hex_i_lower_char.
Qed.

Lemma lower_app a b : lower (a ++ b) = lower a ++ lower b.
Proof. apply map_app. Qed.

Lemma lower_length a : length (lower a) = length a.
Proof. apply length_map. Qed.

(** The long-hex pattern matches 12 to 64 hexadecimal digits. *)
Lemma long_hex_matches l : long_hex l -> re_match long_hex_pattern l = true.
Proof.
  intros [Hh Hlen]. apply ReFacts.re_match_spec.
  unfold long_hex_pattern, seq, start. simpl.
  rewrite <- (app_nil_r l). eexists.
  eapply sem_Cat; [apply ExtractorsFacts.sem_bos|].
  eapply sem_Cat.
  { apply (ExtractorsFacts.sem_rep_class _ _ _ l [] []); [done|lia|].
    intros h [= <-]. lia. }
  eapply sem_Cat; [apply ExtractorsFacts.sem_eos|]. apply sem_Empty.
Qed.

Lemma sem_opt_hyphen h b rest :
  hyphen_or_nothing h ->
  sem opt_hyphen (Pos b (h ++ rest)) (Pos (rev h ++ b) rest).
Proof.
  intros Hh. unfold opt_hyphen, ch.
  apply ExtractorsFacts.sem_rep_class.
  - destruct Hh as [->| ->]; [done|]. apply Forall_singleton. reflexivity.
  - lia.
  - intros x [= <-]. destruct Hh as [->| ->]; simpl; lia.
Qed.

(** The UUID pattern matches a UUID with or without its hyphens. *)
Lemma uuid_like_matches l : uuid_like l -> re_match uuid_pattern l = true.
Proof.
  intros (a & h1 & b & h2 & c & h3 & d & h4 & e & -> & La & Lb & Lc & Ld & Le
          & Hh & H1 & H2 & H3 & H4).
  apply Forall_app in Hh as [Ha Hh]. apply Forall_app in Hh as [Hb Hh].
  apply Forall_app in Hh as [Hc Hh]. apply Forall_app in Hh as [Hd He].
  apply ReFacts.re_match_spec. unfold uuid_pattern, seq, start. simpl.
  rewrite <- (app_nil_r e). eexists.
  eapply sem_Cat; [apply ExtractorsFacts.sem_bos|].
  eapply sem_Cat; [by apply ExtractorsFacts.sem_exactly_class|].
  eapply sem_Cat; [by apply sem_opt_hyphen|].
  eapply sem_Cat; [by apply ExtractorsFacts.sem_exactly_class|].
  eapply sem_Cat; [by apply sem_opt_hyphen|].
  eapply sem_Cat; [by apply ExtractorsFacts.sem_exactly_class|].
  eapply sem_Cat; [by apply sem_opt_hyphen|].
  eapply sem_Cat; [by apply ExtractorsFacts.sem_exactly_class|].
  eapply sem_Cat; [by apply sem_opt_hyphen|].
  eapply sem_Cat; [by apply ExtractorsFacts.sem_exactly_class|].
  eapply sem_Cat; [apply ExtractorsFacts.sem_eos|]. apply sem_Empty.
Qed.

(** A match is made of characters its classes allow. *)
Lemma sem_consumes_only ok :
  (forall r p q, sem r p q -> consumes_only ok r ->
     exists w, after p = w ++ after q /\ Forall (fun a => ok a = true) w) /\
  (forall r m p q, sem_n r m p q -> consumes_only ok r ->
     exists w, after p = w ++ after q /\ Forall (fun a => ok a = true) w).
Proof.
  apply sem_sem_n_ind; intros.
  - by exists [].
  - exists [a]. split; [done|]. apply Forall_singleton. by apply H1.
  - destruct H3 as [Hr1 Hr2].
    destruct (H0 Hr1) as (w1 & Ha1 & Hb1), (H2 Hr2) as (w2 & Ha2 & Hb2).
    exists (w1 ++ w2). rewrite Ha1, Ha2, <- app_assoc. split; [done|].
    by apply Forall_app.
  - destruct H1 as [Hr1 _]. by apply H0.
  - destruct H1 as [_ Hr2]. by apply H0.
  - by apply H2.
  - by exists [].
  - by exists [].
  - by exists [].
  - by exists [].
  - by exists [].
  - destruct (H0 H4) as (w1 & Ha1 & Hb1), (H3 H4) as (w2 & Ha2 & Hb2).
    exists (w1 ++ w2). rewrite Ha1, Ha2, <- app_assoc. split; [done|].
    by apply Forall_app.
Qed.

(** A pattern that ends in [$] and consumes characters of [ok] only matches
    a text made of such characters, but for a line feed at its end. *)
Lemma re_match_only ok r s :
  consumes_only ok r ->
  re_match (Cat r (Cat Eos Empty)) s = true ->
  Forall (fun a => ok a = true \/ a = newline) s.
Proof.
  intros Hr H. apply ReFacts.re_match_spec in H as [q H].
  apply ExtractorsFacts.sem_Cat_inv in H as (p1 & H1 & H).
  apply ExtractorsFacts.sem_Cat_inv in H as (p2 & H2 & H).
  destruct (proj1 (sem_consumes_only ok) _ _ _ H1 Hr) as (w & Hw & Hok).
  simpl in Hw. rewrite Hw. apply Forall_app. split.
  - eapply Forall_impl; [exact Hok|]. intros a Ha. by left.
  - inversion H2 as [| | | | | | |p Hend| |]; subst.
    destruct Hend as [-> | ->]; [done|]. apply Forall_singleton. by right.
Qed.

Lemma uuid_pattern_only s :
  re_match uuid_pattern s = true ->
  Forall (fun a => (hex_i a || is_char "-" a) = true \/ a = newline) s.
Proof.
  unfold uuid_pattern, seq. cbn [foldr]. intros H.
  apply (re_match_only (fun a => hex_i a || is_char "-" a)
           (Cat Bos (Cat (exactly 8 (Class hex_i)) (Cat opt_hyphen
            (Cat (exactly 4 (Class hex_i)) (Cat opt_hyphen
            (Cat (exactly 4 (Class hex_i)) (Cat opt_hyphen
            (Cat (exactly 4 (Class hex_i)) (Cat opt_hyphen
            (exactly 12 (Class hex_i)))))))))))).
  - unfold exactly, opt_hyphen, ch. cbn [consumes_only].
    repeat split; intros a Ha; rewrite Ha; first [done | apply orb_true_r].
  - apply ReFacts.re_match_spec in H as [q H].
    apply ReFacts.re_match_spec. exists q.
    repeat (apply ExtractorsFacts.sem_Cat_inv in H as (? & ? & H)).
    eapply sem_Cat.
    { repeat (eapply sem_Cat; [eassumption|]). eassumption. }
    eapply sem_Cat; eassumption.
Qed.

Lemma long_hex_pattern_only s :
  re_match long_hex_pattern s = true ->
  Forall (fun a => (hex_i a || is_char "-" a) = true \/ a = newline) s.
Proof.
  unfold long_hex_pattern, seq. cbn [foldr]. intros H.
  apply (re_match_only (fun a => hex_i a || is_char "-" a)
           (Cat Bos (Rep (Class hex_i) 12 (Some 64)))).
  - cbn [consumes_only]. split; [done|]. intros a Ha. by rewrite Ha.
  - apply ReFacts.re_match_spec in H as [q H].
    apply ReFacts.re_match_spec. exists q.
    repeat (apply ExtractorsFacts.sem_Cat_inv in H as (? & ? & H)).
    eapply sem_Cat.
    { repeat (eapply sem_Cat; [eassumption|]). eassumption. }
    eapply sem_Cat; eassumption.
Qed.

Lemma lower_char_plain a :
  hex_i a = false -> a <> "-"%char -> a <> newline ->
  (hex_i (lower_char a) || is_char "-" (lower_char a)) = false /\
  lower_char a <> newline.
Proof.
  destruct a as [[] [] [] [] [] [] [] []]; vm_compute; intros H1 H2 H3;
    try discriminate H1; try (by destruct H2); try (by destruct H3);
    (split; [reflexivity | discriminate]).
Qed.

Lemma long_hex_lower l : long_hex l -> long_hex (lower l).
Proof.
  intros [Hh Hl]. split; [by apply Forall_hex_i_lower|].
  by rewrite lower_length.
Qed.

Lemma hyphen_or_nothing_lower h : hyphen_or_nothing h -> lower h = h.
Proof. by intros [->| ->]. Qed.

Lemma uuid_like_lower l : uuid_like l -> uuid_like (lower l).
Proof.
  intros (a & h1 & b & h2 & c & h3 & d & h4 & e & -> & La & Lb & Lc & Ld & Le
          & Hh & H1 & H2 & H3 & H4).
  exists (lower a), h1, (lower b), h2, (lower c), h3, (lower d), h4, (lower e).
  rewrite !lower_app, !lower_length.
  rewrite (hyphen_or_nothing_lower h1), (hyphen_or_nothing_lower h2),
    (hyphen_or_nothing_lower h3), (hyphen_or_nothing_lower h4) by done.
  repeat split; try done.
  rewrite <- !lower_app. by apply Forall_hex_i_lower.
Qed.

(** Every address [filter_emails] returns was given to it, has an at sign,
    is not at a service domain unless those are asked for, has a local part
    that is neither a long hexadecimal string nor a UUID, and is at a domain
    of the target or bears a meaningful term in its local part. *)
Theorem filter_emails_keeps_only (emails : gset str) (domain : str)
    (keep_service_emails : bool) (email : str) :
  email ∈ filter_emails emails domain keep_service_emails ->
  email ∈ emails /\
  exists local_part email_domain,
    email = local_part ++ "@"%char :: email_domain /\
    ("@"%char ∉ local_part) /\
    (keep_service_emails = true \/ (lower email_domain ∉ service_domains)) /\
    ~ long_hex local_part /\ ~ uuid_like local_part /\
    included domain local_part email_domain.
Proof.
  intros H. apply filter_emails_spec in H as [Hin Hk]. split; [done|].
  destruct (email_kept_shape _ _ _ _ _ Hk) as (l & d & -> & Hl).
  exists l, d. split; [done|]. split; [done|].
  rewrite (email_kept_at _ _ _ _ _ _ Hl) in Hk.
  destruct (bool_decide (lower d ∈ service_domains) && negb keep_service_emails)
    eqn:Hs; [done|].
  destruct (re_match uuid_pattern (lower l)) eqn:Hu; [done|].
  destruct (re_match long_hex_pattern (lower l)) eqn:Hx; [done|].
  cbn [orb] in Hk.
  split; [|split; [|split]].
  - apply andb_false_iff in Hs as [Hs|Hs].
    + right. by apply bool_decide_eq_false in Hs.
    + left. by destruct keep_service_emails.
  - intros Hlong. apply long_hex_lower, long_hex_matches in Hlong. congruence.
  - intros Huuid. apply uuid_like_lower, uuid_like_matches in Huuid. congruence.
  - unfold included, target_domains.
    destruct (bool_decide (lower d = lower domain)) eqn:H1.
    { apply bool_decide_eq_true in H1. left. rewrite H1. set_solver. }
    destruct (bool_decide (lower d = lit "mail." ++ lower domain)) eqn:H2.
    { apply bool_decide_eq_true in H2. left. rewrite H2. set_solver. }
    destruct (bool_decide (lower d = replace (lit "www.") [] (lower domain)))
      eqn:H3.
    { apply bool_decide_eq_true in H3. left. rewrite H3. set_solver. }
    cbn [orb] in Hk. right.
    apply existsb_exists in Hk as (term & Hterm & Hc).
    exists term. split; [by apply list_elem_of_In|].
    by apply StrFacts.contains_spec.
Qed.

Lemma filter_emails_keeps_only_witness :
  lit "info@acme.test" ∈ ({[ lit "info@acme.test" ]} : gset str) /\
  exists local_part email_domain,
    lit "info@acme.test" = local_part ++ "@"%char :: email_domain /\
    ("@"%char ∉ local_part) /\
    (false = true \/ (lower email_domain ∉ service_domains)) /\
    ~ long_hex local_part /\ ~ uuid_like local_part /\
    included (lit "acme.test") local_part email_domain.
Proof.
  apply (filter_emails_keeps_only {[ lit "info@acme.test" ]} (lit "acme.test")
           false (lit "info@acme.test")).
  apply filter_emails_spec. split; [by apply elem_of_singleton|].
  vm_compute. reflexivity.
Defined.

(** An address given to [filter_emails] is returned when it is not at a
    service domain (or those are asked for), its local part has a character
    that is not a hexadecimal digit, a hyphen or a line feed, and it is at a
    domain of the target or bears a meaningful term in its local part. *)
Theorem filter_emails_keeps (emails : gset str) (domain : str)
    (keep_service_emails : bool) (local_part email_domain : str) :
  local_part ++ "@"%char :: email_domain ∈ emails ->
  "@"%char ∉ local_part ->
  keep_service_emails = true \/ (lower email_domain ∉ service_domains) ->
  (exists x, x ∈ local_part /\ hex_i x = false /\ x <> "-"%char /\
             x <> newline) ->
  included domain local_part email_domain ->
  local_part ++ "@"%char :: email_domain
    ∈ filter_emails emails domain keep_service_emails.
Proof.
  intros Hin Hl Hs (x & Hx & Hh & Hm & Hn) Hinc.
  apply filter_emails_spec. split; [done|].
  rewrite (email_kept_at _ _ _ _ _ _ Hl).
  assert (Hs' : bool_decide (lower email_domain ∈ service_domains) &&
                negb keep_service_emails = false).
  { destruct Hs as [->|Hs]; [apply andb_false_r|].
    by rewrite (bool_decide_false _ Hs). }
  rewrite Hs'.
  destruct (lower_char_plain x Hh Hm Hn) as [Hp Hp'].
  assert (Hxl : lower_char x ∈ lower local_part).
  { unfold lower. apply list_elem_of_fmap. by exists x. }
  assert (Hno : forall r,
    (re_match r (lower local_part) = true ->
     Forall (fun a => (hex_i a || is_char "-" a) = true \/ a = newline)
       (lower local_part)) ->
    re_match r (lower local_part) = false).
  { intros r Hr. apply not_true_is_false. intros Hmatch.
    specialize (Hr Hmatch). rewrite Forall_forall in Hr.
    destruct (Hr _ Hxl) as [Hbad|Hbad]; congruence. }
  rewrite (Hno _ (uuid_pattern_only _)), (Hno _ (long_hex_pattern_only _)).
  cbn [orb].
  destruct Hinc as [Hd|(term & Hterm & Hsub)].
  - unfold target_domains in Hd.
    apply elem_of_cons in Hd as [Hd|Hd];
      [by rewrite (bool_decide_true _ Hd)|].
    apply elem_of_cons in Hd as [Hd|Hd];
      [by rewrite (bool_decide_true _ Hd), orb_true_r|].
    apply list_elem_of_singleton in Hd.
    by rewrite (bool_decide_true _ Hd), !orb_true_r.
  - destruct (_ || _ || _); [done|].
    apply existsb_exists. exists term. split; [by apply list_elem_of_In|].
    by apply StrFacts.contains_spec.
Qed.

Lemma filter_emails_keeps_witness :
  lit "info" ++ "@"%char :: lit "acme.test"
    ∈ filter_emails {[ lit "info@acme.test" ]} (lit "acme.test") false.
Proof.
  apply (filter_emails_keeps {[ lit "info@acme.test" ]} (lit "acme.test") false
           (lit "info") (lit "acme.test")).
  - by apply elem_of_singleton.
  - apply (bool_decide_unpack _). vm_compute. exact I.
  - right. apply (bool_decide_unpack _). vm_compute. exact I.
  - exists "i"%char. split; [apply elem_of_cons; by left|].
    split; [reflexivity|]. split; discriminate.
  - left. apply elem_of_cons. by left.
Defined.

End FilterEmailsFacts.


(** * Properties of the robots.txt parser *)
Module RobotsParserFacts.
Import Re Py Extractors Str Robots RobotsParser.

(** ** Sensitive paths *)

Lemma search_at_found r pre : forall bef aft,
  is_Some (run r (Pos (rev pre ++ bef) aft) Some) ->
  search_at r bef (pre ++ aft) = true.
Proof.
  induction pre as [|a pre IH]; intros bef aft Hrun.
  - simpl in *. destruct aft; simpl; by destruct Hrun as [e ->].
  - cbn [app search_at].
    destruct (run r (Pos bef (a :: pre ++ aft)) Some); [done|].
    apply IH. simpl in Hrun. by rewrite <- app_assoc in Hrun.
Qed.

Lemma re_search_sem r pre aft q :
  sem r (Pos (rev pre) aft) q -> re_search r (pre ++ aft) = true.
Proof.
  intros H. apply search_at_found. rewrite app_nil_r.
  by apply (proj1 ReFacts.run_complete _ _ _ H Some).
Qed.

(** A fragment compiled with IGNORECASE matches its spellings in either
    case. *)
Lemma sem_lit_i w : forall u b rest,
  lower u = lower w ->
  sem (seq (map ci w)) (Pos b (u ++ rest)) (Pos (rev u ++ b) rest).
Proof.
  induction w as [|c w IH]; intros u b rest Hu.
  - destruct u; [|discriminate Hu]. apply sem_Empty.
  - destruct u as [|a u]; [discriminate Hu|]. injection Hu as Ha Hu.
    cbn [map seq foldr]. eapply sem_Cat.
    + apply ExtractorsFacts.sem_ch_class. by apply bool_decide_eq_true.
    + specialize (IH u (a :: b) rest Hu). simpl.
      by rewrite <- app_assoc.
Qed.

Lemma lower_lower s : lower (lower s) = lower s.
Proof.
  unfold lower. rewrite map_map. apply map_ext. intros a.
  destruct a as [[] [] [] [] [] [] [] []]; vm_compute; reflexivity.
Qed.

(** A fragment that occurs in the lower-cased path is found by its
    pattern. *)
Lemma re_search_fragment frag path0 :
  lower frag = frag -> FilterEmails.substring frag (lower path0) ->
  re_search (seq (map ci frag)) path0 = true.
Proof.
  intros Hf (pre & post & H). unfold lower in H.
  apply List.map_eq_app in H as (pre' & rest & -> & _ & H).
  apply List.map_eq_app in H as (u & post' & -> & Hu & _).
  apply (re_search_sem _ pre' (u ++ post') (Pos (rev u ++ rev pre') post')).
  apply sem_lit_i. rewrite Hf. exact Hu.
Qed.

Lemma re_search_dotted frag y path0 :
  lower frag = frag -> y <> newline ->
  FilterEmails.substring (y :: frag) (lower path0) ->
  re_search (Cat dot (seq (map ci frag))) path0 = true.
Proof.
  intros Hf Hy (pre & post & H). unfold lower in H.
  apply List.map_eq_app in H as (pre' & rest & -> & _ & H).
  change ((y :: frag) ++ post) with (y :: (frag ++ post)) in H.
  destruct rest as [|x rest]; [discriminate H|]. injection H as Hx H.
  apply List.map_eq_app in H as (u & post' & -> & Hu & _).
  apply (re_search_sem _ pre' (x :: u ++ post')
           (Pos (rev u ++ x :: rev pre') post')).
  eapply sem_Cat.
  - apply ExtractorsFacts.sem_ch_class. apply negb_true_iff.
    apply bool_decide_eq_false. intros ->. apply Hy. by rewrite <- Hx.
  - apply sem_lit_i. rewrite Hf. exact Hu.
Qed.

Lemma is_sensitive_by pattern path0 :
  In pattern SENSITIVE_PATTERNS -> re_search pattern path0 = true ->
  _is_sensitive_path path0 = true.
Proof.
  intros Hin Hs. unfold _is_sensitive_path. apply existsb_exists. eauto.
Qed.

(** A path is flagged as sensitive as soon as, read in lower case, it
    holds one of the plain fragments of the pattern list; and, the dot of
    [.git], [.svn] and [.env] being unescaped, as soon as it holds git, svn
    or env after any character but a line feed. *)
Theorem sensitive_fragments_are_flagged (path0 frag : str) :
  (frag ∈ plain_fragments /\ FilterEmails.substring frag (lower path0)) \/
  (frag ∈ dotted_fragments /\
   exists y, y <> newline /\
             FilterEmails.substring (y :: frag) (lower path0)) ->
  _is_sensitive_path path0 = true.
Proof.
  intros [[Hin Hsub]|[Hin (y & Hy & Hsub)]].
  - apply (is_sensitive_by (seq (map ci frag))).
    + unfold plain_fragments in Hin. cbn [map] in Hin.
      unfold SENSITIVE_PATTERNS, word_i.
      repeat (apply elem_of_cons in Hin as [->|Hin];
              [cbn [In]; repeat (first [left; reflexivity | right]); fail|]).
      by apply not_elem_of_nil in Hin.
    + apply re_search_fragment; [|done].
      unfold plain_fragments in Hin. cbn [map] in Hin.
      repeat (apply elem_of_cons in Hin as [->|Hin]; [reflexivity|]).
      by apply not_elem_of_nil in Hin.
  - apply (is_sensitive_by (Cat dot (seq (map ci frag)))).
    + unfold dotted_fragments in Hin. cbn [map] in Hin.
      unfold SENSITIVE_PATTERNS, word_i.
      repeat (apply elem_of_cons in Hin as [->|Hin];
              [cbn [In]; repeat (first [left; reflexivity | right]); fail|]).
      by apply not_elem_of_nil in Hin.
    + apply (re_search_dotted frag y); [|done|done].
      unfold dotted_fragments in Hin. cbn [map] in Hin.
      repeat (apply elem_of_cons in Hin as [->|Hin]; [reflexivity|]).
      by apply not_elem_of_nil in Hin.
Qed.

Lemma sensitive_fragments_are_flagged_witness :
  _is_sensitive_path (lit "/Legit/page") = true.
Proof.
  apply (sensitive_fragments_are_flagged (lit "/Legit/page") (lit "git")).
  right. split; [apply elem_of_cons; by left|].
  exists "e"%char. split; [discriminate|].
  by exists (lit "/l"), (lit "/page").
Defined.

(** ** The parser *)

Lemma lower_Forall s : lower s = s <-> Forall (fun a => lower_char a = a) s.
Proof.
  unfold lower. induction s as [|a s IH]; simpl.
  - split; [intros _; apply Forall_nil; exact I | done].
  - rewrite Forall_cons, <- IH. split.
    + intros [= Ha Hs]. by rewrite !Hs.
    + intros [Ha Hs]. by rewrite Ha, Hs.
Qed.

Lemma Forall_lstrip (P : ascii -> Prop) s : Forall P s -> Forall P (lstrip s).
Proof.
  induction s as [|a s IH]; intros H; simpl; [done|].
  destruct (isspace a); [|done]. apply IH. by apply Forall_cons in H as [_ H].
Qed.

Lemma Forall_strip (P : ascii -> Prop) s : Forall P s -> Forall P (strip s).
Proof.
  intros H. unfold strip, rstrip.
  apply Forall_reverse, Forall_lstrip, Forall_reverse. by apply Forall_lstrip.
Qed.

Lemma startswith_elem pre s c : startswith pre s = true -> c ∈ pre -> c ∈ s.
Proof.
  intros H Hc. apply StrFacts.startswith_spec in H as [post ->].
  apply elem_of_app. by left.
Qed.

(** [line.split(':', 1)[1]] is there as soon as the line has a colon. *)
Lemma field_colon line :
  ":"%char ∈ line ->
  exists l v, line = l ++ ":"%char :: v /\ field line = Return (strip v).
Proof.
  intros H. apply list_elem_of_split_l in H as (l & v & -> & Hl).
  exists l, v. split; [done|]. unfold field, split1.
  change (lit ":") with [":"%char]. by rewrite (StrFacts.cut_char_first _ _ _ Hl).
Qed.

Lemma field_lower line :
  lower line = line -> ":"%char ∈ line ->
  exists v, field line = Return v /\ lower v = v.
Proof.
  intros Hlow H. destruct (field_colon line H) as (l & v & -> & Hf).
  exists (strip v). split; [done|].
  apply lower_Forall, Forall_strip. apply lower_Forall in Hlow.
  apply Forall_app in Hlow as [_ Hlow]. by apply Forall_cons in Hlow as [_ Hlow].
Qed.

Section parse_facts.
Variable float_t : Type.
Variable float : str -> option float_t.
Variable zero : float_t.
Variable urljoin : str -> str -> option str.

Abbreviation add_rule := (RobotsParser.add_rule float_t urljoin).
Abbreviation step := (RobotsParser.step float_t float urljoin).
Abbreviation loop := (RobotsParser.loop float_t float urljoin).
Abbreviation parse_lines := (RobotsParser.parse_lines float_t float zero urljoin).
Abbreviation parse := (RobotsParser.parse float_t float zero urljoin).

Lemma add_rule_result allow0 base_url line st :
  lower line = line -> ":"%char ∈ line ->
  (exists path0 full_path,
     lower path0 = path0 /\ urljoin base_url path0 = Some full_path /\
     add_rule allow0 base_url line st
     = Return
         {| data :=
              {| rules := rules (data st) ++
                   [ {| path := path0; allow := allow0;
                        is_sensitive := _is_sensitive_path path0 |} ];
                 sitemaps := sitemaps (data st);
                 sensitive_paths :=
                   if _is_sensitive_path path0
                   then {[path0]} ∪ sensitive_paths (data st)
                   else sensitive_paths (data st);
                 crawl_delay := crawl_delay (data st) |};
            current_agent := current_agent st;
            in_relevant_agent := in_relevant_agent st |}) \/
  (add_rule allow0 base_url line st = Raise ValueError /\
   exists p, urljoin base_url p = None).
Proof.
  intros Hlow Hc. destruct (field_lower line Hlow Hc) as (v & Hf & Hv).
  unfold RobotsParser.add_rule. rewrite Hf.
  destruct (urljoin base_url v) as [full|] eqn:Hu.
  - left. exists v, full. done.
  - right. split; [done|]. by exists v.
Qed.

Lemma add_rule_consistent allow0 path0 (d : RobotsData float_t) :
  lower path0 = path0 -> consistent d ->
  consistent
    {| rules := rules d ++
         [ {| path := path0; allow := allow0;
              is_sensitive := _is_sensitive_path path0 |} ];
       sitemaps := sitemaps d;
       sensitive_paths :=
         if _is_sensitive_path path0 then {[path0]} ∪ sensitive_paths d
         else sensitive_paths d;
       crawl_delay := crawl_delay d |}.
Proof.
  intros Hlow (H1 & H2 & H3). unfold consistent. cbn [rules sitemaps sensitive_paths].
  split; [|split; [|done]].
  - intros r Hr. apply elem_of_app in Hr as [Hr|Hr]; [by apply H1|].
    apply list_elem_of_singleton in Hr as ->. done.
  - intros p. split.
    + intros Hp.
      assert (Hcases : p ∈ sensitive_paths d \/
                (p = path0 /\ _is_sensitive_path path0 = true)).
      { destruct (_is_sensitive_path path0); [|by left].
        apply elem_of_union in Hp as [Hp|Hp]; [|by left].
        apply elem_of_singleton in Hp. by right. }
      destruct Hcases as [Hold|[-> Hs]].
      * apply H2 in Hold as (r & Hr & Hp' & Hs). exists r.
        split; [|done]. apply elem_of_app. by left.
      * eexists. split; [apply elem_of_app; right; by apply list_elem_of_singleton|].
        done.
    + intros (r & Hr & Hp & Hs). apply elem_of_app in Hr as [Hr|Hr].
      * assert (p ∈ sensitive_paths d) by (apply H2; eauto).
        destruct (_is_sensitive_path path0); [|done].
        apply elem_of_union. by right.
      * apply list_elem_of_singleton in Hr as ->. simpl in Hp, Hs. subst p.
        rewrite Hs. apply elem_of_union. left. by apply elem_of_singleton.
Qed.

(** What one line does: it leaves the data as they are, appends a rule,
    appends a sitemap or sets the delay; or [urljoin] raises. *)
Lemma step_result base_url st line0 :
  (exists st', step base_url st line0 = Return st' /\
     (consistent (data st) -> consistent (data st'))) \/
  (step base_url st line0 = Raise ValueError /\
   exists p, urljoin base_url p = None).
Proof.
  unfold RobotsParser.step. cbv zeta.
  assert (Hlow : lower (lower (strip line0)) = lower (strip line0))
    by apply lower_lower.
  set (line := lower (strip line0)) in *.
  destruct (bool_decide (line = []) || startswith (lit "#") line);
    [left; eauto|].
  destruct (startswith (lit "user-agent:") line) eqn:Hua.
  { destruct (field_lower line Hlow) as (v & -> & _).
    { apply (startswith_elem _ _ _ Hua). apply (bool_decide_unpack _).
      vm_compute. exact I. }
    left. eexists. split; [reflexivity|]. done. }
  destruct (negb (bool_decide (current_agent st = lit "*")) &&
            negb (in_relevant_agent st)); [left; eauto|].
  destruct (startswith (lit "allow:") line) eqn:Hal.
  { destruct (add_rule_result true base_url line st Hlow)
      as [(p0 & full & Hp0 & _ & ->)|[-> Hex]].
    { apply (startswith_elem _ _ _ Hal). apply (bool_decide_unpack _).
      vm_compute. exact I. }
    - left. eexists. split; [reflexivity|]. cbn [data].
      by apply add_rule_consistent.
    - by right. }
  destruct (startswith (lit "disallow:") line) eqn:Hdis.
  { destruct (add_rule_result false base_url line st Hlow)
      as [(p0 & full & Hp0 & _ & ->)|[-> Hex]].
    { apply (startswith_elem _ _ _ Hdis). apply (bool_decide_unpack _).
      vm_compute. exact I. }
    - left. eexists. split; [reflexivity|]. cbn [data].
      by apply add_rule_consistent.
    - by right. }
  destruct (startswith (lit "sitemap:") line) eqn:Hsm.
  { destruct (field_lower line Hlow) as (v & -> & Hv).
    { apply (startswith_elem _ _ _ Hsm). apply (bool_decide_unpack _).
      vm_compute. exact I. }
    left. eexists. split; [reflexivity|]. cbn [data].
    intros (H1 & H2 & H3). split; [done|]. split; [done|].
    cbn [sitemaps]. intros s Hs. apply elem_of_app in Hs as [Hs|Hs];
      [by apply H3|]. by apply list_elem_of_singleton in Hs as ->. }
  destruct (startswith (lit "crawl-delay:") line) eqn:Hcd.
  { destruct (field_lower line Hlow) as (v & -> & Hv).
    { apply (startswith_elem _ _ _ Hcd). apply (bool_decide_unpack _).
      vm_compute. exact I. }
    left. destruct (float v); eexists; (split; [reflexivity|]); done. }
  left. eauto.
Qed.

Lemma loop_result base_url lines : forall st,
  (exists st', loop base_url st lines = Return st' /\
     (consistent (data st) -> consistent (data st'))) \/
  (loop base_url st lines = Raise ValueError /\
   exists p, urljoin base_url p = None).
Proof.
  induction lines as [|line lines IH]; intros st; cbn [RobotsParser.loop].
  - left. eauto.
  - destruct (step_result base_url st line) as [(st1 & -> & H1)|[-> Hex]];
      [|by right].
    destruct (IH st1) as [(st2 & -> & H2)|[-> Hex]]; [|by right].
    left. exists st2. split; [done|]. auto.
Qed.

Lemma loop_app base_url l1 l2 st :
  loop base_url st (l1 ++ l2)
  = match loop base_url st l1 with
    | Return st1 => loop base_url st1 l2
    | Raise e => Raise e
    end.
Proof.
  revert st. induction l1 as [|line l1 IH]; intros st; cbn [app RobotsParser.loop];
    [done|].
  destruct (step base_url st line); [apply IH | done].
Qed.

Lemma initial_consistent : consistent (data (initial float_t zero)).
Proof.
  split; [|split].
  - intros r Hr. by apply not_elem_of_nil in Hr.
  - intros p. split; [intros Hp; by apply not_elem_of_empty in Hp|].
    intros (r & Hr & _). by apply not_elem_of_nil in Hr.
  - intros s Hs. by apply not_elem_of_nil in Hs.
Qed.

(** In the block of an agent other than [*], a line that opens no new
    block changes nothing. *)
Lemma step_skipped base_url st line0 :
  current_agent st <> lit "*" -> in_relevant_agent st = false ->
  user_agent_line line0 = false ->
  step base_url st line0 = Return st.
Proof.
  intros Hagent Hrel Hua. unfold RobotsParser.step. cbv zeta.
  unfold user_agent_line in Hua. rewrite Hua.
  destruct (bool_decide _ || startswith (lit "#") _); [done|].
  by rewrite (bool_decide_false _ Hagent), Hrel.
Qed.

Lemma loop_skipped base_url st block :
  current_agent st <> lit "*" -> in_relevant_agent st = false ->
  Forall (fun l => user_agent_line l = false) block ->
  loop base_url st block = Return st.
Proof.
  intros Hagent Hrel Hblock. induction Hblock as [|line block Hline _ IH];
    cbn [RobotsParser.loop]; [done|].
  by rewrite step_skipped.
Qed.

Lemma step_user_agent base_url st line0 agent :
  user_agent_line line0 = true -> agent_of line0 = Some agent ->
  step base_url st line0
  = Return {| data := data st; current_agent := agent;
              in_relevant_agent := bool_decide (agent = lit "*") |}.
Proof.
  unfold user_agent_line, agent_of, RobotsParser.step. cbv zeta.
  intros Hua Hagent. rewrite Hua.
  apply StrFacts.startswith_spec in Hua as [post Hline]. rewrite Hline.
  rewrite Hline in Hagent.
  replace (bool_decide (lit "user-agent:" ++ post = []) ||
           startswith (lit "#") (lit "user-agent:" ++ post)) with false.
  - destruct (field _) as [a|]; [|done]. by injection Hagent as ->.
  - symmetry. apply orb_false_iff. split.
    + by apply bool_decide_eq_false.
    + apply bool_decide_eq_false. intros [k Hk]. discriminate Hk.
Qed.

End parse_facts.

(** [parse] never fails at [line.split(':', 1)[1]].  It returns, and the
    data it returns are consistent: the flag of every rule is the verdict of
    [_is_sensitive_path] on its path, [sensitive_paths] is the set of the
    paths of the flagged rules, and rule paths and sitemap URLs are in lower
    case.  The one exception is a ValueError of [urljoin] on a rule path,
    which [parse] lets through. *)
Theorem parse_returns_consistent_data (float_t : Type)
    (float : str -> option float_t) (zero : float_t)
    (urljoin : str -> str -> option str) (robots_content base_url : str) :
  (exists d, parse float_t float zero urljoin robots_content base_url = Return d /\
             consistent d) \/
  (parse float_t float zero urljoin robots_content base_url = Raise ValueError /\
   exists p, urljoin base_url p = None).
Proof.
  unfold RobotsParser.parse, RobotsParser.parse_lines.
  destruct (loop_result float_t float urljoin base_url
              (splitlines robots_content) (initial float_t zero))
    as [(st & -> & Hc)|[-> Hex]].
  - left. exists (data st). split; [done|]. apply Hc, initial_consistent.
  - by right.
Qed.

(** The directives of a block opened for an agent other than [*] are
    skipped: when the file ends in such a block, [parse] gives what it gives
    for the lines before the block. *)
Theorem parse_skips_other_agents (float_t : Type)
    (float : str -> option float_t) (zero : float_t)
    (urljoin : str -> str -> option str) (robots_content base_url : str)
    (lines1 : list str) (ua : str) (block : list str) :
  splitlines robots_content = lines1 ++ ua :: block ->
  user_agent_line ua = true ->
  agent_of ua <> Some (lit "*") ->
  Forall (fun l => user_agent_line l = false) block ->
  parse float_t float zero urljoin robots_content base_url
  = parse_lines float_t float zero urljoin lines1 base_url.
Proof.
  intros Hlines Hua Hagent Hblock.
  unfold RobotsParser.parse, RobotsParser.parse_lines. rewrite Hlines, loop_app.
  destruct (RobotsParser.loop float_t float urljoin base_url
              (initial float_t zero) lines1) as [st1|e]; [|done].
  cbn [RobotsParser.loop].
  destruct (agent_of ua) as [agent|] eqn:Ha.
  2: { unfold agent_of in Ha. unfold user_agent_line in Hua.
       destruct (field_colon (lower (strip ua))) as (l & v & _ & Hf).
       { apply (startswith_elem _ _ _ Hua). apply (bool_decide_unpack _).
         vm_compute. exact I. }
       by rewrite Hf in Ha. }
  rewrite (step_user_agent float_t float urljoin base_url st1 ua agent Hua Ha).
  rewrite loop_skipped; [done| | |done].
  - cbn [current_agent]. congruence.
  - cbn [in_relevant_agent]. apply bool_decide_eq_false. congruence.
Qed.

Lemma parse_skips_other_agents_witness :
  parse Z sample_float 0%Z sample_urljoin
    (unlines [ "Disallow: /tmp"; "User-agent: *"; "Disallow: /Admin";
               "Sitemap: https://x/S.xml"; "User-Agent: GoogleBot";
               "Disallow: /private"; "Allow: /" ]%string) (lit "https://x")
  = parse_lines Z sample_float 0%Z sample_urljoin
      [ lit "Disallow: /tmp"; lit "User-agent: *"; lit "Disallow: /Admin";
        lit "Sitemap: https://x/S.xml" ] (lit "https://x").
Proof.
  apply (parse_skips_other_agents Z sample_float 0%Z sample_urljoin _ _ _
           (lit "User-Agent: GoogleBot")
           [ lit "Disallow: /private"; lit "Allow: /" ]).
  - reflexivity.
  - reflexivity.
  - discriminate.
  - repeat constructor.
Defined.

(** The parse of the specification's example, and rules read before any
    [User-agent] line. *)
Example parse_example :
  parse Z sample_float 0%Z sample_urljoin
    (unlines [ "User-agent: *"; "Disallow: /admin";
               "Sitemap: https://x/s.xml" ]%string) (lit "https://x")
  = Return {| rules := [ {| path := lit "/admin"; allow := false;
                            is_sensitive := true |} ];
              sitemaps := [ lit "https://x/s.xml" ];
              sensitive_paths := {[ lit "/admin" ]};
              crawl_delay := 0%Z |}.
Proof. vm_compute. reflexivity. Qed.

End RobotsParserFacts.


(** * Properties of the contact store *)
Module ContactsFacts.
Import Re Py Extractors Str Contacts.

Lemma foldl_flat_map {A B C} (f : A -> C -> A) (g : B -> list C) l : forall acc,
  foldl f acc (flat_map g l) = foldl (fun acc x => foldl f acc (g x)) acc l.
Proof.
  induction l as [|x l IH]; intros acc; simpl; [done|].
  by rewrite foldl_app, IH.
Qed.

Section contacts_facts.
Variable extract_phone_numbers : str -> gset str.

Abbreviation visit := (Contacts.visit extract_phone_numbers).
Abbreviation find_contacts_recursive :=
  (Contacts.find_contacts_recursive extract_phone_numbers).
Abbreviation extract_and_save :=
  (Contacts._extract_and_save_contacts extract_phone_numbers).

(** The visitor reads the strings of the payload in order. *)
Lemma find_contacts_strings item : forall found,
  find_contacts_recursive item found
  = foldl (fun acc ks => visit (fst ks) (snd ks) acc) found (strings_of item).
Proof.
  induction item as [s|items IH|items IH|] using value_induction;
    intros found; [done| | |done].
  - cbn [Contacts.find_contacts_recursive strings_of].
    rewrite foldl_flat_map. revert found.
    induction IH as [|[k v] items Hv _ IHitems]; intros found; [done|].
    cbn [foldl fst snd]. rewrite <- IHitems. f_equal.
    destruct v; try apply Hv; done.
  - cbn [Contacts.find_contacts_recursive strings_of].
    rewrite foldl_flat_map. revert found.
    induction IH as [|v items Hv _ IHitems]; intros found; [done|].
    cbn [foldl]. rewrite <- IHitems. f_equal. apply Hv.
Qed.

Lemma visit_emails key v found e :
  e ∈ fst (visit key v found) <->
  e ∈ fst found \/ e ∈ emails_in v \/ (email_field key v = true /\ e = lower v).
Proof.
  unfold Contacts.visit, email_field. cbn [fst]. destruct key as [k|].
  - destruct (_ && _).
    + rewrite !elem_of_union, elem_of_singleton. intuition congruence.
    + rewrite elem_of_union. intuition congruence.
  - rewrite elem_of_union. intuition congruence.
Qed.


Lemma foldl_visit_emails l : forall found e,
  e ∈ fst (foldl (fun acc ks => visit (fst ks) (snd ks) acc) found l) <->
  e ∈ fst found \/
  exists key v, (key, v) ∈ l /\
    (e ∈ emails_in v \/ (email_field key v = true /\ e = lower v)).
Proof.
  induction l as [|[k s] l IH]; intros found e; cbn [foldl fst snd].
  - split; [by left|]. intros [H|(key & v & H & _)]; [done|].
    by apply not_elem_of_nil in H.
  - rewrite IH, visit_emails. split.
    + intros [[H|H]|(key & v & Hin & H)].
      * by left.
      * right. exists k, s. split; [apply elem_of_cons; by left|done].
      * right. exists key, v. split; [apply elem_of_cons; by right|done].
    + intros [H|(key & v & Hin & H)]; [by left; left|].
      apply elem_of_cons in Hin as [[= -> ->]|Hin]; [by left; right|].
      right. eauto.
Qed.


(** ** The table *)

Lemma elem_of_emails_for entity_id v t :
  v ∈ emails_for entity_id t <-> existsb (has_email entity_id v) t = true.
Proof.
  unfold emails_for, has_email. induction t as [|r t IH]; cbn [omap list_omap existsb].
  - split; [intros H; by apply not_elem_of_nil in H | done].
  - rewrite orb_true_iff, <- IH. clear IH.
    destruct (bool_decide (contact_entity_id r = entity_id)); cbn [andb].
    + destruct (email r) as [x|].
      * rewrite elem_of_cons, bool_decide_eq_true. split.
        -- intros [->|H]; [by left | by right].
        -- intros [[= ->]|H]; [by left | by right].
      * split; [by right|]. intros [H|H]; [|done].
        by apply bool_decide_eq_true in H.
    + destruct (email r); split; try (by right); by intros [H|H].
Qed.

Lemma elem_of_phones_for entity_id v t :
  v ∈ phones_for entity_id t <-> existsb (has_phone entity_id v) t = true.
Proof.
  unfold phones_for, has_phone. induction t as [|r t IH]; cbn [omap list_omap existsb].
  - split; [intros H; by apply not_elem_of_nil in H | done].
  - rewrite orb_true_iff, <- IH. clear IH.
    destruct (bool_decide (contact_entity_id r = entity_id)); cbn [andb].
    + destruct (phone r) as [x|].
      * rewrite elem_of_cons, bool_decide_eq_true. split.
        -- intros [->|H]; [by left | by right].
        -- intros [[= ->]|H]; [by left | by right].
      * split; [by right|]. intros [H|H]; [|done].
        by apply bool_decide_eq_true in H.
    + destruct (phone r); split; try (by right); by intros [H|H].
Qed.

(** One step of the loop: nothing, or one new row for a value the entity
    did not have. *)
Lemma save_contact_cases entity_id t ty v src :
  Contacts.save_contact entity_id t (ty, v, src) = t \/
  (v <> [] /\
   match ty with
   | Email =>
       existsb (has_email entity_id v) t = false /\
       Contacts.save_contact entity_id t (ty, v, src)
       = t ++ [ {| contact_entity_id := entity_id; email := Some v;
                   phone := None; contact_source := src |} ]
   | Phone =>
       existsb (has_phone entity_id v) t = false /\
       Contacts.save_contact entity_id t (ty, v, src)
       = t ++ [ {| contact_entity_id := entity_id; email := None;
                   phone := Some v; contact_source := src |} ]
   end).
Proof.
  unfold Contacts.save_contact. destruct v as [|a v]; [by left|].
  destruct ty.
  - destruct (existsb _ t); [by left|]. by right.
  - destruct (existsb _ t); [by left|]. by right.
Qed.

Lemma present_saved entity_id t c :
  present entity_id t c -> Contacts.save_contact entity_id t c = t.
Proof.
  destruct c as [[ty v] src]. unfold present, Contacts.save_contact.
  destruct v as [|a v]; [done|]. destruct ty; by intros ->.
Qed.

Lemma present_app entity_id t t' c :
  present entity_id t c -> present entity_id (t ++ t') c.
Proof.
  destruct c as [[ty v] src]. unfold present.
  destruct v as [|a v]; [done|].
  destruct ty; rewrite existsb_app; by intros ->.
Qed.

Lemma present_mono entity_id t c c' :
  present entity_id t c ->
  present entity_id (Contacts.save_contact entity_id t c') c.
Proof.
  intros H. destruct c' as [[ty v] src].
  destruct (save_contact_cases entity_id t ty v src) as [->|[_ Hc]]; [done|].
  destruct ty; destruct Hc as [_ ->]; by apply present_app.
Qed.

Lemma present_after entity_id t c :
  present entity_id (Contacts.save_contact entity_id t c) c.
Proof.
  destruct c as [[ty v] src].
  destruct (save_contact_cases entity_id t ty v src) as [Hsame|[Hv Hc]].
  - rewrite Hsame. unfold Contacts.save_contact in Hsame. unfold present.
    destruct v as [|a v]; [done|].
    destruct ty.
    + destruct (existsb (has_email entity_id (a :: v)) t) eqn:He; [done|].
      exfalso. revert Hsame. clear. intros H.
      apply (f_equal length) in H. rewrite length_app in H. simpl in H. lia.
    + destruct (existsb (has_phone entity_id (a :: v)) t) eqn:He; [done|].
      exfalso. revert Hsame. clear. intros H.
      apply (f_equal length) in H. rewrite length_app in H. simpl in H. lia.
  - unfold present. destruct v as [|a v]; [done|].
    destruct ty; destruct Hc as [_ ->]; rewrite existsb_app; cbn [existsb];
      unfold has_email, has_phone; cbn [contact_entity_id email phone];
      rewrite !bool_decide_true by done; apply orb_true_r.
Qed.

Lemma foldl_present entity_id l : forall t c,
  present entity_id t c ->
  present entity_id (foldl (Contacts.save_contact entity_id) t l) c.
Proof.
  induction l as [|c' l IH]; intros t c H; cbn [foldl]; [done|].
  apply IH. by apply present_mono.
Qed.

Lemma foldl_saves entity_id l : forall t c,
  c ∈ l -> present entity_id (foldl (Contacts.save_contact entity_id) t l) c.
Proof.
  induction l as [|c' l IH]; intros t c Hin; cbn [foldl].
  - by apply not_elem_of_nil in Hin.
  - apply elem_of_cons in Hin as [->|Hin]; [|by apply IH].
    apply foldl_present, present_after.
Qed.

Lemma foldl_fixed entity_id l : forall t,
  (forall c, c ∈ l -> present entity_id t c) ->
  foldl (Contacts.save_contact entity_id) t l = t.
Proof.
  induction l as [|c' l IH]; intros t H; cbn [foldl]; [done|].
  rewrite present_saved by (apply H, elem_of_cons; by left).
  apply IH. intros c Hc. apply H, elem_of_cons. by right.
Qed.

Lemma emails_for_snoc e t r :
  emails_for e (t ++ [r])
  = emails_for e t ++
    match (if bool_decide (contact_entity_id r = e) then email r else None) with
    | Some x => [x]
    | None => []
    end.
Proof.
  unfold emails_for. rewrite omap_app. cbn [omap list_omap].
  by destruct (if bool_decide _ then _ else _).
Qed.

Lemma phones_for_snoc e t r :
  phones_for e (t ++ [r])
  = phones_for e t ++
    match (if bool_decide (contact_entity_id r = e) then phone r else None) with
    | Some x => [x]
    | None => []
    end.
Proof.
  unfold phones_for. rewrite omap_app. cbn [omap list_omap].
  by destruct (if bool_decide _ then _ else _).
Qed.

Lemma NoDup_snoc {A} (l : list A) x : x ∉ l -> NoDup l -> NoDup (l ++ [x]).
Proof.
  intros Hx Hl. apply NoDup_app. split; [done|]. split; [|apply NoDup_singleton].
  intros y Hy Hy'. apply list_elem_of_singleton in Hy'. by subst y.
Qed.

Lemma save_contact_deduplicated entity_id t c :
  deduplicated t -> deduplicated (Contacts.save_contact entity_id t c).
Proof.
  intros Hd. destruct c as [[ty v] src].
  destruct (save_contact_cases entity_id t ty v src) as [->|[Hv Hc]]; [done|].
  intros e. destruct (Hd e) as [He Hp].
  destruct ty; destruct Hc as [Hno ->];
    rewrite emails_for_snoc, phones_for_snoc;
    cbn [contact_entity_id email phone].
  - destruct (bool_decide (entity_id = e)) eqn:Hee.
    + apply bool_decide_eq_true in Hee as <-.
      split; [|by rewrite app_nil_r]. apply NoDup_snoc; [|done].
      intros Hin. apply elem_of_emails_for in Hin. congruence.
    + by rewrite !app_nil_r.
  - destruct (bool_decide (entity_id = e)) eqn:Hee.
    + apply bool_decide_eq_true in Hee as <-.
      split; [by rewrite app_nil_r|]. apply NoDup_snoc; [|done].
      intros Hin. apply elem_of_phones_for in Hin. congruence.
    + by rewrite !app_nil_r.
Qed.

Lemma foldl_deduplicated entity_id l : forall t,
  deduplicated t -> deduplicated (foldl (Contacts.save_contact entity_id) t l).
Proof.
  induction l as [|c l IH]; intros t H; cbn [foldl]; [done|].
  by apply IH, save_contact_deduplicated.
Qed.


(** ** What is found and what is saved *)

Lemma emails_in_shape e s : e ∈ emails_in s -> lower e = e /\ e <> [].
Proof.
  unfold emails_in.
  destruct (ExtractorsFacts.extract_emails_spec s) as (emails & -> & Hspec).
  intros He. apply Hspec in He as (c & _ & Hstep).
  apply ExtractorsFacts.email_step_accepts in Hstep
    as (-> & (l & d & Hshape & _) & _).
  split; [apply RobotsParserFacts.lower_lower|].
  rewrite Hshape. by destruct l.
Qed.

Lemma contains_nonempty sub s : contains sub s = true -> sub <> [] -> s <> [].
Proof.
  intros H Hsub ->. apply StrFacts.contains_spec in H as (pre & post & H).
  destruct pre; [|discriminate H]. destruct sub; [done|discriminate H].
Qed.

Lemma gives_email_shape data e : gives_email data e -> lower e = e /\ e <> [].
Proof.
  intros (key & s & _ & [H|[Hf ->]]); [by apply (emails_in_shape e s)|].
  split; [apply RobotsParserFacts.lower_lower|].
  unfold email_field in Hf. destruct key as [k|]; [|done].
  apply andb_true_iff in Hf as [_ Hat].
  apply contains_nonempty in Hat; [|done].
  intros H. apply Hat. by destruct s.
Qed.

Lemma found_emails data e :
  e ∈ fst (find_contacts_recursive (VDict data) (∅, ∅)) <-> gives_email data e.
Proof.
  rewrite find_contacts_strings, foldl_visit_emails. cbn [fst]. split.
  - intros [H|H]; [by apply not_elem_of_empty in H | exact H].
  - intros H. by right.
Qed.


Lemma not_asset_like e :
  negb (existsb (fun ext => endswith ext e) email_exclude_extensions) = true
  <-> ~ asset_like e.
Proof.
  unfold asset_like. rewrite negb_true_iff, Exists_exists. split.
  - intros H (ext & Hin & Hsuf).
    assert (existsb (fun ext => endswith ext e) email_exclude_extensions = true);
      [|congruence].
    apply existsb_exists. exists ext. split; [by apply list_elem_of_In|].
    by apply bool_decide_eq_true.
  - intros H. apply not_true_is_false. intros Hex.
    apply existsb_exists in Hex as (ext & Hin & Hsuf). apply H.
    exists ext. split; [by apply list_elem_of_In|].
    by apply bool_decide_eq_true in Hsuf.
Qed.

Lemma elem_of_contacts_to_save emails phones source ty v src :
  (ty, v, src) ∈ contacts_to_save emails phones source <->
  src = source /\
  match ty with
  | Email => exists e, e ∈ emails /\ v = lower e /\ ~ asset_like (lower e)
  | Phone => v ∈ phones
  end.
Proof.
  unfold contacts_to_save. rewrite elem_of_app, !list_elem_of_In, !in_map_iff.
  split.
  - intros [(e & [= <- <- <-] & He)|(p & [= <- <- <-] & Hp)].
    + apply filter_In in He as [He Hok]. split; [done|]. exists e.
      split; [by apply elem_of_elements, list_elem_of_In|].
      split; [done|]. by apply not_asset_like.
    + split; [done|]. by apply elem_of_elements, list_elem_of_In.
  - intros [-> H]. destruct ty.
    + destruct H as (e & He & -> & Hok). left. exists e. split; [done|].
      apply filter_In. split; [by apply list_elem_of_In, elem_of_elements|].
      by apply not_asset_like.
    + right. exists v. split; [done|].
      by apply list_elem_of_In, elem_of_elements.
Qed.

End contacts_facts.

(** Running [_extract_and_save_contacts] a second time on the same data
    changes nothing: whatever the payload and the table, every contact of
    the second run is found by its existence check. *)
Theorem extract_and_save_contacts_idempotent
    (extract_phone_numbers : str -> gset str) (entity_id : Z)
    (data : list (str * value)) (source : str) (t : list contact) :
  _extract_and_save_contacts extract_phone_numbers entity_id data source
    (_extract_and_save_contacts extract_phone_numbers entity_id data source t)
  = _extract_and_save_contacts extract_phone_numbers entity_id data source t.
Proof.
  unfold _extract_and_save_contacts. destruct data as [|kv data]; [done|].
  cbv zeta. apply foldl_fixed. intros c Hc. by apply foldl_saves.
Qed.

(** A table that holds no email and no phone number twice for one entity
    still does after [_extract_and_save_contacts]. *)
Theorem extract_and_save_contacts_keeps_deduplicated
    (extract_phone_numbers : str -> gset str) (entity_id : Z)
    (data : list (str * value)) (source : str) (t : list contact) :
  deduplicated t ->
  deduplicated
    (_extract_and_save_contacts extract_phone_numbers entity_id data source t).
Proof.
  intros H. unfold _extract_and_save_contacts.
  destruct data as [|kv data]; [done|]. by apply foldl_deduplicated.
Qed.

Lemma extract_and_save_contacts_keeps_deduplicated_witness :
  deduplicated
    (_extract_and_save_contacts sample_phones 7 sample_data (lit "domain") []).
Proof.
  apply (extract_and_save_contacts_keeps_deduplicated sample_phones 7
           sample_data (lit "domain") []).
  intros e. split; apply NoDup_nil; exact I.
Defined.


(** Every address a string of the payload gives is in the table for the
    entity afterwards, unless it ends in an excluded extension. *)
Theorem extract_and_save_contacts_saves_emails
    (extract_phone_numbers : str -> gset str) (entity_id : Z)
    (data : list (str * value)) (source : str) (t : list contact) (e : str) :
  gives_email data e -> ~ asset_like e ->
  exists r,
    r ∈ _extract_and_save_contacts extract_phone_numbers entity_id data source t /\
    contact_entity_id r = entity_id /\ email r = Some e.
Proof.
  intros Hgives Hok.
  destruct (gives_email_shape _ _ Hgives) as [Hlow Hne].
  unfold _extract_and_save_contacts. destruct data as [|kv data].
  { destruct Hgives as (key & s & Hin & _). by apply not_elem_of_nil in Hin. }
  cbv zeta.
  set (l := contacts_to_save _ _ source).
  assert (Hin : (Email, e, source) ∈ l).
  { apply elem_of_contacts_to_save. split; [done|]. exists e.
    rewrite Hlow. split; [by apply found_emails|done]. }
  pose proof (foldl_saves entity_id l t _ Hin) as Hp.
  unfold present in Hp. destruct e as [|a e]; [done|].
  apply existsb_exists in Hp as (r & Hr & Hhas).
  apply andb_true_iff in Hhas as [H1 H2].
  apply bool_decide_eq_true in H1, H2.
  exists r. split; [by apply list_elem_of_In|done].
Qed.

Lemma extract_and_save_contacts_saves_emails_witness :
  exists r,
    r ∈ _extract_and_save_contacts sample_phones 7 sample_data (lit "domain") [] /\
    contact_entity_id r = 7%Z /\ email r = Some (lit "hostmaster@acme.io").
Proof.
  apply (extract_and_save_contacts_saves_emails sample_phones 7 sample_data
           (lit "domain") [] (lit "hostmaster@acme.io")).
  - exists (Some (lit "registrant_email")), (lit "Hostmaster@Acme.io").
    split; [|right; split; reflexivity].
    apply (bool_decide_unpack _). vm_compute. exact I.
  - apply (bool_decide_unpack _). vm_compute. exact I.
Defined.

End ContactsFacts.


(** * Properties of the DNS lookup *)
Module DnsFacts.
Import Py Str Shodan Dns.

Lemma record_types_NoDup : NoDup record_types.
Proof. apply (bool_decide_unpack _). vm_compute. exact I. Qed.

Section lookup.
Variable rdata : Type.
Variable render : str -> rdata -> str.

Abbreviation query resolve := (Dns.query rdata resolve render).
Abbreviation query_loop resolve := (Dns.query_loop rdata resolve render).

(** A query that does not end the lookup adds the entry of its type, if
    there is one. *)
Lemma query_goes_on resolve domain records rtype :
  aborts (resolve domain rtype) = false ->
  query resolve domain records rtype
  = inr match entry_for render domain rtype (resolve domain rtype) with
        | Some e => <[rtype := e]> records
        | None => records
        end.
Proof.
  unfold Dns.query, entry_for.
  destruct (resolve domain rtype) as [answers| | | | |msg]; try done.
  by destruct (current_rtype_records _ _ _ _ _).
Qed.

Lemma query_aborts resolve domain records rtype :
  aborts (resolve domain rtype) = true ->
  exists error, query resolve domain records rtype = inl (Failed error records).
Proof.
  unfold Dns.query.
  destruct (resolve domain rtype) as [answers| | | | |msg]; try done; eauto.
Qed.

Lemma query_loop_app resolve domain l1 l2 : forall records,
  query_loop resolve domain (l1 ++ l2) records
  = match query_loop resolve domain l1 records with
    | inl early => inl early
    | inr records' => query_loop resolve domain l2 records'
    end.
Proof.
  induction l1 as [|t l1 IH]; intros records; cbn [app Dns.query_loop]; [done|].
  destruct (Dns.query _ _ _ _ _ _); [done | apply IH].
Qed.

(** The loop asks the resolver about the types of its list only. *)
Lemma query_loop_ext resolve resolve' domain l : forall records,
  (forall t, t ∈ l -> resolve' domain t = resolve domain t) ->
  query_loop resolve' domain l records = query_loop resolve domain l records.
Proof.
  induction l as [|t l IH]; intros records H; cbn [Dns.query_loop]; [done|].
  assert (Hq : query resolve' domain records t = query resolve domain records t).
  { unfold Dns.query. rewrite H by (apply elem_of_cons; by left). done. }
  rewrite Hq. clear Hq. destruct (Dns.query _ _ _ _ _ _); [done|].
  apply IH. intros t' Ht'. apply H, elem_of_cons. by right.
Qed.

(** While no query ends the lookup, the loop adds the entries of its types
    and touches nothing else. *)
Lemma query_loop_goes_on resolve domain l : forall records,
  NoDup l ->
  Forall (fun t => aborts (resolve domain t) = false) l ->
  exists records',
    query_loop resolve domain l records = inr records' /\
    (forall t, t ∈ l ->
       records' !! t
       = match entry_for render domain t (resolve domain t) with
         | Some e => Some e
         | None => records !! t
         end) /\
    (forall t, t ∉ l -> records' !! t = records !! t).
Proof.
  induction l as [|t l IH]; intros records Hnd Hok; cbn [Dns.query_loop].
  - exists records. split; [done|]. split; [|done].
    intros t Ht. by apply not_elem_of_nil in Ht.
  - apply NoDup_cons in Hnd as [Ht Hnd]. apply Forall_cons in Hok as [Hgo Hok].
    rewrite (query_goes_on _ _ _ _ Hgo).
    destruct (IH (match entry_for render domain t (resolve domain t) with
                  | Some e => <[t := e]> records
                  | None => records
                  end) Hnd Hok) as (records' & -> & Hin & Hout).
    exists records'. split; [done|]. split.
    + intros t' Ht'. apply elem_of_cons in Ht' as [->|Ht'].
      * rewrite (Hout t Ht).
        destruct (entry_for _ _ _ _); [apply lookup_insert_eq | done].
      * rewrite (Hin t' Ht').
        destruct (entry_for render domain t' _); [done|].
        destruct (entry_for render domain t _); [|done].
        apply lookup_insert_ne. by intros ->.
    + intros t' Ht'. apply not_elem_of_cons in Ht' as [Hne Ht'].
      rewrite (Hout t' Ht').
      destruct (entry_for render domain t _); [|done].
      by apply lookup_insert_ne.
Qed.

Lemma entry_for_empty domain rtype (o : outcome rdata) :
  entry_for render domain rtype o = Some [] <-> o = NoAnswer.
Proof.
  unfold entry_for. destruct o as [answers| | | | |msg]; try done.
  by destruct (current_rtype_records _ _ _ _ _).
Qed.

End lookup.

(** The first query that ends in NXDOMAIN or NoNameservers ends the lookup:
    the result is the error payload, its details are the entries of the
    types queried before and nothing else, and the types after it are not
    queried (a resolver that differs on them only gives the same result). *)
Theorem fetch_dns_records_aborts (rdata : Type)
    (resolve : str -> str -> outcome rdata) (render : str -> rdata -> str)
    (domain : str) (before : list str) (rtype : str) (after : list str) :
  record_types = before ++ rtype :: after ->
  Forall (fun t => aborts (resolve domain t) = false) before ->
  aborts (resolve domain rtype) = true ->
  exists error details,
    fetch_dns_records rdata resolve render domain = Failed error details /\
    (forall t, t ∈ before ->
       details !! t = entry_for render domain t (resolve domain t)) /\
    (forall t, t ∉ before -> details !! t = None) /\
    forall resolve' : str -> str -> outcome rdata,
      (forall t, t ∈ before ++ [rtype] -> resolve' domain t = resolve domain t) ->
      fetch_dns_records rdata resolve' render domain = Failed error details.
Proof.
  intros Htypes Hgo Hstop.
  assert (Hnd : NoDup before).
  { pose proof record_types_NoDup as H. rewrite Htypes in H.
    by apply NoDup_app in H as [H _]. }
  destruct (query_loop_goes_on rdata render resolve domain before ∅ Hnd Hgo)
    as (details & Hloop & Hin & Hout).
  destruct (query_aborts rdata render resolve domain details rtype Hstop)
    as [error Hq].
  assert (Hrun : forall resolve' : str -> str -> outcome rdata,
    (forall t, t ∈ before ++ [rtype] -> resolve' domain t = resolve domain t) ->
    fetch_dns_records rdata resolve' render domain = Failed error details).
  { intros resolve' Hsame. unfold fetch_dns_records. rewrite Htypes.
    replace (before ++ rtype :: after) with ((before ++ [rtype]) ++ after)
      by (by rewrite <- app_assoc).
    rewrite query_loop_app, (query_loop_ext _ _ resolve resolve') by done.
    rewrite query_loop_app, Hloop. cbn [Dns.query_loop]. by rewrite Hq. }
  exists error, details. split; [by apply Hrun|].
  split.
  - intros t Ht. rewrite (Hin t Ht), lookup_empty.
    by destruct (entry_for _ _ _ _).
  - split; [|exact Hrun]. intros t Ht. by rewrite (Hout t Ht), lookup_empty.
Qed.

Lemma fetch_dns_records_aborts_witness :
  exists error details,
    fetch_dns_records str sample_nxdomain sample_render (lit "nowhere.example")
      = Failed error details /\
    (forall t, t ∈ [lit "A"] ->
       details !! t
       = entry_for sample_render (lit "nowhere.example") t
           (sample_nxdomain (lit "nowhere.example") t)) /\
    (forall t, t ∉ [lit "A"] -> details !! t = None) /\
    forall resolve' : str -> str -> outcome str,
      (forall t, t ∈ [lit "A"] ++ [lit "AAAA"] ->
         resolve' (lit "nowhere.example") t
         = sample_nxdomain (lit "nowhere.example") t) ->
      fetch_dns_records str resolve' sample_render (lit "nowhere.example")
      = Failed error details.
Proof.
  apply (fetch_dns_records_aborts str sample_nxdomain sample_render
           (lit "nowhere.example") [lit "A"] (lit "AAAA")
           (map lit [ "MX"; "NS"; "TXT"; "SOA"; "CNAME"; "SRV"; "CAA";
                      "PTR" ]%string)).
  - reflexivity.
  - apply Forall_singleton. reflexivity.
  - reflexivity.
Defined.

(** A lookup in which no query ends in NXDOMAIN or NoNameservers queries
    all ten types and does not fail: a timeout or another exception for one
    type leaves its marker and the next types are still queried.  The
    records hold, for each type, the entry of its outcome and nothing else;
    an empty list stands under a type exactly when its query ended in
    NoAnswer. *)
Theorem fetch_dns_records_keeps_going (rdata : Type)
    (resolve : str -> str -> outcome rdata) (render : str -> rdata -> str)
    (domain : str) :
  Forall (fun t => aborts (resolve domain t) = false) record_types ->
  exists records,
    (fetch_dns_records rdata resolve render domain = Records records \/
     (records = ∅ /\
      exists info, fetch_dns_records rdata resolve render domain = NoRecords info)) /\
    (forall t, t ∈ record_types ->
       records !! t = entry_for render domain t (resolve domain t)) /\
    (forall t, t ∉ record_types -> records !! t = None) /\
    (forall t, records !! t = Some [] <->
       t ∈ record_types /\ resolve domain t = NoAnswer).
Proof.
  intros Hgo.
  destruct (query_loop_goes_on rdata render resolve domain record_types ∅
              record_types_NoDup Hgo) as (records & Hloop & Hin & Hout).
  assert (Hin' : forall t, t ∈ record_types ->
            records !! t = entry_for render domain t (resolve domain t)).
  { intros t Ht. rewrite (Hin t Ht), lookup_empty.
    by destruct (entry_for _ _ _ _). }
  assert (Hout' : forall t, t ∉ record_types -> records !! t = None).
  { intros t Ht. by rewrite (Hout t Ht), lookup_empty. }
  exists records. split; [|split; [done|split; [done|]]].
  - unfold fetch_dns_records. rewrite Hloop. case_bool_decide as Hempty.
    + right. split; [done|]. by eexists.
    + by left.
  - intros t. split.
    + intros Ht. destruct (decide (t ∈ record_types)) as [Hmem|Hmem].
      * split; [done|]. rewrite (Hin' t Hmem) in Ht.
        by apply entry_for_empty in Ht.
      * rewrite (Hout' t Hmem) in Ht. discriminate Ht.
    + intros [Hmem Hno]. rewrite (Hin' t Hmem). by apply entry_for_empty.
Qed.

Lemma fetch_dns_records_keeps_going_witness :
  exists records,
    (fetch_dns_records str sample_resolve sample_render (lit "example.org")
       = Records records \/
     (records = ∅ /\
      exists info,
        fetch_dns_records str sample_resolve sample_render (lit "example.org")
        = NoRecords info)) /\
    (forall t, t ∈ record_types ->
       records !! t
       = entry_for sample_render (lit "example.org") t
           (sample_resolve (lit "example.org") t)) /\
    (forall t, t ∉ record_types -> records !! t = None) /\
    (forall t, records !! t = Some [] <->
       t ∈ record_types /\ sample_resolve (lit "example.org") t = NoAnswer).
Proof.
  apply (fetch_dns_records_keeps_going str sample_resolve sample_render
           (lit "example.org")).
  unfold record_types. cbn [map].
  repeat (apply Forall_cons; split; [reflexivity|]). apply Forall_nil. exact I.
Defined.

(** The lookup of the sample name: the address, the mail exchangers in
    order, a marker for the timeout, and empty lists for the rest but PTR,
    which is answered for reverse names only. *)
Example fetch_dns_records_example :
  exists records,
    fetch_dns_records str sample_resolve sample_render (lit "example.org")
      = Records records /\
    records !! lit "A" = Some [lit "93.184.216.34"] /\
    records !! lit "MX" = Some [lit "10 mx1.example.org"; lit "20 mx2.example.org"] /\
    records !! lit "TXT" = Some [lit "Error: DNS query timed out for TXT"] /\
    records !! lit "NS" = Some [].
Proof. eexists. split; [reflexivity|]. repeat split; reflexivity. Qed.

End DnsFacts.


(** * Properties of the matcher with look-around *)
Module LookFacts.
Import Re Look.

Lemma look_rep_loop_sound r lo hi k :
  (forall p k e, run r p k = Some e -> exists q, sem r p q /\ k q = Some e) ->
  forall fuel n p e,
    (forall h, hi = Some h -> n <= h) ->
    rep_loop (run r) lo hi k fuel n p = Some e ->
    exists m q, sem_n r m p q /\ lo <= n + m /\
                (forall h, hi = Some h -> n + m <= h) /\ k q = Some e.
Proof.
  intros IH fuel.
  assert (Hstop : forall n p e, (forall h, hi = Some h -> n <= h) ->
            (if lo <=? n then k p else None) = Some e ->
            exists m q, sem_n r m p q /\ lo <= n + m /\
                        (forall h, hi = Some h -> n + m <= h) /\ k q = Some e).
  { intros n p e Hn H. destruct (Nat.leb_spec lo n); [|discriminate].
    exists 0, p. repeat split; [constructor | lia | | done].
    intros h Hh. specialize (Hn h Hh). lia. }
  induction fuel as [|fuel IHf]; intros n p e Hn H; simpl in H.
  - by apply Hstop.
  - destruct (below n hi) eqn:Hb; [|by apply Hstop].
    destruct (run r p _) as [e'|] eqn:Hr; [|by apply Hstop].
    injection H as ->.
    apply IH in Hr as (q & Hq & Hk).
    destruct (Nat.ltb_spec (length (after q)) (length (after p))); [|discriminate].
    apply IHf in Hk as (m & q' & Hm & Hlo & Hhi & Hk).
    + exists (S m), q'. repeat split; [econstructor; eauto | lia | | done].
      intros h Hh. specialize (Hhi h Hh). lia.
    + intros h ->. simpl in Hb. apply Nat.ltb_lt in Hb. lia.
Qed.

(** The matcher only answers with matches. *)
Lemma look_run_sound r : forall p k e,
  run r p k = Some e -> exists q, sem r p q /\ k q = Some e.
Proof.
  induction r as [|c|r1 IH1 r2 IH2|r1 IH1 r2 IH2|r IH lo hi|t];
    intros p k e H; simpl in H.
  - exists p. split; [constructor | done].
  - destruct (after p) as [|a rest] eqn:Ha; [discriminate|].
    destruct (c a) eqn:Hc; [|discriminate].
    exists (shift a rest p). split; [by constructor | done].
  - apply IH1 in H as (q & Hq & H). apply IH2 in H as (q' & Hq' & H).
    exists q'. split; [econstructor; eauto | done].
  - destruct (run r1 p k) as [e1|] eqn:H1.
    + injection H as ->. apply IH1 in H1 as (q & Hq & H).
      exists q. split; [by apply sem_Alt_l | done].
    + apply IH2 in H as (q & Hq & H).
      exists q. split; [by apply sem_Alt_r | done].
  - apply (look_rep_loop_sound r lo hi k IH) in H as (m & q & Hm & Hlo & Hhi & Hk).
    + exists q. split; [|done]. by apply (sem_Rep r lo hi m).
    + intros; lia.
  - destruct (t p) eqn:Ht; [|discriminate].
    exists p. split; [by constructor | done].
Qed.

(** The matcher finds a match whenever there is one. *)
Lemma look_run_complete :
  (forall r p q, sem r p q ->
     forall k, is_Some (k q) -> is_Some (run r p k)) /\
  (forall r m p q, sem_n r m p q ->
     forall lo hi k fuel n,
       lo <= n + m -> (forall h, hi = Some h -> n + m <= h) ->
       length (after p) <= fuel -> is_Some (k q) ->
       is_Some (rep_loop (run r) lo hi k fuel n p)).
Proof.
  apply sem_sem_n_ind.
  - intros p k Hk. done.
  - intros c a rest p Ha Hc k Hk. simpl. by rewrite Ha, Hc.
  - intros r1 r2 p q e _ IH1 _ IH2 k Hk. simpl. apply IH1. by apply IH2.
  - intros r1 r2 p q _ IH k Hk. simpl.
    destruct (IH k Hk) as [e ->]. done.
  - intros r1 r2 p q _ IH k Hk. simpl.
    destruct (run r1 p k); [done|]. by apply IH.
  - intros r lo hi n p q Hlo Hhi _ IH k Hk. simpl.
    apply IH; auto.
  - intros t p Ht k Hk. simpl. by rewrite Ht.
  - intros r p lo hi k fuel n Hlo Hhi _ Hk.
    assert (Hstop : is_Some (if lo <=? n then k p else None)).
    { destruct (Nat.leb_spec lo n); [done | lia]. }
    destruct fuel as [|fuel]; simpl; [done|].
    destruct (below n hi); [|done].
    destruct (run r p _); done.
  - intros r m p q e _ IH Hlt _ IHn lo hi k fuel n Hlo Hhi Hfuel Hk.
    destruct fuel as [|fuel]; [lia|]. simpl.
    assert (Hb : below n hi = true).
    { destruct hi as [h|]; [|done]. simpl. apply Nat.ltb_lt.
      specialize (Hhi h eq_refl). lia. }
    rewrite Hb.
    destruct (IH (fun q0 => if length (after q0) <? length (after p)
                            then rep_loop (run r) lo hi k fuel (S n) q0
                            else None)) as [e' ->]; [|done].
    destruct (Nat.ltb_spec (length (after q)) (length (after p))); [|lia].
    apply IHn; auto; try lia.
    intros h Hh. specialize (Hhi h Hh). lia.
Qed.

Lemma look_re_match_spec r s :
  re_match r s = true <-> exists q, sem r (start s) q.
Proof.
  unfold re_match. split.
  - destruct (run r (start s) Some) as [e|] eqn:H; [|discriminate].
    intros _. apply look_run_sound in H as (q & Hq & _). eauto.
  - intros [q Hq].
    destruct (proj1 look_run_complete r (start s) q Hq Some) as [e ->]; done.
Qed.

Lemma look_sem_Cat_inv r1 r2 p e :
  sem (Cat r1 r2) p e -> exists q, sem r1 p q /\ sem r2 q e.
Proof. intros H. inversion H; subst. eauto. Qed.

Lemma look_sem_Test_inv t p q : sem (Test t) p q -> q = p /\ t p = true.
Proof. intros H. inversion H; subst. done. Qed.

Lemma look_sem_Empty_inv p q : sem Empty p q -> q = p.
Proof. intros H. by inversion H. Qed.

(** A run of a character class passes over characters of the class. *)
Lemma look_sem_n_class_inv c n : forall p q,
  sem_n (Class c) n p q ->
  exists w, length w = n /\ Forall (fun a => c a = true) w /\
            after p = w ++ after q /\ before q = rev w ++ before p.
Proof.
  induction n as [|n IH]; intros p q H; inversion H; subst.
  - by exists [].
  - match goal with H1 : sem (Class c) _ _ |- _ =>
      inversion H1 as [|c' a rest p' Ha Hc| | | | |]; subst end.
    match goal with H2 : sem_n (Class c) n _ _ |- _ =>
      apply IH in H2 as (w & Hlen & Hw & Haft & Hbef) end.
    exists (a :: w). simpl in *. split; [by rewrite Hlen|].
    split; [by apply Forall_cons|]. split; [by rewrite Ha, Haft|].
    by rewrite Hbef, <- app_assoc.
Qed.

Lemma look_sem_rep_class_inv c lo hi p q :
  sem (Rep (Class c) lo hi) p q ->
  exists w, lo <= length w /\ (forall h, hi = Some h -> length w <= h) /\
            Forall (fun a => c a = true) w /\
            after p = w ++ after q /\ before q = rev w ++ before p.
Proof.
  intros H. inversion H as [| | | | |r lo' hi' n p' q' Hlo Hhi Hn|]; subst.
  apply look_sem_n_class_inv in Hn as (w & <- & Hw & Haft & Hbef).
  exists w. done.
Qed.

Lemma look_sem_n_class c w : forall b rest,
  Forall (fun a => c a = true) w ->
  sem_n (Class c) (length w) (Pos b (w ++ rest)) (Pos (rev w ++ b) rest).
Proof.
  induction w as [|a w IH]; intros b rest Hw; simpl; [constructor|].
  apply Forall_cons in Hw as [Ha Hw].
  apply (sem_n_S _ _ _ (Pos (a :: b) (w ++ rest))).
  - by apply (sem_Class c a (w ++ rest) (Pos b (a :: w ++ rest))).
  - simpl. lia.
  - rewrite <- app_assoc. by apply IH.
Qed.

Lemma look_sem_rep_class c lo hi w b rest :
  Forall (fun a => c a = true) w ->
  lo <= length w -> (forall h, hi = Some h -> length w <= h) ->
  sem (Rep (Class c) lo hi) (Pos b (w ++ rest)) (Pos (rev w ++ b) rest).
Proof.
  intros Hw Hlo Hhi. apply (sem_Rep _ _ _ (length w)); [done|done|].
  by apply look_sem_n_class.
Qed.

End LookFacts.

(** * Properties of the domain validator *)
Module ValidatorsFacts.
Import Re Py Str Validators.

Lemma last_rev_head {A} (l : list A) : head (rev l) = last l.
Proof.
  induction l as [|a l IH] using rev_ind; [done|].
  by rewrite rev_app_distr, last_snoc.
Qed.

Lemma head_app_nonempty {A} (l r : list A) : l <> [] -> head (l ++ r) = head l.
Proof. by destruct l. Qed.

(** One iteration of the group: a label and a dot. *)
Lemma group_inv p q :
  Look.sem
    (Look.seq [ Look.not_ahead (is_char "-");
                Look.Rep (Look.Class label_char) 1 (Some 63);
                Look.not_behind (is_char "-");
                Look.Class (is_char ".") ]) p q ->
  exists l, label l /\ after p = (l ++ lit ".") ++ after q.
Proof.
  unfold Look.seq. cbn [foldr]. intros H.
  apply LookFacts.look_sem_Cat_inv in H as (p1 & H1 & H).
  apply LookFacts.look_sem_Cat_inv in H as (p2 & H2 & H).
  apply LookFacts.look_sem_Cat_inv in H as (p3 & H3 & H).
  apply LookFacts.look_sem_Cat_inv in H as (p4 & H4 & H).
  apply LookFacts.look_sem_Empty_inv in H as ->.
  apply LookFacts.look_sem_Test_inv in H1 as [-> Hahead].
  apply LookFacts.look_sem_rep_class_inv in H2
    as (w & Hlo & Hhi & Hw & Haft & Hbef).
  apply LookFacts.look_sem_Test_inv in H3 as [-> Hbehind].
  inversion H4 as [|c a rest p' Ha Hc| | | | |]; subst.
  apply bool_decide_eq_true in Hc as ->.
  assert (Hne : w <> []) by (intros ->; simpl in Hlo; lia).
  exists w. split.
  - split; [split; [done | by apply Hhi]|]. split; [done|]. split.
    + rewrite Haft in Hahead. destruct w as [|a w]; [done|]. simpl in *.
      intros [= ->]. done.
    + rewrite Hbef in Hbehind. rewrite <- last_rev_head.
      destruct (rev w) as [|a w'] eqn:Hrev.
      { apply (f_equal (@length _)) in Hrev. rewrite length_rev in Hrev.
        destruct w; [done|discriminate]. }
      simpl in *. intros [= ->]. done.
  - rewrite Haft, Ha. simpl. by rewrite <- app_assoc.
Qed.

Lemma groups_inv n : forall p q,
  Look.sem_n
    (Look.seq [ Look.not_ahead (is_char "-");
                Look.Rep (Look.Class label_char) 1 (Some 63);
                Look.not_behind (is_char "-");
                Look.Class (is_char ".") ]) n p q ->
  exists labels, length labels = n /\ Forall label labels /\
    after p = concat (map (fun l => l ++ lit ".") labels) ++ after q.
Proof.
  induction n as [|n IH]; intros p q H; inversion H; subst.
  - by exists [].
  - match goal with H1 : Look.sem _ p _ |- _ =>
      apply group_inv in H1 as (l & Hl & Hp) end.
    match goal with H2 : Look.sem_n _ n _ _ |- _ =>
      apply IH in H2 as (labels & Hlen & Hlabels & Hq) end.
    exists (l :: labels). split; [by rewrite <- Hlen|].
    split; [by apply Forall_cons|].
    rewrite Hp, Hq. simpl. by rewrite <- !app_assoc.
Qed.

(** What the pattern matches is a domain name, or one with a line feed
    after it. *)
Lemma domain_pattern_accepted d :
  Look.re_match domain_pattern d = true -> accepted d.
Proof.
  intros H. apply LookFacts.look_re_match_spec in H as [q H].
  unfold domain_pattern, Look.seq in H. cbn [foldr] in H.
  apply LookFacts.look_sem_Cat_inv in H as (p1 & H1 & H).
  apply LookFacts.look_sem_Cat_inv in H as (p2 & H2 & H).
  apply LookFacts.look_sem_Cat_inv in H as (p3 & H3 & H).
  apply LookFacts.look_sem_Cat_inv in H as (p4 & H4 & H).
  apply LookFacts.look_sem_Empty_inv in H as ->.
  apply LookFacts.look_sem_Test_inv in H1 as [-> _].
  inversion H2 as [| | | | |r lo hi n p' q' Hlo _ Hn|]; subst.
  apply groups_inv in Hn as (labels & Hlen & Hlabels & Hd). simpl in Hd.
  apply LookFacts.look_sem_rep_class_inv in H3
    as (t & Htlo & Hthi & Ht & Haft & _).
  apply LookFacts.look_sem_Test_inv in H4 as [-> Hend].
  assert (Hname : domain_name
            (concat (map (fun l => l ++ lit ".") labels) ++ t)).
  { exists labels, t. split; [intros ->; simpl in Hlen; lia|].
    split; [done|]. split; [|done]. split; [|done].
    split; [done | by apply Hthi]. }
  rewrite Hd, Haft.
  destruct (after p3) as [|a [|b rest]]; [| |done].
  - left. by rewrite app_nil_r.
  - right. apply bool_decide_eq_true in Hend as ->. eexists. split; [exact Hname|].
    by rewrite <- app_assoc.
Qed.

Lemma cut_contains sep s :
  contains sep s = true -> exists l r, cut sep s = Some (l, r).
Proof.
  induction s as [|a s IH]; cbn [contains cut].
  - rewrite orb_false_r. intros ->. eauto.
  - destruct (startswith sep (a :: s)); [eauto|]. cbn [orb].
    intros H. destruct (IH H) as (l & r & ->). eauto.
Qed.

Lemma item_first sep s : exists u, item (split1 sep s) 0 = Return u.
Proof. unfold split1. destruct (cut sep s) as [[l r]|]; by eexists. Qed.

Lemma item_second sep s :
  contains sep s = true -> exists v, item (split1 sep s) 1 = Return v.
Proof.
  intros H. destruct (cut_contains sep s H) as (l & r & Hc).
  unfold split1. rewrite Hc. by eexists.
Qed.

Lemma scheme_has_separator s :
  startswith (lit "http://") s || startswith (lit "https://") s = true ->
  contains (lit "://") s = true.
Proof.
  intros H. apply StrFacts.contains_spec.
  apply orb_true_iff in H as [H|H]; apply StrFacts.startswith_spec in H as [post ->].
  - by exists (lit "http"), post.
  - by exists (lit "https"), post.
Qed.

Lemma group_sem l b rest :
  label l ->
  Look.sem
    (Look.seq [ Look.not_ahead (is_char "-");
                Look.Rep (Look.Class label_char) 1 (Some 63);
                Look.not_behind (is_char "-");
                Look.Class (is_char ".") ])
    (Pos b ((l ++ lit ".") ++ rest)) (Pos (rev (l ++ lit ".") ++ b) rest).
Proof.
  intros ([Hlo Hhi] & Hchars & Hhead & Hlast).
  unfold Look.seq. cbn [foldr]. rewrite <- app_assoc.
  eapply Look.sem_Cat.
  { apply Look.sem_Test. cbn [after]. destruct l as [|a l]; [simpl in Hlo; lia|].
    simpl in *. apply negb_true_iff. unfold is_char. apply bool_decide_eq_false.
    intros ->. by apply Hhead. }
  eapply Look.sem_Cat.
  { apply (LookFacts.look_sem_rep_class _ _ _ l b (lit "." ++ rest));
      [done|done|]. by intros h [= <-]. }
  eapply Look.sem_Cat.
  { apply Look.sem_Test. cbn [before]. rewrite <- last_rev_head in Hlast.
    destruct (rev l) as [|a l'] eqn:Hrev.
    - apply (f_equal (@length _)) in Hrev. rewrite length_rev in Hrev.
      simpl in Hrev. lia.
    - simpl in *. apply negb_true_iff. unfold is_char.
      apply bool_decide_eq_false. intros ->. by apply Hlast. }
  eapply Look.sem_Cat.
  { apply (Look.sem_Class _ "."%char rest (Pos (rev l ++ b) (lit "." ++ rest)));
      [done|]. unfold is_char. by apply bool_decide_eq_true. }
  unfold shift. cbn [before]. rewrite rev_app_distr. simpl.
  apply Look.sem_Empty.
Qed.

Lemma groups_sem labels : forall b rest,
  Forall label labels ->
  Look.sem_n
    (Look.seq [ Look.not_ahead (is_char "-");
                Look.Rep (Look.Class label_char) 1 (Some 63);
                Look.not_behind (is_char "-");
                Look.Class (is_char ".") ])
    (length labels)
    (Pos b (concat (map (fun l => l ++ lit ".") labels) ++ rest))
    (Pos (rev (concat (map (fun l => l ++ lit ".") labels)) ++ b) rest).
Proof.
  induction labels as [|l labels IH]; intros b rest Hl; [constructor|].
  apply Forall_cons in Hl as [Hl Hlabels]. cbn [map concat length].
  set (c := concat (map (fun l => l ++ lit ".") labels)) in *.
  replace (((l ++ lit ".") ++ c) ++ rest) with ((l ++ lit ".") ++ (c ++ rest))
    by apply (app_assoc (l ++ lit ".")).
  replace (rev ((l ++ lit ".") ++ c) ++ b)
    with (rev c ++ (rev (l ++ lit ".") ++ b))
    by (rewrite (rev_app_distr (l ++ lit ".") c); apply app_assoc).
  apply (Look.sem_n_S _ _ _ (Pos (rev (l ++ lit ".") ++ b) (c ++ rest))).
  - by apply group_sem.
  - cbn [after]. rewrite !length_app. simpl. lia.
  - by apply IH.
Qed.

(** The pattern matches every domain name. *)
Lemma domain_name_matches d :
  domain_name d -> Look.re_match domain_pattern d = true.
Proof.
  intros (labels & t & Hne & Hlabels & [[Htlo Hthi] Ht] & ->).
  apply LookFacts.look_re_match_spec. unfold domain_pattern, Look.seq, start.
  cbn [foldr]. eexists.
  eapply Look.sem_Cat; [by apply Look.sem_Test|].
  eapply Look.sem_Cat.
  { apply (Look.sem_Rep _ _ _ (length labels)).
    - destruct labels; [done|]. simpl. lia.
    - done.
    - by apply groups_sem. }
  eapply Look.sem_Cat.
  { rewrite <- (app_nil_r t) at 1.
    apply LookFacts.look_sem_rep_class; [done|done|]. by intros h [= <-]. }
  eapply Look.sem_Cat; [by apply Look.sem_Test|]. apply Look.sem_Empty.
Qed.

(** A domain name is made of lower-case letters, digits, hyphens and dots,
    and has a dot. *)
Lemma domain_name_chars d :
  domain_name d ->
  Forall (fun a => (label_char a || is_char "." a) = true) d /\ "."%char ∈ d.
Proof.
  intros (labels & t & Hne & Hlabels & [_ Ht] & ->). split.
  - apply Forall_app. split.
    + clear Hne. induction Hlabels as [|l labels Hl _ IH]; [done|].
      cbn [map concat]. apply Forall_app. split; [|done].
      apply Forall_app. split.
      * destruct Hl as (_ & Hl & _). eapply Forall_impl; [exact Hl|].
        intros a Ha. simpl in Ha. by rewrite Ha.
      * apply Forall_singleton. reflexivity.
    + eapply Forall_impl; [exact Ht|]. intros a Ha. simpl in Ha.
      unfold label_char, lower_alpha in *. by rewrite Ha.
  - destruct labels as [|l labels]; [done|]. cbn [map concat].
    rewrite !elem_of_app. left. left. right. by apply elem_of_cons; left.
Qed.

(** [validate_domain] never fails at an index.  It answers (False, None),
    or (True, d) for a [d] that is a domain name: one label or more of 1 to
    63 lower-case letters, digits and inner hyphens, each followed by a dot,
    and 2 to 63 lower-case letters; but [d] can have a line feed after the
    name, which [$] lets through. *)
Theorem validate_domain_accepts_domain_names (domain : str) :
  validate_domain domain = Return (false, None) \/
  exists d, validate_domain domain = Return (true, Some d) /\ accepted d.
Proof.
  unfold validate_domain. cbv zeta.
  destruct (lower (strip domain)) as [|a n] eqn:Hn; [by left|].
  set (s := a :: n).
  assert (Hscheme : exists s1,
    (if startswith (lit "http://") s || startswith (lit "https://") s
     then item (split1 (lit "://") s) 1 else Return s) = Return s1).
  { destruct (_ || _) eqn:Hs; [|by eexists].
    by apply item_second, scheme_has_separator. }
  destruct Hscheme as [s1 ->].
  destruct (item_first (lit "/") s1) as [s2 ->].
  destruct (item_first (lit "?") s2) as [s3 ->].
  destruct (item_first (lit ":") s3) as [s4 ->].
  destruct (Look.re_match domain_pattern _) eqn:Hm; cbn [negb]; [|by left].
  right. eexists. split; [reflexivity|]. by apply domain_pattern_accepted.
Qed.

(** ** What is stripped from the input *)

Lemma startswith_head_ne c pre a s :
  a <> c -> startswith (c :: pre) (a :: s) = false.
Proof.
  intros Hne. apply bool_decide_eq_false. intros [k Hk].
  injection Hk as Hk _. by apply Hne.
Qed.

Lemma cut_skip c pre a s :
  a <> c ->
  cut (c :: pre) (a :: s) =
  match cut (c :: pre) s with Some (l, r) => Some (a :: l, r) | None => None end.
Proof. intros Hne. simpl. by rewrite startswith_head_ne. Qed.

Lemma cut_here sep s : cut sep (sep ++ s) = Some ([], s).
Proof.
  destruct (sep ++ s) eqn:E; simpl; rewrite <- E, StrFacts.startswith_app;
    by rewrite drop_app_length.
Qed.

Lemma cut_none c s : cut [c] s = None -> c ∉ s.
Proof.
  intros Hcut Hin. apply StrFacts.contains_elem in Hin.
  destruct (cut_contains _ _ Hin) as (l & r & H). congruence.
Qed.

Lemma app_eq_split (x r l : str) c r0 :
  x ++ r = l ++ c :: r0 -> c ∉ x -> exists k, l = x ++ k /\ r = k ++ c :: r0.
Proof.
  revert l. induction x as [|a x IH]; intros l H Hc; [by exists l|].
  destruct l as [|b l].
  - injection H as -> _. exfalso. apply Hc. by apply elem_of_cons; left.
  - injection H as -> H. destruct (IH l H) as (k & -> & ->).
    + intros Hin. apply Hc. by apply elem_of_cons; right.
    + by exists k.
Qed.

(** Cutting at a character that the host part does not have keeps the host
    part, and a shorter tail. *)
Lemma item_first_keeps c x r :
  c ∉ x -> ends_host r ->
  exists r1,
    item (split1 [c] (x ++ r)) 0 = Return (x ++ r1) /\
    (c ∉ r1) /\ r1 `prefix_of` r /\ ends_host r1.
Proof.
  intros Hc Hr. unfold split1.
  destruct (cut [c] (x ++ r)) as [[l r0]|] eqn:Hcut.
  - apply StrFacts.cut_char in Hcut as [Heq Hl].
    destruct (app_eq_split _ _ _ _ _ Heq Hc) as (k & -> & ->).
    exists k. split; [done|]. split.
    + intros Hin. apply Hl. apply elem_of_app. by right.
    + split; [by apply prefix_app_r|].
      destruct k as [|a k]; [by left|]. right.
      destruct Hr as [Hr|(c' & r' & Hr & Hc')]; [discriminate Hr|].
      injection Hr as <- _. by exists a, k.
  - apply cut_none in Hcut. exists r. split; [done|].
    split; [|done]. intros Hin. apply Hcut. apply elem_of_app. by right.
Qed.

Lemma not_elem_of_prefix {A} (c : A) (r1 r : list A) :
  r1 `prefix_of` r -> c ∉ r -> c ∉ r1.
Proof. intros [k ->] H Hin. apply H. apply elem_of_app. by left. Qed.

(** The three cuts leave the host part. *)
Lemma host_part x r :
  Forall (fun a => (label_char a || is_char "." a) = true) x -> ends_host r ->
  exists s2 s3,
    item (split1 (lit "/") (x ++ r)) 0 = Return s2 /\
    item (split1 (lit "?") s2) 0 = Return s3 /\
    item (split1 (lit ":") s3) 0 = Return x.
Proof.
  intros Hx Hr.
  assert (Hno : forall c, (label_char c || is_char "." c) = false -> c ∉ x).
  { intros c Hc Hin. rewrite Forall_forall in Hx. specialize (Hx c Hin).
    congruence. }
  destruct (item_first_keeps "/"%char x r) as (r1 & H1 & Hn1 & Hp1 & He1);
    [by apply Hno|done|].
  destruct (item_first_keeps "?"%char x r1) as (r2 & H2 & Hn2 & Hp2 & He2);
    [by apply Hno|done|].
  destruct (item_first_keeps ":"%char x r2) as (r3 & H3 & Hn3 & Hp3 & He3);
    [by apply Hno|done|].
  exists (x ++ r1), (x ++ r2). split; [exact H1|]. split; [exact H2|].
  change (lit ":") with [":"%char]. rewrite H3.
  destruct He3 as [->|(c & r' & -> & Hc)]; [by rewrite app_nil_r|].
  exfalso.
  assert (Hn2' : "?"%char ∉ c :: r') by (by eapply not_elem_of_prefix).
  assert (Hn1' : "/"%char ∉ c :: r').
  { eapply not_elem_of_prefix; [exact Hp3|].
    by eapply not_elem_of_prefix. }
  apply elem_of_cons in Hc as [->|Hc];
    [apply Hn1'; by apply elem_of_cons; left|].
  apply elem_of_cons in Hc as [->|Hc];
    [apply Hn2'; by apply elem_of_cons; left|].
  apply list_elem_of_singleton in Hc as ->.
  apply Hn3. by apply elem_of_cons; left.
Qed.

(** A text that opens with a host part does not open with a scheme. *)
Lemma no_scheme p x r :
  ":"%char ∈ p -> ":"%char ∉ x -> "."%char ∈ x -> "."%char ∉ p ->
  startswith p (x ++ r) = false.
Proof.
  intros Hp Hx Hdot Hpdot. apply bool_decide_eq_false. intros Hpre.
  destruct (prefix_weak_total p x (x ++ r) Hpre (prefix_app_r x x r (reflexivity x)))
    as [[k ->]|[k ->]].
  - apply Hx. apply elem_of_app. by left.
  - apply Hpdot. apply elem_of_app. by left.
Qed.

Lemma scheme_step scheme m x r :
  scheme ∈ [[]; lit "http://"; lit "https://"] ->
  m = x ++ r -> ":"%char ∉ x -> "."%char ∈ x ->
  (if startswith (lit "http://") (scheme ++ m) ||
      startswith (lit "https://") (scheme ++ m)
   then item (split1 (lit "://") (scheme ++ m)) 1
   else Return (scheme ++ m)) = Return m.
Proof.
  intros Hs -> Hx Hdot.
  apply elem_of_cons in Hs as [->|Hs]; [|apply elem_of_cons in Hs as [->|Hs]].
  - cbn [app]. rewrite !no_scheme; try done;
      apply (bool_decide_unpack _); vm_compute; exact I.
  - rewrite StrFacts.startswith_app. cbn [orb]. unfold split1.
    change (lit "http://" ++ x ++ r)
      with ("h"%char :: "t"%char :: "t"%char :: "p"%char :: lit "://" ++ x ++ r).
    change (lit "://") with (":"%char :: lit "//").
    rewrite !cut_skip by discriminate.
    change (":"%char :: lit "//") with (lit "://").
    by rewrite cut_here.
  - apply list_elem_of_singleton in Hs as ->.
    rewrite StrFacts.startswith_app, orb_true_r. unfold split1.
    change (lit "https://" ++ x ++ r)
      with ("h"%char :: "t"%char :: "t"%char :: "p"%char :: "s"%char ::
            lit "://" ++ x ++ r).
    change (lit "://") with (":"%char :: lit "//").
    rewrite !cut_skip by discriminate.
    change (":"%char :: lit "//") with (lit "://").
    by rewrite cut_here.
Qed.

(** The scheme, what follows the host (a path, a query, a port) and one
    leading [www.] are stripped: whenever the input, stripped of outer white
    space and in lower case, is a scheme or nothing, [www.] or nothing, a
    domain name, and then nothing or text that opens with a slash, a
    question mark or a colon, [validate_domain] answers with that domain
    name. *)
Theorem validate_domain_strips (domain scheme www d rest : str) :
  lower (strip domain) = scheme ++ www ++ d ++ rest ->
  scheme ∈ [[]; lit "http://"; lit "https://"] ->
  www ∈ [[]; lit "www."] ->
  domain_name d ->
  (www = [] -> startswith (lit "www.") d = false) ->
  ends_host rest ->
  validate_domain domain = Return (true, Some d).
Proof.
  intros Hn Hscheme Hwww Hd Hnowww Hrest.
  destruct (domain_name_chars d Hd) as [Hchars Hdot].
  assert (Hx : Forall (fun a => (label_char a || is_char "." a) = true) (www ++ d)).
  { apply Forall_app. split; [|done].
    apply elem_of_cons in Hwww as [->|Hwww]; [done|].
    apply list_elem_of_singleton in Hwww as ->.
    apply (bool_decide_unpack _). vm_compute. exact I. }
  assert (Hcolon : ":"%char ∉ www ++ d).
  { intros Hin. rewrite Forall_forall in Hx. by specialize (Hx _ Hin). }
  assert (Hdot' : "."%char ∈ www ++ d) by (apply elem_of_app; by right).
  unfold validate_domain. cbv zeta. rewrite Hn. clear Hn.
  destruct (scheme ++ www ++ d ++ rest) as [|a n] eqn:Hne.
  { exfalso. apply (f_equal (@length _)) in Hne. rewrite !length_app in Hne.
    destruct d; [by apply not_elem_of_nil in Hdot | simpl in Hne; lia]. }
  rewrite <- Hne. clear a n Hne.
  rewrite (scheme_step scheme (www ++ d ++ rest) (www ++ d) rest Hscheme)
    by (done || by rewrite app_assoc).
  rewrite (app_assoc www d rest).
  destruct (host_part (www ++ d) rest Hx Hrest) as (s2 & s3 & -> & -> & ->).
  assert (Hstrip : (if startswith (lit "www.") (www ++ d)
                    then drop 4 (www ++ d) else www ++ d) = d).
  { apply elem_of_cons in Hwww as [->|Hwww].
    - cbn [app]. by rewrite Hnowww.
    - apply list_elem_of_singleton in Hwww as ->.
      by rewrite StrFacts.startswith_app. }
  rewrite Hstrip, (domain_name_matches d Hd). done.
Qed.

Lemma validate_domain_strips_witness :
  validate_domain (lit "  HTTP://WWW.Example.com/path?x=1 ") =
  Return (true, Some (lit "example.com")).
Proof.
  apply (validate_domain_strips _ (lit "http://") (lit "www.")
           (lit "example.com") (lit "/path?x=1")).
  - reflexivity.
  - apply elem_of_cons; right. apply elem_of_cons; by left.
  - apply elem_of_cons; right. apply elem_of_cons; by left.
  - exists [lit "example"], (lit "com"). split; [discriminate|].
    split; [|split; [|reflexivity]].
    + constructor; [|constructor]. split; [simpl; lia|].
      split; [by repeat constructor|]. split; discriminate.
    + split; [simpl; lia|]. by repeat constructor.
  - discriminate.
  - right. exists "/"%char, (lit "path?x=1"). split; [reflexivity|].
    apply elem_of_cons; by left.
Defined.

End ValidatorsFacts.


Module ExtractorsMore.
Import Re Py Extractors ExtractorsFacts.









End ExtractorsMore.


Module ProfilesFacts.
Import Py Osint Profiles.

Lemma collides_person ty nm i t :
  existsb (collides {| id := i; type := ty; name := nm; domain := None |}) t
  = false.
Proof.
  induction t as [|x t IH]; [done|]. simpl. rewrite IH.
  unfold collides. simpl. by rewrite andb_false_r.
Qed.

(** A target that is not a domain gets a new row at every call. *)
Lemma get_or_create_person target entity_type d :
  entity_type <> lit "domain" ->
  _get_or_create_entity target entity_type d =
  (Return (next_id (entities d)),
   {| entities := entities d ++ [person_row target d];
      osint_profiles := osint_profiles d |}).
Proof.
  intros Hty. unfold _get_or_create_entity, insert_or_ignore.
  rewrite !bool_decide_false by done. cbv zeta.
  by rewrite collides_person.
Qed.

Lemma find_id_fresh (t : list Osint.entity) row :
  id row = next_id t ->
  List.find (fun r => bool_decide (id r = id row)) (t ++ [row]) = Some row.
Proof.
  intros Hid. rewrite OsintFacts.find_snoc.
  rewrite OsintFacts.find_none_existsb; [by rewrite bool_decide_true|].
  destruct (existsb _ t) eqn:Hex; [|done].
  apply existsb_exists in Hex as (x & Hx & Heq).
  apply bool_decide_eq_true in Heq. apply list_elem_of_In in Hx.
  apply OsintMore.next_id_above in Hx. lia.
Qed.

Lemma find_id_distinct (t : list Osint.entity) row :
  NoDup (map id t) -> row ∈ t ->
  List.find (fun r => bool_decide (id r = id row)) t = Some row.
Proof.
  induction t as [|x t IH]; intros Hnd Hin; [by inversion Hin|].
  simpl in Hnd. apply NoDup_cons in Hnd as [Hx Hnd]. simpl.
  apply elem_of_cons in Hin as [->|Hin]; [by rewrite bool_decide_true|].
  rewrite bool_decide_false; [by apply IH|].
  intros Heq. apply Hx. rewrite Heq. apply list_elem_of_fmap. by exists row.
Qed.

Section profiles_facts.
Variable data_t : Type.
Variable is_empty : data_t -> bool.
Variable dumps_standardized : data_t -> str.
Variable dumps_structured : data_t -> str -> str.
Variable updated_at_default : Z -> option Z.
Variable json : Type.
Variable loads : str -> option json.
Variable empty_object : json.
Variable info_row : Type.
Variable info_entity_id : info_row -> Z.
Variable E : Type.
Variable fetch_domain_osint : str -> result E data_t.
Variable fetch_email_osint : str -> result E data_t.

Local Abbreviation entity :=
  (entity data_t is_empty dumps_standardized dumps_structured
     updated_at_default json loads empty_object info_row info_entity_id E
     fetch_domain_osint fetch_email_osint).
Local Abbreviation profile_of_row := (profile_of_row json loads empty_object).
Local Abbreviation profiles_data := (profiles_data json loads empty_object).
Local Abbreviation saved_row := (saved_row data_t dumps_standardized dumps_structured).
Local Abbreviation fetched_for :=
  (fetched_for data_t E fetch_domain_osint fetch_email_osint).
Local Abbreviation upsert := (upsert updated_at_default).

(** The entry under a source is the one of the last row of that source. *)
Lemma foldl_profiles_lookup src e l : forall acc : gmap str (profile_entry json),
  (forall r, r ∈ l -> source r = src -> profile_of_row r = e) ->
  foldl (fun acc p_row => <[source p_row := profile_of_row p_row]> acc) acc l
    !! src
  = if existsb (fun r => bool_decide (source r = src)) l then Some e
    else acc !! src.
Proof.
  induction l as [|a l IH]; intros acc Hall; [done|]. simpl.
  rewrite IH by (intros r Hr; apply Hall; by apply elem_of_cons; right).
  destruct (existsb _ l); [by rewrite orb_true_r|]. rewrite orb_false_r.
  destruct (bool_decide (source a = src)) eqn:Ha.
  - apply bool_decide_eq_true in Ha. rewrite <- Ha, lookup_insert_eq.
    f_equal. apply Hall; [by apply elem_of_cons; left | done].
  - apply bool_decide_eq_false in Ha. by rewrite lookup_insert_ne.
Qed.

(** After an upsert, the rows of the entity under the source all hold what
    was written, and there is one at least. *)
Lemma upsert_rows eid src (data : data_t) now t :
  exists upd,
    (upd = Some now \/ upd = updated_at_default now) /\
    let rows :=
      List.filter (fun r => bool_decide (entity_id r = eid))
        (upsert eid src (dumps_standardized data) (dumps_structured data src)
           now t) in
    existsb (fun r => bool_decide (source r = src)) rows = true /\
    forall r, r ∈ rows -> source r = src ->
      profile_of_row r = profile_of_row (saved_row eid src data upd).
Proof.
  unfold Osint.upsert.
  destruct (existsb (same_key eid src) t) eqn:Hex.
  - exists (Some now). split; [by left|]. cbv zeta. split.
    + apply existsb_exists in Hex as (x & Hx & Hkey).
      apply existsb_exists.
      exists {| entity_id := entity_id x; source := source x;
                raw_data := dumps_standardized data;
                extracted_fields := dumps_structured data src;
                updated_at := Some now |}.
      apply andb_true_iff in Hkey as Hkey'. destruct Hkey' as [Hk1 Hk2].
      split; [|exact Hk2].
      apply filter_In. split; [|exact Hk1].
      apply in_map_iff. exists x. by rewrite Hkey.
    + intros r Hr Hsrc. apply list_elem_of_In, filter_In in Hr as [Hr Heid].
      apply in_map_iff in Hr as (x & <- & Hx).
      destruct (same_key eid src x) eqn:Hkey; [done|].
      exfalso. unfold same_key in Hkey. rewrite Heid in Hkey.
      rewrite bool_decide_true in Hkey by done. discriminate.
  - exists (updated_at_default now). split; [by right|]. cbv zeta.
    rewrite List.filter_app. cbn [List.filter entity_id].
    rewrite bool_decide_true by done. split.
    + rewrite existsb_app. cbn [existsb source].
      rewrite bool_decide_true by done. by rewrite orb_true_r.
    + intros r Hr Hsrc. apply elem_of_app in Hr as [Hr|Hr].
      * exfalso. apply list_elem_of_In, filter_In in Hr as [Hr Heid].
        assert (Hk : existsb (same_key eid src) t = true); [|congruence].
        apply existsb_exists. exists r. split; [done|].
        unfold same_key. rewrite Heid. by rewrite bool_decide_true.
      * by apply list_elem_of_singleton in Hr as ->.
Qed.

(** For every entity type other than "domain" and "email", [entity] saves
    nothing and builds no profile, but it has added a person row named
    after the target by then, a new one at every call: with "username" the
    call raises a [TypeError], with any other type it returns the error
    "Unknown entity type". *)
Theorem entity_other_types (target entity_type : str) (now : Z) (d : db)
    (contacts : list contact_row) (domain_info : list info_row) :
  entity_type <> lit "domain" -> entity_type <> lit "email" ->
  exists outcome,
    entity target entity_type now d contacts domain_info =
    (outcome,
     {| entities := entities d ++ [person_row target d];
        osint_profiles := osint_profiles d |}) /\
    (entity_type = lit "username" -> exists msg, outcome = Raise (TypeError msg)) /\
    (entity_type <> lit "username" ->
     outcome = Return (Error (lit "Unknown entity type: " ++ entity_type))).
Proof.
  intros Hdom Hmail. unfold Profiles.entity.
  rewrite (get_or_create_person target entity_type d Hdom).
  rewrite !bool_decide_false by done.
  destruct (bool_decide (entity_type = lit "username")) eqn:Huser.
  - apply bool_decide_eq_true in Huser. eexists. split; [reflexivity|].
    split; [by eexists | done].
  - apply bool_decide_eq_false in Huser. eexists. split; [reflexivity|].
    split; [done | reflexivity].
Qed.

(** What [entity] saves, it reads back: for a domain or an address whose
    adapter returns data that are not empty, on a table whose ids are
    distinct, the call returns a profile of the row of the target, and
    under the entity type its profiles hold the entry decoded from the two
    texts just written. *)
Theorem entity_reads_back (target entity_type : str) (data : data_t) (now : Z)
    (d : db) (contacts : list contact_row) (domain_info : list info_row) :
  ids_distinct d ->
  fetched_for entity_type target data ->
  is_empty data = false ->
  exists row info profiles listed d' upd,
    entity target entity_type now d contacts domain_info =
    (Return (Profile row info profiles listed), d') /\
    name row = target /\
    type row = OsintSpec.db_entity_type entity_type /\
    (upd = Some now \/ upd = updated_at_default now) /\
    profiles !! entity_type =
    Some (profile_of_row (saved_row (id row) entity_type data upd)).
Proof.
  intros Hids Hfetch Hdata. unfold Profiles.entity.
  destruct (OsintMore.get_or_create_entity_cases target entity_type d)
    as (row & Hname & Htype & Hcases).
  assert (Hfetched :
    (if bool_decide (entity_type = lit "domain") then
       match fetch_domain_osint target with
       | Raise e => Raise (FetchFailed e)
       | Return data_to_save => Return (Return (data_to_save, lit "domain"))
       end
     else if bool_decide (entity_type = lit "email") then
       match fetch_email_osint target with
       | Raise e => Raise (FetchFailed e)
       | Return data_to_save => Return (Return (data_to_save, lit "email"))
       end
     else if bool_decide (entity_type = lit "username") then
       Raise (TypeError
                (lit "fetch_social_osint() missing 1 required positional argument: 'dirs'"))
     else Return (Raise (lit "Unknown entity type: " ++ entity_type)))
    = (Return (Return (data, entity_type)) : result (exn E) (result str (data_t * str)))).
  { destruct Hfetch as [[-> ->]|[-> ->]]; [by rewrite bool_decide_true|].
    rewrite bool_decide_false by discriminate. by rewrite bool_decide_true. }
  destruct (upsert_rows (id row) entity_type data now (osint_profiles d))
    as (upd & Hupd & Hex & Hall).
  assert (Hfind : exists d0,
    _get_or_create_entity target entity_type d = (Return (id row), d0) /\
    osint_profiles d0 = osint_profiles d /\
    List.find (fun r => bool_decide (id r = id row)) (entities d0) = Some row).
  { destruct Hcases as [[Hin Heq]|[Hid Heq]]; eexists; (split; [exact Heq|]).
    - split; [done|]. by apply find_id_distinct.
    - split; [done|]. by apply find_id_fresh. }
  destruct Hfind as (d0 & -> & Hprof & Hrow).
  rewrite Hfetched, Hdata.
  unfold _build_full_profile, _save_osint_profile. rewrite Hdata.
  cbn [entities osint_profiles]. rewrite Hrow, Hprof.
  eexists row, _, _, _, _, upd.
  split; [reflexivity|]. split; [done|]. split; [done|]. split; [done|].
  unfold Profiles.profiles_data.
  rewrite (foldl_profiles_lookup entity_type
             (profile_of_row (saved_row (id row) entity_type data upd)))
    by exact Hall.
  cbv zeta in Hex. by rewrite Hex.
Qed.

End profiles_facts.

Lemma entity_other_types_witness :
  exists msg,
    entity (list (str * str)) sample_is_empty sample_dumps sample_structured
      Some str sample_loads [] Z (fun i => i) unit
      sample_fetch_domain sample_fetch_email
      (lit "alice") (lit "username") 7 OsintSpec.sample_db [] [] =
    (Raise (TypeError msg),
     {| entities :=
          entities OsintSpec.sample_db ++
          [person_row (lit "alice") OsintSpec.sample_db];
        osint_profiles := osint_profiles OsintSpec.sample_db |}).
Proof.
  destruct (entity_other_types (list (str * str)) sample_is_empty sample_dumps
              sample_structured Some str sample_loads [] Z (fun i => i) unit
              sample_fetch_domain sample_fetch_email
              (lit "alice") (lit "username") 7 OsintSpec.sample_db [] [])
    as (outcome & Heq & Huser & _); [discriminate | discriminate |].
  destruct (Huser eq_refl) as [msg ->]. by exists msg.
Defined.

Lemma entity_reads_back_witness :
  exists row info profiles listed d' upd,
    entity (list (str * str)) sample_is_empty sample_dumps sample_structured
      Some str sample_loads [] Z (fun i => i) unit
      sample_fetch_domain sample_fetch_email
      (lit "example.com") (lit "domain") 7 OsintSpec.sample_db [] [] =
    (Return (Profile row info profiles listed), d') /\
    name row = lit "example.com" /\
    type row = OsintSpec.db_entity_type (lit "domain") /\
    (upd = Some 7%Z \/ upd = Some 7%Z) /\
    profiles !! lit "domain" =
    Some (profile_of_row str sample_loads []
            (saved_row (list (str * str)) sample_dumps sample_structured
               (id row) (lit "domain") [(lit "dns", lit "example.com")] upd)).
Proof.
  apply (entity_reads_back (list (str * str)) sample_is_empty sample_dumps
           sample_structured Some str sample_loads [] Z (fun i => i) unit
           sample_fetch_domain sample_fetch_email
           (lit "example.com") (lit "domain") [(lit "dns", lit "example.com")]
           7 OsintSpec.sample_db [] []).
  - apply (bool_decide_unpack _). vm_compute. exact I.
  - left. split; reflexivity.
  - reflexivity.
Defined.

End ProfilesFacts.


Module DataProcessingFacts.
Import DataProcessing.

Section standardize_facts.
Variable key : Type.
Variable datetime : Type.
Variable other : Type.
Variable isoformat : datetime -> str.

Local Abbreviation item := (item key datetime other).
Local Abbreviation standardize_for_json :=
  (standardize_for_json key datetime other isoformat).
Local Abbreviation serialisable := (serialisable key datetime other).

Lemma serialisable_dict (items : list (key * item)) :
  serialisable (Dict items) <-> Forall (fun kv => serialisable (snd kv)) items.
Proof.
  induction items as [|kv items IH]; simpl.
  - split; [constructor | done].
  - rewrite Forall_cons. simpl in IH. by rewrite IH.
Qed.

Lemma serialisable_list (items : list item) :
  serialisable (List items) <-> Forall serialisable items.
Proof.
  induction items as [|x items IH]; simpl.
  - split; [constructor | done].
  - rewrite Forall_cons. simpl in IH. by rewrite IH.
Qed.

Lemma standardize_serialisable (i : item) : serialisable (standardize_for_json i).
Proof.
  induction i as [t|s|items IH|items IH|o] using item_induction; try done.
  - change (serialisable
              (Dict (map (fun kv => (fst kv, standardize_for_json (snd kv))) items))).
    apply serialisable_dict. apply Forall_map.
    eapply Forall_impl; [exact IH|]. by intros kv H.
  - change (serialisable (List (map standardize_for_json items))).
    apply serialisable_list. apply Forall_map.
    eapply Forall_impl; [exact IH|]. by intros x H.
Qed.

Lemma standardize_fixed (i : item) :
  serialisable i -> standardize_for_json i = i.
Proof.
  induction i as [t|s|items IH|items IH|o] using item_induction; try done.
  - intros H. apply serialisable_dict in H.
    change (Dict (map (fun kv => (fst kv, standardize_for_json (snd kv))) items)
            = Dict items).
    f_equal. induction items as [|[k v] items IHitems]; [done|].
    apply Forall_cons in IH as [IHv IH]. apply Forall_cons in H as [Hv H].
    cbn [map fst snd] in *. rewrite (IHv Hv). f_equal. by apply IHitems.
  - intros H. apply serialisable_list in H.
    change (List (map standardize_for_json items) = List items).
    f_equal. induction items as [|v items IHitems]; [done|].
    apply Forall_cons in IH as [IHv IH]. apply Forall_cons in H as [Hv H].
    cbn [map]. rewrite (IHv Hv). f_equal. by apply IHitems.
Qed.

(** [standardize_for_json] leaves no [datetime] at the top or inside the
    dictionaries and lists of its result, returns an item that has none
    unchanged, and so does nothing when applied a second time. *)
Theorem standardize_for_json_idempotent (i : item) :
  serialisable (standardize_for_json i) /\
  (serialisable i -> standardize_for_json i = i) /\
  standardize_for_json (standardize_for_json i) = standardize_for_json i.
Proof.
  split; [apply standardize_serialisable|]. split; [apply standardize_fixed|].
  apply standardize_fixed, standardize_serialisable.
Qed.

End standardize_facts.

Lemma standardize_for_json_idempotent_witness :
  standardize_for_json str Z unit sample_isoformat
    (standardize_for_json str Z unit sample_isoformat sample_item) =
  Dict [ (lit "updated_at", Str (lit "1970-01-01T00:00:00"));
         (lit "seen", List [Str (lit "1970-01-01T00:00:00"); Str (lit "never");
                            Other tt]) ].
Proof.
  destruct (standardize_for_json_idempotent str Z unit sample_isoformat
              sample_item) as (_ & _ & ->).
  reflexivity.
Defined.

End DataProcessingFacts.


Module WaybackFacts.
Import Wayback.

Lemma collect_spec items ending0 : forall results,
  length results <= 5 ->
  collect items ending0 results =
  if 6 <=? length results + length items
  then Return (results ++ map to_entry (take (6 - length results) items))
  else match ending0 with
       | Some e => Raise e
       | None => Return (results ++ map to_entry items)
       end.
Proof.
  induction items as [|s items IH]; intros results Hlen; cbn [collect length map].
  - rewrite Nat.add_0_r. destruct (6 <=? length results) eqn:H6.
    + apply Nat.leb_le in H6. lia.
    + destruct ending0; [done|]. by rewrite app_nil_r.
  - cbv zeta. rewrite length_app. cbn [length].
    destruct (5 <? length results + 1) eqn:H5.
    + apply Nat.ltb_lt in H5. assert (length results = 5) as Hl by lia.
      rewrite Hl.
      replace (6 <=? 5 + S (length items)) with true
        by (symmetry; apply Nat.leb_le; lia).
      change (6 - 5) with 1. cbn [take map]. by rewrite take_0.
    + apply Nat.ltb_ge in H5. rewrite IH by (rewrite length_app; simpl; lia).
      rewrite length_app. cbn [length].
      replace (length results + 1 + length items)
        with (length results + S (length items)) by lia.
      replace (6 - length results) with (S (6 - (length results + 1))) by lia.
      cbn [take map]. by rewrite <- !app_assoc.
Qed.

(** When the library returns a true iterable, [fetch_wayback_snapshots]
    returns the first six snapshots it yields, whatever the limit asked
    for, and reads no further: a failure of the iteration is reported only
    if it comes before the sixth snapshot. *)
Theorem fetch_wayback_snapshots_first_six
    (snapshots : str -> Z -> result exn iterable) (url0 : str) (limit : Z)
    (snapshots0 : iterable) :
  snapshots url0 limit = Return snapshots0 ->
  truthy snapshots0 = true ->
  fetch_wayback_snapshots snapshots url0 limit =
  match ending snapshots0 with
  | Some e =>
      if 6 <=? length (yielded snapshots0)
      then Snapshots (map to_entry (take 6 (yielded snapshots0)))
      else handle e
  | None => Snapshots (map to_entry (take 6 (yielded snapshots0)))
  end.
Proof.
  intros Hcall Htrue. unfold fetch_wayback_snapshots.
  rewrite Hcall, Htrue. cbn [negb].
  rewrite collect_spec by (simpl; lia). cbn [length app Nat.add Nat.sub].
  destruct (6 <=? length (yielded snapshots0)) eqn:H6.
  - by destruct (ending snapshots0).
  - destruct (ending snapshots0); [done|].
    apply Nat.leb_gt in H6. by rewrite take_ge by lia.
Qed.

Lemma fetch_wayback_snapshots_first_six_witness :
  fetch_wayback_snapshots sample_snapshots (lit "example.com") 5 =
  Snapshots (map (fun n => to_entry (sample_snapshot (lit n)))
               ["1"; "2"; "3"; "4"; "5"; "6"]%string).
Proof.
  rewrite (fetch_wayback_snapshots_first_six sample_snapshots
             (lit "example.com") 5 _ eq_refl eq_refl).
  reflexivity.
Defined.

End WaybackFacts.


Module SherlockFacts.
Import Py Str Validators Sherlock.

Lemma lstrip_app_nonspace l c t :
  isspace c = false -> lstrip (l ++ c :: t) = lstrip l ++ c :: t.
Proof.
  intros Hc. induction l as [|a l IH]; simpl; [by rewrite Hc|].
  by destruct (isspace a).
Qed.

Lemma rstrip_app_nonspace l c t :
  isspace c = false -> rstrip (l ++ c :: t) = l ++ c :: rstrip t.
Proof.
  intros Hc. unfold rstrip. rewrite reverse_app, reverse_cons, <- app_assoc.
  cbn [app]. rewrite lstrip_app_nonspace by done.
  by rewrite reverse_app, reverse_cons, !reverse_involutive, <- app_assoc.
Qed.

Lemma lstrip_idempotent s : lstrip (lstrip s) = lstrip s.
Proof.
  induction s as [|a s IH]; [done|]. simpl.
  destruct (isspace a) eqn:Ha; [done|]. simpl. by rewrite Ha.
Qed.

Lemma strip_lstrip s : strip (lstrip s) = strip s.
Proof. unfold strip. by rewrite lstrip_idempotent. Qed.

Lemma lstrip_suffix s : lstrip s `suffix_of` s.
Proof.
  induction s as [|a s IH]; [done|]. simpl.
  destruct (isspace a); [by apply suffix_cons_r | done].
Qed.

(** The first occurrence of a separator whose first character is not in
    the text before it. *)
Lemma cut_first c sep pre rest :
  c ∉ pre -> cut (c :: sep) (pre ++ (c :: sep) ++ rest) = Some (pre, rest).
Proof.
  induction pre as [|a pre IH]; intros Hc.
  - exact (ValidatorsFacts.cut_here (c :: sep) rest).
  - change ((a :: pre) ++ (c :: sep) ++ rest)
      with (a :: (pre ++ (c :: sep) ++ rest)).
    rewrite ValidatorsFacts.cut_skip.
    + rewrite IH; [done|]. intros Hin. apply Hc. by apply elem_of_cons; right.
    + intros ->. apply Hc. by apply elem_of_cons; left.
Qed.

Lemma parse_line_claimed username0 include_username pre a b :
  "["%char ∉ pre -> ":"%char ∉ pre -> ":"%char ∉ a ->
  parse_line username0 include_username (claimed_line pre a b) =
  Some (strip a, claimed username0 include_username b).
Proof.
  intros Hpre Hcolon Ha. unfold parse_line, claimed_line, split1.
  change (lit "[+]") with ("["%char :: lit "+]").
  rewrite (cut_first "["%char (lit "+]") pre (a ++ lit ":" ++ b) Hpre).
  cbn [item lookup list_lookup]. unfold strip at 1.
  change (lit ":" ++ b) with (":"%char :: b).
  rewrite lstrip_app_nonspace, rstrip_app_nonspace by done.
  change (lit ":") with [":"%char].
  rewrite StrFacts.cut_char_first.
  2:{ intros Hin. apply Ha. destruct (lstrip_suffix a) as [k Hk].
      rewrite Hk. apply elem_of_app. by right. }
  cbn [item lookup list_lookup]. cbv zeta. rewrite strip_lstrip.
  replace (pre ++ ("["%char :: lit "+]") ++ a ++ ":"%char :: b)
    with ((pre ++ lit "[+]" ++ a) ++ ":"%char :: b)
    by (by rewrite <- !app_assoc).
  rewrite StrFacts.cut_char_first; [done|].
  rewrite !elem_of_app. intros [H|[H|H]]; [by apply Hcolon| |by apply Ha].
  revert H. apply (bool_decide_unpack _). vm_compute. exact I.
Qed.

Lemma claimed_line_contains pre a b :
  contains (lit "[+]") (claimed_line pre a b) = true.
Proof. apply StrFacts.contains_spec. by exists pre, (a ++ lit ":" ++ b). Qed.

Lemma foldl_unmarked username0 include_username ls : forall results : gmap str info,
  Forall (fun l => contains (lit "[+]") l = false) ls ->
  foldl (fun results line =>
           if contains (lit "[+]") line then
             match parse_line username0 include_username line with
             | Some (site, info0) => <[site := info0]> results
             | None => results
             end
           else results) results ls = results.
Proof.
  induction ls as [|l ls IH]; intros results H; [done|].
  apply Forall_cons in H as [Hl H]. cbn [foldl]. rewrite Hl. by apply IH.
Qed.

(** A line that has the mark [[+]], then a site, the first colon of the
    line, and an address, puts the address under the site, both stripped
    of outer white space; the address keeps its own colons.  The entry is
    the one found in the result when no later line has the mark. *)
Theorem parse_sherlock_stdout_claimed (stdout username0 : str)
    (include_username : bool) (before after : list str) (pre a b : str) :
  splitlines stdout = before ++ claimed_line pre a b :: after ->
  "["%char ∉ pre -> ":"%char ∉ pre -> ":"%char ∉ a ->
  Forall (fun l => contains (lit "[+]") l = false) after ->
  _parse_sherlock_stdout stdout username0 include_username !! strip a =
  Some (claimed username0 include_username b).
Proof.
  intros Hlines Hpre Hcolon Ha Hafter. unfold _parse_sherlock_stdout.
  rewrite Hlines, foldl_app. cbn [foldl].
  rewrite claimed_line_contains, parse_line_claimed by done.
  rewrite foldl_unmarked by done. apply lookup_insert_eq.
Qed.

Lemma parse_sherlock_stdout_claimed_witness :
  _parse_sherlock_stdout sample_stdout (lit "alice") false !! lit "Reddit" =
  Some (claimed (lit "alice") false (lit " https://www.reddit.com/user/alice")).
Proof.
  apply (parse_sherlock_stdout_claimed sample_stdout (lit "alice") false
           [lit "[*] Checking username alice on:"]
           [lit "[*] Search completed with 1 results"]
           [] (lit " Reddit") (lit " https://www.reddit.com/user/alice")).
  - reflexivity.
  - apply not_elem_of_nil.
  - apply not_elem_of_nil.
  - apply (bool_decide_unpack _). vm_compute. exact I.
  - by repeat constructor.
Defined.

End SherlockFacts.
